(** * zest-task-dash: the optimistic task cache, the sync coordinator and
      the reminder scheduler

    Shallow embedding of
      - [src/types/task.ts]            (the data model),
      - [src/store/taskStore.ts]       (the zustand store: the Local Task Cache
                                        and the derived views),
      - [useTasks]                     (the Sync Coordinator),
      - [src/hooks/useNotifications.tsx] (the Reminder Scheduler),
      - [useRoles]                     (the roles and the team members),
      - the counts of [AnalyticsView], [TaskList] and [SummaryCards],
      - [src/components/Dashboard/TaskForm.tsx] (the reminders of the form),
    followed by the properties of the specification and further properties
    of the code.

    Conventions.
    - A [Date] is its [getTime()] value: milliseconds since the epoch, in [Z].
    - A JavaScript object of interface [Task] (or of [Partial<Task>]: at run
      time they are the same kind of object) is a record of optional
      properties: [None] is a property that is absent (reads as [undefined]),
      [Some v] a property that is present.  A nullable property has one more
      [option]: [Some None] is [null].  A property that is present with the
      value [undefined] is not told apart from an absent one; the callers of
      [updateTask] build their updates from defined values.
    - The Remote Store is an input: every coordinator operation takes the
      outcome of its request as an argument. *)

From Stdlib Require Import ZArith Lia Ascii String List Permutation Sorted.
From stdpp Require Import base decidable option list strings gmap pretty.

Open Scope string_scope.

(** ** src/types/task.ts *)

Inductive Priority := high | medium | low.
Inductive TaskStatus := pending | completed.
Inductive ReminderType := on_due | one_day_before | one_hour_before | custom.

#[global] Instance Priority_eq_dec : EqDecision Priority.
Proof. solve_decision. Defined.
#[global] Instance TaskStatus_eq_dec : EqDecision TaskStatus.
Proof. solve_decision. Defined.
#[global] Instance ReminderType_eq_dec : EqDecision ReminderType.
Proof. solve_decision. Defined.

Record Reminder := mkReminder {
  r_id : string;
  r_taskId : string;
  r_time : Z;
  r_type : ReminderType;
  r_triggered : bool;
  r_snoozedUntil : option Z
}.

Record Task := mkTask {
  t_id : option string;
  t_title : option string;
  t_description : option string;
  t_priority : option Priority;
  t_status : option TaskStatus;
  t_dueDate : option (option Z);
  t_category : option string;
  t_tags : option (list string);
  t_estimatedMinutes : option (option Z);
  t_createdAt : option Z;
  t_completedAt : option (option Z);
  t_reminders : option (list Reminder);
  t_assignedTo : option (option string);
  t_assignedToName : option string
}.

(** The object with no property at all, [{}]. *)
Definition emptyObj : Task :=
  mkTask None None None None None None None None None None None None None None.

(** [k in o] *)
Definition has {A} (o : option A) : bool :=
  match o with Some _ => true | None => false end.

(** An object that has every required property of interface [Task]. *)
Definition isTask (t : Task) : bool :=
  has (t_id t) && has (t_title t) && has (t_description t) &&
  has (t_priority t) && has (t_status t) && has (t_dueDate t) &&
  has (t_category t) && has (t_tags t) && has (t_estimatedMinutes t) &&
  has (t_createdAt t) && has (t_completedAt t) && has (t_reminders t).

Inductive SortBy := by_dueDate | by_priority | by_createdAt | by_title.
Inductive SortOrder := asc | desc.

Record TaskFilters := mkFilters {
  f_priority : option Priority;     (* None is 'all' *)
  f_status : option TaskStatus;     (* None is 'all' *)
  f_category : string;              (* "all" selects every category *)
  f_search : string;
  f_sortBy : SortBy;
  f_sortOrder : SortOrder
}.

(** ** src/store/taskStore.ts *)

Module Store.

(** [categories] and [isDarkMode] play no part in what follows and are left
    out of the state. *)
Record TaskStore := mkStore {
  tasks : list Task;
  filters : TaskFilters;
  isLoading : bool;
  isInitialized : bool
}.

Definition defaultFilters : TaskFilters :=
  mkFilters None None "all" "" by_dueDate asc.

Definition initial : TaskStore := mkStore [] defaultFilters true false.

(** [{ ...task, ...updates }]: a property of [updates] wins when present. *)
Definition over {A} (u t : option A) : option A :=
  match u with Some v => Some v | None => t end.

Definition spread (task updates : Task) : Task :=
  {| t_id := over (t_id updates) (t_id task);
     t_title := over (t_title updates) (t_title task);
     t_description := over (t_description updates) (t_description task);
     t_priority := over (t_priority updates) (t_priority task);
     t_status := over (t_status updates) (t_status task);
     t_dueDate := over (t_dueDate updates) (t_dueDate task);
     t_category := over (t_category updates) (t_category task);
     t_tags := over (t_tags updates) (t_tags task);
     t_estimatedMinutes := over (t_estimatedMinutes updates) (t_estimatedMinutes task);
     t_createdAt := over (t_createdAt updates) (t_createdAt task);
     t_completedAt := over (t_completedAt updates) (t_completedAt task);
     t_reminders := over (t_reminders updates) (t_reminders task);
     t_assignedTo := over (t_assignedTo updates) (t_assignedTo task);
     t_assignedToName := over (t_assignedToName updates) (t_assignedToName task) |}.

(** [task.id === id].  The callers of the store pass a string, except
    [triggerReminder], which passes the [id] property of an object of the
    cache: [None] is [undefined], and is equal to the [id] of an object that
    has none. *)
Definition idIs (id : option string) (task : Task) : bool :=
  bool_decide (t_id task = id).

(** ['id' in updates && 'title' in updates && 'createdAt' in updates] *)
Definition isFullTask (updates : Task) : bool :=
  has (t_id updates) && has (t_title updates) && has (t_createdAt updates).

Definition withTasks (f : list Task -> list Task) (s : TaskStore) : TaskStore :=
  mkStore (f (tasks s)) (filters s) (isLoading s) (isInitialized s).

Definition setTasks (ts : list Task) : TaskStore -> TaskStore :=
  withTasks (fun _ => ts).

Definition setLoading (b : bool) (s : TaskStore) : TaskStore :=
  mkStore (tasks s) (filters s) b (isInitialized s).

Definition setInitialized (b : bool) (s : TaskStore) : TaskStore :=
  mkStore (tasks s) (filters s) (isLoading s) b.

Definition addTaskOptimistic (task : Task) : TaskStore -> TaskStore :=
  withTasks (fun ts => task :: ts).

Definition patchEntry (id : option string) (updates : Task) (task : Task) : Task :=
  if idIs id task then
    if isFullTask updates then updates else spread task updates
  else task.

Definition updateTaskOptimistic (id : option string) (updates : Task)
  : TaskStore -> TaskStore :=
  withTasks (map (patchEntry id updates)).

Definition deleteTaskOptimistic (id : string) : TaskStore -> TaskStore :=
  withTasks (List.filter (fun task => negb (idIs (Some id) task))).

End Store.

(** ** The derived view [getFilteredTasks] (taskStore.ts) *)

(** The numbers a sort comparison can evaluate to: a finite difference of
    millisecond counts or of ranks, [Infinity], [-Infinity] or [NaN]. *)
Inductive Num := Fin (z : Z) | PInf | NInf | NaN.

Module Num.

Definition sub (a b : Num) : Num :=
  match a, b with
  | NaN, _ | _, NaN => NaN
  | Fin x, Fin y => Fin (x - y)
  | Fin _, PInf => NInf
  | Fin _, NInf => PInf
  | PInf, PInf => NaN
  | PInf, _ => PInf
  | NInf, NInf => NaN
  | NInf, _ => NInf
  end.

Definition neg (a : Num) : Num :=
  match a with
  | Fin x => Fin (- x)
  | PInf => NInf
  | NInf => PInf
  | NaN => NaN
  end.

(** [v > 0], the only case in which [Array.prototype.sort] places the second
    argument before the first; [NaN] counts as [0]. *)
Definition isPos (a : Num) : bool :=
  match a with
  | Fin x => (0 <? x)%Z
  | PInf => true
  | _ => false
  end.

End Num.

(** [Array.prototype.sort(compare)]: a stable sort.  [compare] returns [None]
    when it throws.  For a comparison that never throws and orders its
    arguments consistently the result does not depend on the engine; it is
    computed here by insertion from the right. *)
Section Sort.
Context {A : Type} (compare : A -> A -> option Num).

Fixpoint insertSorted (x : A) (l : list A) : option (list A) :=
  match l with
  | [] => Some [x]
  | y :: l' =>
      v ← compare x y;
      if Num.isPos v then r ← insertSorted x l'; Some (y :: r)
      else Some (x :: l)
  end.

Fixpoint sortBy (l : list A) : option (list A) :=
  match l with
  | [] => Some []
  | x :: l' => r ← sortBy l'; insertSorted x r
  end.
End Sort.

(** [filtered.filter(p)] for a predicate that may throw. *)
Fixpoint filterM {A} (p : A -> option bool) (l : list A) : option (list A) :=
  match l with
  | [] => Some []
  | x :: l' =>
      b ← p x;
      r ← filterM p l';
      Some (if (b : bool) then x :: r else r)
  end.

(** [s.includes(sub)] *)
Fixpoint includes (s sub : string) : bool :=
  String.prefix sub s ||
  match s with
  | EmptyString => false
  | String _ s' => includes s' sub
  end.

(** [tags.some(p)], [p] may throw. *)
Fixpoint someM {A} (p : A -> option bool) (l : list A) : option bool :=
  match l with
  | [] => Some false
  | x :: l' => b ← p x; if (b : bool) then Some true else someM p l'
  end.

Module View.
Import Store.

Section DerivedViews.
(** Unicode case mapping and locale collation are the engine's. *)
Variable toLowerCase : string -> string.
Variable localeCompare : string -> string -> Z.

(** [a.dueDate ? new Date(a.dueDate).getTime() : Infinity] *)
Definition dueKey (a : Task) : Num :=
  match t_dueDate a with
  | Some (Some d) => Fin d
  | _ => PInf
  end.

(** [priorityOrder[a.priority]] *)
Definition priorityOrder (a : Task) : Num :=
  match t_priority a with
  | Some high => Fin 0
  | Some medium => Fin 1
  | Some low => Fin 2
  | None => NaN
  end.

(** [new Date(a.createdAt).getTime()] *)
Definition createdKey (a : Task) : Num :=
  match t_createdAt a with
  | Some c => Fin c
  | None => NaN
  end.

(** The body of the comparison function, before the direction is applied.
    [a.title.localeCompare(b.title)] throws when [a] has no title, and
    compares with the text of [undefined] when [b] has none. *)
Definition comparison (by_ : SortBy) (a b : Task) : option Num :=
  match by_ with
  | by_dueDate => Some (Num.sub (dueKey a) (dueKey b))
  | by_priority => Some (Num.sub (priorityOrder a) (priorityOrder b))
  | by_createdAt => Some (Num.sub (createdKey b) (createdKey a))
  | by_title =>
      ta ← t_title a;
      Some (Fin (localeCompare ta (default "undefined" (t_title b))))
  end.

(** [return filters.sortOrder === 'asc' ? comparison : -comparison] *)
Definition compareTasks (f : TaskFilters) (a b : Task) : option Num :=
  c ← comparison (f_sortBy f) a b;
  Some (match f_sortOrder f with asc => c | desc => Num.neg c end).

Definition matchesSearch (search : string) (t : Task) : option bool :=
  title ← t_title t;
  if includes (toLowerCase title) search then Some true else
  description ← t_description t;
  if includes (toLowerCase description) search then Some true else
  tags ← t_tags t;
  someM (fun tag => Some (includes (toLowerCase tag) search)) tags.

(** The four filters of [getFilteredTasks], applied to a copy of the tasks. *)
Definition applyFilters (s : TaskStore) : option (list Task) :=
  let f := filters s in
  let filtered := tasks s in
  let filtered :=
    match f_priority f with
    | Some p => List.filter (fun t => bool_decide (t_priority t = Some p)) filtered
    | None => filtered
    end in
  let filtered :=
    match f_status f with
    | Some st => List.filter (fun t => bool_decide (t_status t = Some st)) filtered
    | None => filtered
    end in
  let filtered :=
    if bool_decide (f_category f = "all") then filtered
    else List.filter (fun t => bool_decide (t_category t = Some (f_category f))) filtered in
  if bool_decide (f_search f = "") then Some filtered
  else filterM (matchesSearch (toLowerCase (f_search f))) filtered.

Definition getFilteredTasks (s : TaskStore) : option (list Task) :=
  filtered ← applyFilters s;
  sortBy (compareTasks (filters s)) filtered.
End DerivedViews.

End View.

(** ** The state the hooks act on *)

Inductive NotificationPermission := granted | denied | default_permission.

Record Toast := mkToast {
  toast_title : string;
  toast_description : option string;
  toast_destructive : bool;
  toast_duration : option Z
}.

Record DesktopNotification := mkNotification {
  n_title : string;
  n_body : string;
  n_tag : option string
}.

(** useNotifications.tsx, [interface ActiveReminder] *)
Record ActiveReminder := mkActive {
  a_id : string;
  a_taskId : option string;
  a_taskTitle : option string;
  a_reminderTime : Z;
  a_snoozeCount : nat
}.

(** What a snooze timer will show when it elapses: the variables its callback
    closes over. *)
Record SnoozeAlert := mkAlert {
  al_reminderId : string;
  al_taskTitle : option string;
  al_taskId : option string;
  al_snoozeCount : nat
}.

(** The rows and requests of the Remote Store. *)
Record Row := mkRow {
  row_id : string;
  row_title : string;
  row_description : option string;
  row_priority : Priority;
  row_status : TaskStatus;
  row_due_date : option Z;
  row_category : option string;
  row_tags : option (list string);
  row_estimated_minutes : option Z;
  row_created_at : Z;
  row_completed_at : option Z;
  row_assigned_to : option string
}.

Record Profile := mkProfile {
  p_display_name : option string;
  p_email : option string
}.

Record InsertPayload := mkInsert {
  ins_user_id : string;
  ins_title : option string;
  ins_description : string;
  ins_priority : option Priority;
  ins_status : TaskStatus;
  ins_due_date : option Z;
  ins_category : option string;
  ins_tags : list string;
  ins_estimated_minutes : option (option Z);
  ins_assigned_to : option string
}.

(** [dbUpdates]: a column is present when the property of [updates] is. *)
Record DbUpdates := mkDbUpdates {
  db_title : option string;
  db_description : option string;
  db_priority : option Priority;
  db_status : option TaskStatus;
  db_due_date : option (option Z);
  db_category : option string;
  db_tags : option (list string);
  db_estimated_minutes : option (option Z);
  db_completed_at : option (option Z);
  db_assigned_to : option (option string)
}.

Inductive Request :=
| ReqSelectTasks
| ReqSelectProfiles
| ReqInsert (payload : InsertPayload)
| ReqProfile (id : string)
| ReqUpdate (id : string) (u : DbUpdates)
| ReqDelete (id : string).

(** The answer of the Remote Store to one operation: an error (with its
    message), or the data of a success. *)
Inductive Outcome (A : Type) :=
| Failure (message : string)
| Success (a : A).
Arguments Failure {A} message.
Arguments Success {A} a.

(** The store, the state of [useNotifications] ([activeReminders], the
    [snoozeIntervalsRef] map, the permission), the timers of the browser that
    are still pending, and what has been shown and sent so far (oldest first).
    [fired] records the calls of [triggerReminder]. *)
Record World := mkWorld {
  store : Store.TaskStore;
  activeReminders : list ActiveReminder;
  snoozeIntervals : gmap string positive;
  timeouts : list (positive * SnoozeAlert);
  nextTimer : positive;
  permission : NotificationPermission;
  toasts : list Toast;
  notifications : list DesktopNotification;
  requests : list Request;
  fired : list (Task * Reminder)
}.

Definition initialWorld : World :=
  mkWorld Store.initial [] ∅ [] 1%positive default_permission [] [] [] [].

Definition withStore (f : Store.TaskStore -> Store.TaskStore) (w : World) : World :=
  mkWorld (f (store w)) (activeReminders w) (snoozeIntervals w) (timeouts w)
          (nextTimer w) (permission w) (toasts w) (notifications w)
          (requests w) (fired w).

Definition setActiveReminders (f : list ActiveReminder -> list ActiveReminder)
  (w : World) : World :=
  mkWorld (store w) (f (activeReminders w)) (snoozeIntervals w) (timeouts w)
          (nextTimer w) (permission w) (toasts w) (notifications w)
          (requests w) (fired w).

Definition withSnoozeIntervals (f : gmap string positive -> gmap string positive)
  (w : World) : World :=
  mkWorld (store w) (activeReminders w) (f (snoozeIntervals w)) (timeouts w)
          (nextTimer w) (permission w) (toasts w) (notifications w)
          (requests w) (fired w).

Definition toast (t : Toast) (w : World) : World :=
  mkWorld (store w) (activeReminders w) (snoozeIntervals w) (timeouts w)
          (nextTimer w) (permission w) (toasts w ++ [t]) (notifications w)
          (requests w) (fired w).

Definition send (r : Request) (w : World) : World :=
  mkWorld (store w) (activeReminders w) (snoozeIntervals w) (timeouts w)
          (nextTimer w) (permission w) (toasts w) (notifications w)
          (requests w ++ [r]) (fired w).

Definition recordFired (t : Task) (r : Reminder) (w : World) : World :=
  mkWorld (store w) (activeReminders w) (snoozeIntervals w) (timeouts w)
          (nextTimer w) (permission w) (toasts w) (notifications w)
          (requests w) (fired w ++ [(t, r)]).

(** [setTimeout(callback, 5 * 60 * 1000)]: the browser hands out a handle it
    has not used before, a positive integer. *)
Definition setTimeout (a : SnoozeAlert) (w : World) : positive * World :=
  (nextTimer w,
   mkWorld (store w) (activeReminders w) (snoozeIntervals w)
           (timeouts w ++ [(nextTimer w, a)])
           (Pos.succ (nextTimer w)) (permission w) (toasts w) (notifications w)
           (requests w) (fired w)).

(** [clearTimeout(h)]: no effect when [h] is not pending. *)
Definition clearTimeout (h : positive) (w : World) : World :=
  mkWorld (store w) (activeReminders w) (snoozeIntervals w)
          (List.filter (fun p => negb (bool_decide (p.1 = h))) (timeouts w))
          (nextTimer w) (permission w) (toasts w) (notifications w)
          (requests w) (fired w).

(** A template literal prints an absent property as [undefined]. *)
Definition str (o : option string) : string := default "undefined" o.

(** [x || y] on strings: the empty string and [undefined] are falsy. *)
Definition truthy (o : option string) : bool :=
  match o with
  | Some s => negb (bool_decide (s = ""))
  | None => false
  end.

Definition orElse (x y : option string) : option string :=
  if truthy x then x else y.

(** [email.split('@')[0]] *)
Fixpoint beforeAt (s : string) : string :=
  match s with
  | EmptyString => EmptyString
  | String c s' =>
      if bool_decide (c = "@"%char) then EmptyString else String c (beforeAt s')
  end.

(** ** The Sync Coordinator: [useTasks] *)

Module Sync.
Import Store.

(** [row.x || fallback] on a nullable text column *)
Definition textOr (o : option string) (fallback : string) : string :=
  if truthy o then str o else fallback.

(** [row.assigned_to || null] *)
Definition truthyOrNull (o : option string) : option string :=
  if truthy o then o else None.

Definition dbToTask (row : Row) (assigneeName : option string) : Task :=
  {| t_id := Some (row_id row);
     t_title := Some (row_title row);
     t_description := Some (textOr (row_description row) "");
     t_priority := Some (row_priority row);
     t_status := Some (row_status row);
     t_dueDate := Some (row_due_date row);
     t_category := Some (textOr (row_category row) "Personal");
     t_tags := Some (default [] (row_tags row));
     t_estimatedMinutes := Some (row_estimated_minutes row);
     t_createdAt := Some (row_created_at row);
     t_completedAt := Some (row_completed_at row);
     t_reminders := Some [];
     t_assignedTo := Some (truthyOrNull (row_assigned_to row));
     t_assignedToName := assigneeName |}.

(** [profile?.display_name || profile?.email?.split('@')[0]] *)
Definition assigneeNameOf (profile : option Profile) : option string :=
  match profile with
  | Some p => orElse (p_display_name p) (beforeAt <$> p_email p)
  | None => None
  end.

(** [fetchTasks]: the full reload.  [remote] is the answer to the select on
    [tasks] together with the rows of [profiles] (with their ids). *)
Definition profileMap (profiles : list (string * Profile)) : gmap string string :=
  foldl (fun m (p : string * Profile) =>
           <[ p.1 := str (orElse (orElse (p_display_name p.2)
                                         (beforeAt <$> p_email p.2))
                                 (Some "Unknown")) ]> m)
        ∅ profiles.

Definition fetchTasks (user : option string)
  (remote : Outcome (list Row * list (string * Profile))) (w : World) : World :=
  match user with
  | None => withStore (setLoading false) (withStore (setTasks []) w)
  | Some _ =>
      let w := withStore (setLoading true) w in
      let w := send ReqSelectTasks w in
      let w :=
        match remote with
        | Failure message =>
            toast (mkToast "Error loading tasks" (Some message) true None) w
        | Success (rows, profiles) =>
            let w := send ReqSelectProfiles w in
            let names := profileMap profiles in
            let ts := map (fun row =>
                        dbToTask row
                          (if truthy (row_assigned_to row)
                           then names !! str (row_assigned_to row)
                           else None)) rows in
            withStore (setTasks ts) w
        end in
      withStore (setInitialized true) (withStore (setLoading false) w)
  end.

(** The optimistic entry of [addTask]:
    [{ ...taskData, id: crypto.randomUUID(), status: 'pending',
       createdAt: new Date(), completedAt: null, reminders: [] }] *)
Definition optimisticTask (uuid : string) (now : Z) (taskData : Task) : Task :=
  {| t_id := Some uuid;
     t_title := t_title taskData;
     t_description := t_description taskData;
     t_priority := t_priority taskData;
     t_status := Some pending;
     t_dueDate := t_dueDate taskData;
     t_category := t_category taskData;
     t_tags := t_tags taskData;
     t_estimatedMinutes := t_estimatedMinutes taskData;
     t_createdAt := Some now;
     t_completedAt := Some None;
     t_reminders := Some [];
     t_assignedTo := t_assignedTo taskData;
     t_assignedToName := t_assignedToName taskData |}.

Definition insertPayload (userId : string) (taskData : Task) : InsertPayload :=
  {| ins_user_id := userId;
     ins_title := t_title taskData;
     ins_description := textOr (t_description taskData) "";
     ins_priority := t_priority taskData;
     ins_status := pending;
     ins_due_date := mjoin (t_dueDate taskData);
     ins_category := t_category taskData;
     ins_tags := default [] (t_tags taskData);
     ins_estimated_minutes := t_estimatedMinutes taskData;
     ins_assigned_to := truthyOrNull (mjoin (t_assignedTo taskData)) |}.

(** [addTask].  [uuid] is the value of [crypto.randomUUID()], [now] the one of
    [new Date()]; [remote] is the inserted row, with the answer to the profile
    look-up that follows it when the row is assigned. *)
Definition addTask (user : option string) (uuid : string) (now : Z)
  (taskData : Task) (remote : Outcome (Row * option Profile)) (w : World)
  : option Task * World :=
  match user with
  | None =>
      (None, toast (mkToast "Please sign in"
                      (Some "You need to be signed in to add tasks") true None) w)
  | Some userId =>
      let optimistic := optimisticTask uuid now taskData in
      let w := withStore (addTaskOptimistic optimistic) w in
      let w := send (ReqInsert (insertPayload userId taskData)) w in
      match remote with
      | Success (data, profile) =>
          let '(assigneeName, w) :=
            if truthy (row_assigned_to data)
            then (assigneeNameOf profile,
                  send (ReqProfile (str (row_assigned_to data))) w)
            else (None, w) in
          let realTask := dbToTask data assigneeName in
          (Some realTask,
           withStore (updateTaskOptimistic (t_id optimistic) realTask) w)
      | Failure message =>
          let w := withStore (deleteTaskOptimistic uuid) w in
          (None, toast (mkToast "Error adding task" (Some message) true None) w)
      end
  end.

(** [useTaskStore.getState().tasks.find(t => t.id === id)] *)
Definition findTask (id : string) (w : World) : option Task :=
  List.find (idIs (Some id)) (tasks (store w)).

Definition dbUpdatesOf (updates : Task) : DbUpdates :=
  {| db_title := t_title updates;
     db_description := t_description updates;
     db_priority := t_priority updates;
     db_status := t_status updates;
     db_due_date := t_dueDate updates;
     db_category := t_category updates;
     db_tags := t_tags updates;
     db_estimated_minutes := t_estimatedMinutes updates;
     db_completed_at := t_completedAt updates;
     db_assigned_to := t_assignedTo updates |}.

Definition updateTask (user : option string) (id : string) (updates : Task)
  (remote : Outcome unit) (w : World) : bool * World :=
  match user with
  | None => (false, w)
  | Some _ =>
      match findTask id w with
      | None => (false, w)
      | Some originalTask =>
          let w := withStore (updateTaskOptimistic (Some id) updates) w in
          let w := send (ReqUpdate id (dbUpdatesOf updates)) w in
          match remote with
          | Success _ => (true, w)
          | Failure message =>
              let w := withStore (updateTaskOptimistic (Some id) originalTask) w in
              (false,
               toast (mkToast "Error updating task" (Some message) true None) w)
          end
      end
  end.

Definition deleteTask (user : option string) (id : string)
  (remote : Outcome unit) (w : World) : bool * World :=
  match user with
  | None => (false, w)
  | Some _ =>
      let originalTask := findTask id w in
      let w := withStore (deleteTaskOptimistic id) w in
      let w := send (ReqDelete id) w in
      match remote with
      | Success _ => (true, w)
      | Failure message =>
          let w :=
            match originalTask with
            | Some t => withStore (addTaskOptimistic t) w
            | None => w
            end in
          (false,
           toast (mkToast "Error deleting task" (Some message) true None) w)
      end
  end.

(** The argument [{ status: newStatus, completedAt }] of [toggleTaskStatus]. *)
Definition togglePatch (now : Z) (task : Task) : Task :=
  let newStatus :=
    if bool_decide (t_status task = Some pending) then completed else pending in
  let completedAt :=
    if bool_decide (newStatus = completed) then Some now else None in
  {| t_id := None; t_title := None; t_description := None; t_priority := None;
     t_status := Some newStatus;
     t_dueDate := None; t_category := None; t_tags := None;
     t_estimatedMinutes := None; t_createdAt := None;
     t_completedAt := Some completedAt;
     t_reminders := None; t_assignedTo := None; t_assignedToName := None |}.

Definition toggleTaskStatus (user : option string) (now : Z) (id : string)
  (remote : Outcome unit) (w : World) : bool * World :=
  match findTask id w with
  | None => (false, w)
  | Some task => updateTask user id (togglePatch now task) remote w
  end.

End Sync.

(** ** The Reminder Scheduler: [useNotifications] *)

Module Notifications.
Import Store.

(** A callback either runs to its end or throws a [TypeError] on the way
    (reading a property of [undefined]); what it did before stays done. *)
Inductive Result :=
| Done (w : World)
| Threw (w : World).

Definition worldOf (r : Result) : World :=
  match r with Done w | Threw w => w end.

(** [xs.forEach(f)] *)
Fixpoint forEach {A} (f : A -> World -> Result) (xs : list A) (w : World)
  : Result :=
  match xs with
  | [] => Done w
  | x :: xs' =>
      match f x w with
      | Done w' => forEach f xs' w'
      | Threw w' => Threw w'
      end
  end.

Definition showNotification (title body : string) (taskId : option string)
  (w : World) : World :=
  match permission w with
  | granted =>
      mkWorld (store w) (activeReminders w) (snoozeIntervals w) (timeouts w)
              (nextTimer w) (permission w) (toasts w)
              (notifications w ++ [mkNotification title body taskId])
              (requests w) (fired w)
  | _ => w
  end.

(** [r.id === reminder.id ? { ...r, triggered: true } : r] *)
Definition markTriggered (id : string) (r : Reminder) : Reminder :=
  if bool_decide (r_id r = id)
  then mkReminder (r_id r) (r_taskId r) (r_time r) (r_type r) true
                  (r_snoozedUntil r)
  else r.

(** The object [{ reminders: updatedReminders }]. *)
Definition remindersPatch (rs : list Reminder) : Task :=
  {| t_id := None; t_title := None; t_description := None; t_priority := None;
     t_status := None; t_dueDate := None; t_category := None; t_tags := None;
     t_estimatedMinutes := None; t_createdAt := None; t_completedAt := None;
     t_reminders := Some rs; t_assignedTo := None; t_assignedToName := None |}.

Definition addActive (a : ActiveReminder) (prev : list ActiveReminder)
  : list ActiveReminder :=
  if existsb (fun r => bool_decide (a_id r = a_id a)) prev then prev
  else prev ++ [a].

(** [triggerReminder(task, reminder)]; [task] is the object the caller holds,
    not the entry of the store. *)
Definition triggerReminder (task : Task) (reminder : Reminder) (w : World)
  : Result :=
  let w := recordFired task reminder w in
  let activeReminder :=
    mkActive (r_id reminder) (t_id task) (t_title task) (r_time reminder) 0 in
  let w := setActiveReminders (addActive activeReminder) w in
  let w := showNotification "⏰ Task Reminder"
             (str (t_title task) ++ " - Reminder triggered!") (t_id task) w in
  let w := toast (mkToast "⏰ Task Reminder" (t_title task) false (Some 10000%Z)) w in
  match t_reminders task with
  | None => Threw w
  | Some rs =>
      let updatedReminders := map (markTriggered (r_id reminder)) rs in
      Done (withStore
              (updateTaskOptimistic (t_id task) (remindersPatch updatedReminders))
              w)
  end.

(** [reminderTime <= now && reminderTime > new Date(now.getTime() - 60000)] *)
Definition inWindow (now : Z) (reminder : Reminder) : bool :=
  (r_time reminder <=? now)%Z && (now - 60000 <? r_time reminder)%Z.

(** [checkReminders], run at time [now] by a render whose [tasks] are
    [snapshot]. *)
Definition checkReminders (now : Z) (snapshot : list Task) (w : World) : Result :=
  forEach
    (fun task w =>
       if bool_decide (t_status task = Some completed) then Done w else
       match t_reminders task with
       | None => Threw w
       | Some rs =>
           forEach
             (fun reminder w =>
                if r_triggered reminder then Done w else
                if inWindow now reminder then triggerReminder task reminder w
                else Done w)
             rs w
       end)
    snapshot w.

(** A scan by an up-to-date render: the snapshot is the content of the store
    when the scan starts. *)
Definition scan (now : Z) (w : World) : Result :=
  checkReminders now (tasks (store w)) w.

Definition snoozedToast : Toast :=
  mkToast "Reminder snoozed" (Some "You will be reminded again in 5 minutes.")
          false None.

(** The branch [r.id === reminderId] of the updater that [snoozeReminder]
    passes to [setActiveReminders]: the pending timer of the reminder is
    cleared, a new one is set and stored in the map, and the entry is
    returned with its count incremented. *)
Definition snoozeEntry (reminderId : string) (r : ActiveReminder) (w : World)
  : ActiveReminder * World :=
  let newSnoozeCount := S (a_snoozeCount r) in
  let w :=
    match snoozeIntervals w !! reminderId with
    | Some existingInterval => clearTimeout existingInterval w
    | None => w
    end in
  let '(snoozeTimeout, w) :=
    setTimeout (mkAlert reminderId (a_taskTitle r) (a_taskId r) newSnoozeCount)
               w in
  let w := withSnoozeIntervals (<[reminderId := snoozeTimeout]>) w in
  let w := toast snoozedToast w in
  (mkActive (a_id r) (a_taskId r) (a_taskTitle r) (a_reminderTime r)
            newSnoozeCount, w).

(** The updater itself, [prev.map(r => ...)], with its effects. *)
Fixpoint snoozeEach (reminderId : string) (prev : list ActiveReminder) (w : World)
  : list ActiveReminder * World :=
  match prev with
  | [] => ([], w)
  | r :: rest =>
      if bool_decide (a_id r = reminderId) then
        let '(r', w) := snoozeEntry reminderId r w in
        let '(rest', w) := snoozeEach reminderId rest w in
        (r' :: rest', w)
      else
        let '(rest', w) := snoozeEach reminderId rest w in
        (r :: rest', w)
  end.

Definition snoozeReminder (reminderId : string) (w : World) : World :=
  let '(next, w) := snoozeEach reminderId (activeReminders w) w in
  setActiveReminders (fun _ => next) w.

Definition dismissReminder (reminderId : string) (w : World) : World :=
  let w :=
    match snoozeIntervals w !! reminderId with
    | Some existingInterval =>
        withSnoozeIntervals (delete reminderId) (clearTimeout existingInterval w)
    | None => w
    end in
  let w := setActiveReminders
             (List.filter (fun r => negb (bool_decide (a_id r = reminderId)))) w in
  toast (mkToast "Reminder dismissed" (Some "The reminder has been dismissed.")
                 false None) w.

(** The callback of a snooze timer, run by the browser when the timer [h]
    elapses; the timer is then no longer pending. *)
Definition elapse (h : positive) (w : World) : World :=
  match List.find (fun p => bool_decide (p.1 = h)) (timeouts w) with
  | None => w
  | Some (_, a) =>
      let w := clearTimeout h w in
      let w := showNotification "⏰ Snoozed Reminder"
                 (str (al_taskTitle a) ++ " - Reminder snoozed " ++
                  pretty (al_snoozeCount a) ++ " time(s)") (al_taskId a) w in
      toast (mkToast "⏰ Snoozed Reminder"
               (Some (str (al_taskTitle a) ++ " - Snoozed " ++
                      pretty (al_snoozeCount a) ++ " time(s)"))
               false (Some 10000%Z)) w
  end.

(** The clean-up of the effect: every snooze timer of the map is cleared and
    the map emptied. *)
Definition cleanup (w : World) : World :=
  let w := foldr (fun (p : string * positive) w => clearTimeout p.2 w) w
                 (map_to_list (snoozeIntervals w)) in
  withSnoozeIntervals (fun _ => ∅) w.

End Notifications.

(** ** [useNotifications]: the permission and the effect *)

Module Lifecycle.
Import Store Notifications.

Definition setPermission (p : NotificationPermission) (w : World) : World :=
  mkWorld (store w) (activeReminders w) (snoozeIntervals w) (timeouts w)
          (nextTimer w) p (toasts w) (notifications w) (requests w) (fired w).

(** [requestPermission].  [browser] is [None] when the window has no
    [Notification], and otherwise what [Notification.requestPermission()]
    gives: the permission, or an exception. *)
Definition requestPermission (browser : option (Outcome NotificationPermission))
  (w : World) : bool * World :=
  match browser with
  | None =>
      (false,
       toast (mkToast "Notifications not supported"
                (Some "Your browser does not support desktop notifications.")
                true None) w)
  | Some (Failure _) => (false, w)
  | Some (Success result) =>
      let w := setPermission result w in
      match result with
      | granted =>
          (true,
           toast (mkToast "Notifications enabled"
                    (Some "You will receive reminder alerts for your tasks.")
                    false None) w)
      | _ =>
          (false,
           toast (mkToast "Notifications blocked"
                    (Some "Please enable notifications in your browser settings.")
                    true None) w)
      end
  end.

(** The body of the effect, run at [now] by a render whose [permission] is the
    one of [w]: [setPermission(Notification.permission)] when the window has
    [Notification] ([browser] is its value), then the initial check.  The
    check runs with the functions of the same render, so with the permission
    the render had; the new permission is in the state afterwards. *)
Definition effectSetup (browser : option NotificationPermission) (now : Z)
  (w : World) : Result :=
  let after w' :=
    match browser with
    | Some p => setPermission p w'
    | None => w'
    end in
  match scan now w with
  | Done w' => Done (after w')
  | Threw w' => Threw (after w')
  end.

End Lifecycle.

(** ** The date views of the store: taskStore.ts *)

Module Summary.
Import Store.

(** [7 * 24 * 60 * 60 * 1000] *)
Definition week : Z := 7 * 24 * 60 * 60 * 1000.

(** [getCompletedTasksThisWeek], called at [now]. *)
Definition getCompletedTasksThisWeek (now : Z) (s : TaskStore) : list Task :=
  let weekAgo := (now - week)%Z in
  List.filter
    (fun t =>
       bool_decide (t_status t = Some completed) &&
       match t_completedAt t with
       | Some (Some c) => (weekAgo <=? c)%Z
       | _ => false
       end)
    (tasks s).

Section DateViews.
(** [Date.prototype.toDateString] and the effect of [setHours(0, 0, 0, 0)]
    read the local calendar: they are functions of the engine. *)
Variable toDateString : Z -> string.
Variable startOfDay : Z -> Z.

(** [t.dueDate && new Date(t.dueDate).toDateString() === day] *)
Definition dueOn (day : string) (t : Task) : bool :=
  match t_dueDate t with
  | Some (Some d) => bool_decide (toDateString d = day)
  | _ => false
  end.

Definition getTasksByDate (date : Z) (s : TaskStore) : list Task :=
  let targetDate := toDateString date in
  List.filter (dueOn targetDate) (tasks s).

(** [getTasksDueToday], called at [now]. *)
Definition getTasksDueToday (now : Z) (s : TaskStore) : list Task :=
  let today := toDateString now in
  List.filter
    (fun t => bool_decide (t_status t = Some pending) && dueOn today t)
    (tasks s).

(** [getOverdueTasks], called at [now]. *)
Definition getOverdueTasks (now : Z) (s : TaskStore) : list Task :=
  let now := startOfDay now in
  List.filter
    (fun t =>
       bool_decide (t_status t = Some pending) &&
       match t_dueDate t with
       | Some (Some d) => (d <? now)%Z
       | _ => false
       end)
    (tasks s).
End DateViews.

End Summary.

(** ** The counts of the views: AnalyticsView, TaskList, SummaryCards *)

Record Category := mkCategory {
  c_id : string;
  c_name : string;
  c_color : string;
  c_icon : string
}.

Module Analytics.

(** [tasks.filter(p).length] *)
Definition count (p : Task -> bool) (tasks : list Task) : nat :=
  length (List.filter p tasks).

Record Slice := mkSlice {
  s_name : string;
  s_value : nat;
  s_color : string
}.

Record CategoryBar := mkBar {
  cb_name : string;
  cb_tasks : nat;
  cb_completed : nat;
  cb_color : string
}.

Definition priorityData (tasks : list Task) : list Slice :=
  [ mkSlice "High" (count (fun t => bool_decide (t_priority t = Some high)) tasks)
            "hsl(0, 84%, 60%)";
    mkSlice "Medium" (count (fun t => bool_decide (t_priority t = Some medium)) tasks)
            "hsl(38, 92%, 50%)";
    mkSlice "Low" (count (fun t => bool_decide (t_priority t = Some low)) tasks)
            "hsl(142, 76%, 36%)" ].

Definition statusData (tasks : list Task) : list Slice :=
  [ mkSlice "Pending" (count (fun t => bool_decide (t_status t = Some pending)) tasks)
            "hsl(243, 75%, 59%)";
    mkSlice "Completed" (count (fun t => bool_decide (t_status t = Some completed)) tasks)
            "hsl(142, 76%, 36%)" ].

Definition categoryData (categories : list Category) (tasks : list Task)
  : list CategoryBar :=
  map (fun cat =>
         mkBar (c_name cat)
               (count (fun t => bool_decide (t_category t = Some (c_name cat))) tasks)
               (count (fun t => bool_decide (t_category t = Some (c_name cat)) &&
                                bool_decide (t_status t = Some completed)) tasks)
               (c_color cat))
      categories.

(** SummaryCards: [activeTasks]. *)
Definition activeTasks (tasks : list Task) : nat :=
  count (fun t => bool_decide (t_status t = Some pending)) tasks.

(** TaskList: the two groups of the filtered list. *)
Definition pendingTasks (tasks : list Task) : list Task :=
  List.filter (fun t => bool_decide (t_status t = Some pending)) tasks.

Definition completedTasks (tasks : list Task) : list Task :=
  List.filter (fun t => bool_decide (t_status t = Some completed)) tasks.

End Analytics.

(** ** The roles: [useRoles] *)

Inductive AppRole := manager | team_leader | developer.

#[global] Instance AppRole_eq_dec : EqDecision AppRole.
Proof. solve_decision. Defined.

Record TeamMember := mkMember {
  m_id : string;
  m_email : string;
  m_displayName : string;
  m_role : option AppRole          (* None is null *)
}.

(** The requests of [useRoles] to the Remote Store. *)
Inductive RoleRequest :=
| ReqSelectRole (user_id : string)
| ReqSelectMembers
| ReqSelectRoles
| ReqSelectExisting (user_id : string)
| ReqUpdateRole (user_id : string) (role : AppRole)
| ReqInsertRole (user_id : string) (role : AppRole).

Module Roles.

(** The state of the hook, with what it has shown and sent so far (oldest
    first). *)
Record State := mkState {
  userRole : option AppRole;       (* None is null *)
  teamMembers : list TeamMember;
  rolesLoading : bool;             (* isLoading *)
  roleToasts : list Toast;
  roleRequests : list RoleRequest
}.

Definition initial : State := mkState None [] true [] [].

Definition setUserRole (r : option AppRole) (s : State) : State :=
  mkState r (teamMembers s) (rolesLoading s) (roleToasts s) (roleRequests s).

Definition setTeamMembers (ms : list TeamMember) (s : State) : State :=
  mkState (userRole s) ms (rolesLoading s) (roleToasts s) (roleRequests s).

Definition setIsLoading (b : bool) (s : State) : State :=
  mkState (userRole s) (teamMembers s) b (roleToasts s) (roleRequests s).

Definition toast (t : Toast) (s : State) : State :=
  mkState (userRole s) (teamMembers s) (rolesLoading s) (roleToasts s ++ [t])
          (roleRequests s).

Definition send (r : RoleRequest) (s : State) : State :=
  mkState (userRole s) (teamMembers s) (rolesLoading s) (roleToasts s)
          (roleRequests s ++ [r]).

(** The flags of a render, from the role in its state. *)
Definition canCreateTasks (s : State) : bool :=
  bool_decide (userRole s = Some manager) ||
  bool_decide (userRole s = Some team_leader).

Definition canAssignTasks (s : State) : bool :=
  bool_decide (userRole s = Some manager) ||
  bool_decide (userRole s = Some team_leader).

Definition canDeleteTasks (s : State) : bool :=
  bool_decide (userRole s = Some manager).

Definition canManageRoles (s : State) : bool :=
  bool_decide (userRole s = Some manager).

Definition isDeveloper (s : State) : bool :=
  bool_decide (userRole s = Some developer).

(** [fetchUserRole].  [remote] is the answer to the select of the user's
    role. *)
Definition fetchUserRole (user : option string) (remote : Outcome AppRole)
  (s : State) : State :=
  match user with
  | None => setIsLoading false (setUserRole None s)
  | Some id =>
      let s := send (ReqSelectRole id) s in
      let s :=
        match remote with
        | Failure _ => setUserRole (Some developer) s
        | Success role => setUserRole (Some role) s
        end in
      setIsLoading false s
  end.

(** [new Map(roles.map(r => [r.user_id, r.role]))]: a later row of a user
    replaces an earlier one. *)
Definition roleMap (roles : list (string * AppRole)) : gmap string AppRole :=
  foldl (fun m (r : string * AppRole) => <[ r.1 := r.2 ]> m) ∅ roles.

Definition memberOf (roles : gmap string AppRole) (p : string * Profile)
  : TeamMember :=
  {| m_id := p.1;
     m_email := if truthy (p_email p.2) then str (p_email p.2) else "";
     m_displayName :=
       str (orElse (orElse (p_display_name p.2) (beforeAt <$> p_email p.2))
                   (Some "Unknown"));
     m_role := roles !! p.1 |}.

(** [fetchTeamMembers], called by a render whose flags are those of [s].
    [profiles] and [roles] are the answers to the two selects; the second is
    not sent when the first fails. *)
Definition fetchTeamMembers (user : option string)
  (profiles : Outcome (list (string * Profile)))
  (roles : Outcome (list (string * AppRole))) (s : State) : State :=
  if negb (has user) || negb (canAssignTasks s) then setTeamMembers [] s else
  let s := send ReqSelectMembers s in
  match profiles with
  | Failure _ => s
  | Success profiles =>
      let s := send ReqSelectRoles s in
      match roles with
      | Failure _ => s
      | Success roles =>
          setTeamMembers (map (memberOf (roleMap roles)) profiles) s
      end
  end.

(** [role.replace('_', ' ')] *)
Definition roleLabel (role : AppRole) : string :=
  match role with
  | manager => "manager"
  | team_leader => "team leader"
  | developer => "developer"
  end.

(** [assignRole], called by a render whose flags are those of [s].
    [existing] tells whether the select found a role of [userId], [write] is
    the answer to the update or the insert, and [profiles] and [roles] are
    the answers to the refresh of the team members that a success starts. *)
Definition assignRole (user : option string) (userId : string) (role : AppRole)
  (existing : bool) (write : Outcome unit)
  (profiles : Outcome (list (string * Profile)))
  (roles : Outcome (list (string * AppRole))) (s : State) : bool * State :=
  if negb (has user) || negb (canManageRoles s) then
    (false,
     toast (mkToast "Permission denied" (Some "Only managers can assign roles")
              true None) s)
  else
    let s := send (ReqSelectExisting userId) s in
    let s :=
      send (if existing then ReqUpdateRole userId role
            else ReqInsertRole userId role) s in
    match write with
    | Failure message =>
        (false,
         toast (mkToast "Error assigning role" (Some message) true None) s)
    | Success _ =>
        let s :=
          toast (mkToast "Role assigned"
                   (Some ("User role updated to " ++ roleLabel role))
                   false None) s in
        (true, fetchTeamMembers user profiles roles s)
    end.

Definition getDevelopers (s : State) : list TeamMember :=
  List.filter (fun m => bool_decide (m_role m = Some developer)) (teamMembers s).

End Roles.

(** ** The task form: TaskForm.tsx *)

(** [interface ReminderConfig] *)
Record ReminderConfig := mkConfig {
  rc_type : ReminderType;
  rc_customDate : option Z;
  rc_customTime : option string
}.

Module Form.

(** What [handleSubmit] computes from the state of the form before it builds
    [taskData]: the trimmed title and description, the tags, the due date
    combined with the due time, the parsed estimate. *)
Record Fields := mkFields {
  fl_title : string;
  fl_description : string;
  fl_priority : Priority;
  fl_finalDueDate : option Z;
  fl_category : string;
  fl_tags : list string;
  fl_estimatedMinutes : option Z;
  fl_assignedTo : string;
  fl_reminderConfigs : list ReminderConfig
}.

(** The object [taskData] of [handleSubmit]. *)
Definition taskData (f : Fields) (reminders : list Reminder) : Task :=
  {| t_id := None;
     t_title := Some (fl_title f);
     t_description := Some (fl_description f);
     t_priority := Some (fl_priority f);
     t_status := None;
     t_dueDate := Some (fl_finalDueDate f);
     t_category := Some (fl_category f);
     t_tags := Some (fl_tags f);
     t_estimatedMinutes := Some (fl_estimatedMinutes f);
     t_createdAt := None;
     t_completedAt := None;
     t_reminders := Some reminders;
     t_assignedTo :=
       Some (if bool_decide (fl_assignedTo f = "") then None
             else Some (fl_assignedTo f));
     t_assignedToName := None |}.

Section Reminders.
(** [addDays] and [addHours] of date-fns, the instant
    [setMinutes(setHours(new Date(date), hours), minutes)] for the hours and
    minutes that a time of the form denotes, [format(date, 'HH:mm')], and the
    identifiers that [uuidv4()] gives, in the order of the calls. *)
Variable addDays : Z -> Z -> Z.
Variable addHours : Z -> Z -> Z.
Variable atTime : Z -> string -> Z.
Variable formatTime : Z -> string.
Variable uuidv4 : nat -> string.


Definition reminderTime (finalDueDate : Z) (config : ReminderConfig) : Z :=
  match rc_type config with
  | on_due => finalDueDate
  | one_day_before => addDays finalDueDate (-1)
  | one_hour_before => addHours finalDueDate (-1)
  | custom =>
      match rc_customDate config, rc_customTime config with
      | Some customDate, Some customTime =>
          if bool_decide (customTime = "") then finalDueDate
          else atTime customDate customTime
      | _, _ => finalDueDate
      end
  end.

Definition buildReminders (taskId : string) (finalDueDate : option Z)
  (reminderConfigs : list ReminderConfig) : list Reminder :=
  match finalDueDate with
  | None => []
  | Some due =>
      imap (fun i config =>
              mkReminder (uuidv4 i) taskId (reminderTime due config)
                         (rc_type config) false None)
           reminderConfigs
  end.

(** [handleSubmit] on a task that is being edited and whose identifier is the
    non-empty string [id]: [taskId] is that identifier, and the form calls
    [updateTask(editingTask.id, taskData)]. *)
Definition submitEdit (user : option string) (id : string) (f : Fields)
  (remote : Outcome unit) (w : World) : World :=
  if bool_decide (fl_title f = "") then w else
  let reminders :=
    buildReminders id (fl_finalDueDate f) (fl_reminderConfigs f) in
  (Sync.updateTask user id (taskData f reminders) remote w).2.
End Reminders.

End Form.

(** * The vocabulary of the properties *)

(** The identifiers of a task list, in order. *)
Definition ids (ts : list Task) : list (option string) := map t_id ts.

(** No entry of [ts] has the identifier [id]. *)
Definition absent (id : option string) (ts : list Task) : Prop :=
  Forall (fun t => t_id t <> id) ts.

(** The number of entries with a given identifier. *)
Definition countId (id : string) (ts : list Task) : nat :=
  length (List.filter (Store.idIs (Some id)) ts).

(** Whether every entry is an object of interface [Task]. *)
Definition allTasks (ts : list Task) : Prop :=
  Forall (fun t => isTask t = true) ts.

(** Data for the examples: a task of the cache, and a world whose cache
    holds the given tasks. *)
Definition exampleTask (id title : string) (status : TaskStatus)
  (completedAt : option Z) (reminders : list Reminder) : Task :=
  mkTask (Some id) (Some title) (Some "") (Some medium) (Some status)
         (Some None) (Some "Work") (Some []) (Some None) (Some 0%Z)
         (Some completedAt) (Some reminders) None None.

Definition worldWith (ts : list Task) : World :=
  withStore (Store.setTasks ts) initialWorld.

(** The patch [{ id: id }]. *)
Definition idPatch (id : string) : Task :=
  mkTask (Some id) None None None None None None None None None None None
         None None.

(** The patch [{ title: title }]. *)
Definition titlePatch (title : string) : Task :=
  mkTask None (Some title) None None None None None None None None None None
         None None.

(** The patch [{ status: status }]. *)
Definition statusPatch (status : TaskStatus) : Task :=
  mkTask None None None None (Some status) None None None None None None None
         None None.

Definition exampleRow (id title : string) : Row :=
  mkRow id title None medium pending None None None None 0%Z None None.

(** The name [addTask] gives the assignee of the inserted row. *)
Definition insertedName (row : Row) (profile : option Profile) : option string :=
  if truthy (row_assigned_to row) then Sync.assigneeNameOf profile else None.

(** The patch [{ status: status, completedAt: completedAt }]. *)
Definition completionPatch (status : TaskStatus) (completedAt : option Z) : Task :=
  mkTask None None None None (Some status) None None None None None
         (Some completedAt) None None None.

(** [completedAt] is a date, neither [null] nor absent. *)
Definition isCompletedAt (t : Task) : Prop :=
  exists d, t_completedAt t = Some (Some d).

(** The invariant of the data model: [completedAt] is non-null exactly when
    the status is [completed]. *)
Definition completionInv (t : Task) : Prop :=
  isCompletedAt t <-> t_status t = Some completed.

(** The same on a row of the Remote Store. *)
Definition rowCompletionInv (row : Row) : Prop :=
  (exists d, row_completed_at row = Some d) <-> row_status row = completed.

(** An update that sets [status] and [completedAt] together and
    consistently, or sets neither. *)
Definition consistentPatch (updates : Task) : Prop :=
  (t_status updates = None /\ t_completedAt updates = None) \/
  (exists st c, t_status updates = Some st /\ t_completedAt updates = Some c /\
                ((exists d, c = Some d) <-> st = completed)).

(** The reminders of an entry; none when the property is absent. *)
Definition remindersOf (t : Task) : list Reminder := default [] (t_reminders t).

Definition noReminders (ts : list Task) : Prop :=
  Forall (fun t => remindersOf t = []) ts.

(** Every entry has the [reminders] property. *)
Definition haveReminders (ts : list Task) : Prop :=
  Forall (fun t => t_reminders t <> None) ts.

(** The condition under which a reminder of a task is due at [now]. *)
Definition due (now : Z) (task : Task) (reminder : Reminder) : Prop :=
  t_status task <> Some completed /\
  r_triggered reminder = false /\
  (now - 60000 < r_time reminder <= now)%Z.

Definition dueb (now : Z) (reminder : Reminder) : bool :=
  negb (r_triggered reminder) && Notifications.inWindow now reminder.

(** The reminders of [ts] that are due at [now], each with its task, in the
    order of the cache. *)
Definition dueCalls (now : Z) (ts : list Task) : list (Task * Reminder) :=
  flat_map
    (fun task =>
       if bool_decide (t_status task = Some completed) then []
       else map (pair task) (List.filter (dueb now) (remindersOf task)))
    ts.

(** An untriggered reminder of the task [a], at a given time. *)
Definition reminderAt (id : string) (time : Z) : Reminder :=
  mkReminder id "a" time custom false None.

(** The identifiers of the Active Reminder entries, and the number of entries
    with a given identifier. *)
Definition activeIds (w : World) : list string := map a_id (activeReminders w).

Definition countActive (id : string) (w : World) : nat :=
  length (List.filter (fun a => bool_decide (a_id a = id)) (activeReminders w)).

(** A pending task with two reminders that fall in the same scan window. *)
Definition twoDue : Task :=
  exampleTask "a" "A" pending None
    [reminderAt "r1" 990000; reminderAt "r2" 995000].

(** The snooze timers of a reminder that are still pending. *)
Definition pendingFor (reminderId : string) (w : World)
  : list (positive * SnoozeAlert) :=
  List.filter (fun p => bool_decide (al_reminderId p.2 = reminderId))
              (timeouts w).

(** The invariant of the snooze timers: pending timers have distinct handles,
    all handed out already, and the pending timer of a reminder is the one
    that the map holds for it. *)
Definition timersOk (w : World) : Prop :=
  NoDup (map fst (timeouts w)) /\
  Forall (fun p : positive * SnoozeAlert =>
            snoozeIntervals w !! al_reminderId p.2 = Some p.1 /\
            (p.1 < nextTimer w)%positive)
         (timeouts w).

(** An Active Reminder entry after one snooze of [reminderId]. *)
Definition snoozed (reminderId : string) (r : ActiveReminder) : ActiveReminder :=
  if bool_decide (a_id r = reminderId)
  then mkActive (a_id r) (a_taskId r) (a_taskTitle r) (a_reminderTime r)
                (S (a_snoozeCount r))
  else r.

(** [dueDate] is [null] (or absent): the case in which the sort takes
    [Infinity] for the date. *)
Definition isNullDue (t : Task) : bool :=
  match t_dueDate t with
  | Some (Some _) => false
  | _ => true
  end.

(** Every task without due date comes after every task with one. *)
Definition nullsLast (l : list Task) : Prop :=
  forall i j a b,
    l !! i = Some a -> l !! j = Some b ->
    isNullDue a = true -> isNullDue b = false -> j < i.

(** Every task without due date comes before every task with one. *)
Definition nullsFirst (l : list Task) : Prop :=
  forall i j a b,
    l !! i = Some a -> l !! j = Some b ->
    isNullDue a = true -> isNullDue b = false -> i < j.

(** The same, by recursion on the list. *)
Fixpoint nullsLastR (l : list Task) : Prop :=
  match l with
  | [] => True
  | x :: l' => (isNullDue x = true -> Forall (fun t => isNullDue t = true) l') /\
               nullsLastR l'
  end.

Fixpoint nullsFirstR (l : list Task) : Prop :=
  match l with
  | [] => True
  | x :: l' => (isNullDue x = false -> Forall (fun t => isNullDue t = false) l') /\
               nullsFirstR l'
  end.

(** A store with the given tasks, sorted by due date in the given order. *)
Definition byDueDate (order : SortOrder) (ts : list Task) : Store.TaskStore :=
  Store.mkStore ts (mkFilters None None "all" "" by_dueDate order) false true.

Definition datedTask (id : string) (dueDate : option Z) : Task :=
  mkTask (Some id) (Some id) (Some "") (Some medium) (Some pending)
         (Some dueDate) (Some "Work") (Some []) (Some None) (Some 0%Z)
         (Some None) (Some []) None None.

(** ** Vocabulary of the further properties *)

(** The entry of the cache with a given identifier, as [find] returns it. *)
Definition lookupTask (id : string) (s : Store.TaskStore) : option Task :=
  List.find (Store.idIs (Some id)) (Store.tasks s).

(** An update that leaves the identifier of the entry with identifier [id]
    alone: it has no [id] property, or the same one. *)
Definition keepsId (id : option string) (updates : Task) : Prop :=
  t_id updates = None \/ t_id updates = id.

(** The object that [TaskForm] passes to [addTask]: the seven properties the
    form fills in are present. *)
Definition formShaped (taskData : Task) : bool :=
  has (t_title taskData) && has (t_description taskData) &&
  has (t_priority taskData) && has (t_dueDate taskData) &&
  has (t_category taskData) && has (t_tags taskData) &&
  has (t_estimatedMinutes taskData).

(** An update that, when the store takes it for a full [Task], is one. *)
Definition soundUpdate (updates : Task) : Prop :=
  Store.isFullTask updates = true -> isTask updates = true.

(** The row that the Remote Store returns carries the values of the insert
    payload, with no completion date. *)
Definition echoes (payload : InsertPayload) (row : Row) : Prop :=
  ins_title payload = Some (row_title row) /\
  row_description row = Some (ins_description payload) /\
  ins_priority payload = Some (row_priority row) /\
  row_status row = ins_status payload /\
  row_due_date row = ins_due_date payload /\
  row_category row = ins_category payload /\
  row_tags row = Some (ins_tags payload) /\
  row_estimated_minutes row = mjoin (ins_estimated_minutes payload) /\
  row_completed_at row = None /\
  row_assigned_to row = ins_assigned_to payload.

(** [assignedTo] as the form passes it: present, and [null] or a non-empty
    identifier. *)
Definition assigneeNormal (taskData : Task) : Prop :=
  exists a, t_assignedTo taskData = Some a /\ Sync.truthyOrNull a = a.

(** The form data of the examples. *)
Definition exampleForm (title : string) : Task :=
  mkTask None (Some title) (Some "") (Some medium) None (Some None)
         (Some "Work") (Some ["x"]) (Some None) None None None (Some None) None.

(** [triggerReminder] on each of the calls, in order. *)
Definition fireAll (calls : list (Task * Reminder)) (w : World) : World :=
  foldl (fun w (p : Task * Reminder) =>
           Notifications.worldOf (Notifications.triggerReminder p.1 p.2 w))
        w calls.

(** The toast and the desktop notification of one firing. *)
Definition firingToast (p : Task * Reminder) : Toast :=
  mkToast "⏰ Task Reminder" (t_title p.1) false (Some 10000%Z).

Definition firingNotification (p : Task * Reminder) : DesktopNotification :=
  mkNotification "⏰ Task Reminder"
    (str (t_title p.1) ++ " - Reminder triggered!") (t_id p.1).

(** The reminders of a task that a scan at [now] fires, in order. *)
Definition dueOf (now : Z) (task : Task) : list Reminder :=
  if bool_decide (t_status task = Some completed) then []
  else List.filter (dueb now) (remindersOf task).

(** The entry of a task after a scan at [now]: when reminders of the task
    fire, its reminders are those it had when the scan started with the flag
    of the last one that fired set, and of that one only. *)
Definition scanEntry (now : Z) (task : Task) : Task :=
  match last (dueOf now task) with
  | None => task
  | Some r =>
      Store.spread task
        (Notifications.remindersPatch
           (map (Notifications.markTriggered (r_id r)) (remindersOf task)))
  end.

(** What one firing does to an entry of the store. *)
Definition callPatch (p : Task * Reminder) (entry : Task) : Task :=
  match t_reminders p.1 with
  | Some rs =>
      Store.patchEntry (t_id p.1)
        (Notifications.remindersPatch
           (map (Notifications.markTriggered (r_id p.2)) rs))
        entry
  | None => entry
  end.

Definition applyCalls (calls : list (Task * Reminder)) (entry : Task) : Task :=
  foldl (fun e p => callPatch p e) entry calls.

(** The invariant of the snooze timers, with what the map itself satisfies:
    the handles it holds have been handed out, and no two reminders hold the
    same handle. *)
Definition timersWf (w : World) : Prop :=
  timersOk w /\
  (forall r h, snoozeIntervals w !! r = Some h -> (h < nextTimer w)%positive) /\
  (forall r1 r2 h,
      snoozeIntervals w !! r1 = Some h -> snoozeIntervals w !! r2 = Some h ->
      r1 = r2).

(** The timer [h] is not pending. *)
Definition notPending (h : positive) (w : World) : Prop :=
  Forall (fun p : positive * SnoozeAlert => p.1 <> h) (timeouts w).

(** The steps of the application: the operations of the two hooks, each with
    what the outside world answers or supplies, and the browser running the
    callback of a timer. *)
Inductive Op :=
| OpFetch (user : option string)
          (remote : Outcome (list Row * list (string * Profile)))
| OpAddTask (user : option string) (uuid : string) (now : Z) (taskData : Task)
            (remote : Outcome (Row * option Profile))
| OpUpdateTask (user : option string) (id : string) (updates : Task)
               (remote : Outcome unit)
| OpDeleteTask (user : option string) (id : string) (remote : Outcome unit)
| OpToggle (user : option string) (now : Z) (id : string) (remote : Outcome unit)
| OpScan (now : Z)
| OpSetup (browser : option NotificationPermission) (now : Z)
| OpCleanup
| OpSnooze (reminderId : string)
| OpDismiss (reminderId : string)
| OpElapse (h : positive)
| OpRequestPermission (browser : option (Outcome NotificationPermission)).

Definition run (op : Op) (w : World) : World :=
  match op with
  | OpFetch user remote => Sync.fetchTasks user remote w
  | OpAddTask user uuid now taskData remote =>
      (Sync.addTask user uuid now taskData remote w).2
  | OpUpdateTask user id updates remote =>
      (Sync.updateTask user id updates remote w).2
  | OpDeleteTask user id remote => (Sync.deleteTask user id remote w).2
  | OpToggle user now id remote => (Sync.toggleTaskStatus user now id remote w).2
  | OpScan now => Notifications.worldOf (Notifications.scan now w)
  | OpSetup browser now =>
      Notifications.worldOf (Lifecycle.effectSetup browser now w)
  | OpCleanup => Notifications.cleanup w
  | OpSnooze reminderId => Notifications.snoozeReminder reminderId w
  | OpDismiss reminderId => Notifications.dismissReminder reminderId w
  | OpElapse h => Notifications.elapse h w
  | OpRequestPermission browser => (Lifecycle.requestPermission browser w).2
  end.

(** The states the application can be in. *)
Inductive reachable : World -> Prop :=
| reachable_initial : reachable initialWorld
| reachable_step op w : reachable w -> reachable (run op w).

(** An update that carries reminders, for the examples. *)
Definition exampleReminders : Task :=
  Notifications.remindersPatch [reminderAt "r1" 990000].

(** Scans one after the other, at the given times. *)
Definition scans (nows : list Z) (w : World) : World :=
  foldl (fun w now => Notifications.worldOf (Notifications.scan now w)) w nows.

(** The key by which a sort orders the tasks; [title] has none here. *)
Definition sortKey (by_ : SortBy) (t : Task) : Num :=
  match by_ with
  | by_dueDate => View.dueKey t
  | by_priority => View.priorityOrder t
  | by_createdAt => View.createdKey t
  | by_title => NaN
  end.

(** A key that orders: a number or [Infinity]. *)
Definition isKey (k : Num) : bool :=
  match k with
  | Fin _ | PInf => true
  | _ => false
  end.

(** The tasks that a sort by [by_] can order: each has its key. *)
Definition sortable (by_ : SortBy) (ts : list Task) : Prop :=
  Forall (fun t => isKey (sortKey by_ t) = true) ts.

(** [a] is strictly greater than [b]. *)
Definition keyGt (a b : Num) : bool := Num.isPos (Num.sub a b).

(** Whether the comparison function puts its second argument first. *)
Definition putsSecondFirst (f : TaskFilters) (a b : Task) : bool :=
  match f_sortBy f, f_sortOrder f with
  | by_createdAt, asc | by_dueDate, desc | by_priority, desc =>
      keyGt (sortKey (f_sortBy f) b) (sortKey (f_sortBy f) a)
  | _, _ => keyGt (sortKey (f_sortBy f) a) (sortKey (f_sortBy f) b)
  end.

(** A list with no pair out of order. *)
Definition inOrder (f : TaskFilters) (l : list Task) : Prop :=
  forall i j a b,
    i < j -> l !! i = Some a -> l !! j = Some b -> putsSecondFirst f a b = false.

#[global] Instance Num_eq_dec : EqDecision Num.
Proof. solve_decision. Defined.

(** The rank of a priority in [priorityOrder]. *)
Definition priorityRank (p : Priority) : Z :=
  match p with high => 0 | medium => 1 | low => 2 end.

(** What the selected order promises of a task [a] that comes before a task
    [b]. *)
Definition orderedPair (f : TaskFilters) (a b : Task) : Prop :=
  match f_sortBy f, f_sortOrder f with
  | by_dueDate, asc =>
      forall da db, t_dueDate a = Some (Some da) -> t_dueDate b = Some (Some db) ->
                    (da <= db)%Z
  | by_dueDate, desc =>
      forall da db, t_dueDate a = Some (Some da) -> t_dueDate b = Some (Some db) ->
                    (db <= da)%Z
  | by_priority, asc =>
      forall pa pb, t_priority a = Some pa -> t_priority b = Some pb ->
                    (priorityRank pa <= priorityRank pb)%Z
  | by_priority, desc =>
      forall pa pb, t_priority a = Some pa -> t_priority b = Some pb ->
                    (priorityRank pb <= priorityRank pa)%Z
  | by_createdAt, asc =>
      forall ca cb, t_createdAt a = Some ca -> t_createdAt b = Some cb ->
                    (cb <= ca)%Z
  | by_createdAt, desc =>
      forall ca cb, t_createdAt a = Some ca -> t_createdAt b = Some cb ->
                    (ca <= cb)%Z
  | by_title, _ => True
  end.

(** A task passes the filters on priority, status and category. *)
Definition passesb (f : TaskFilters) (t : Task) : bool :=
  match f_priority f with
  | Some p => bool_decide (t_priority t = Some p)
  | None => true
  end &&
  match f_status f with
  | Some st => bool_decide (t_status t = Some st)
  | None => true
  end &&
  (bool_decide (f_category f = "all") ||
   bool_decide (t_category t = Some (f_category f))).

(** A store with given tasks and filters. *)
Definition storeWith (f : TaskFilters) (ts : list Task) : Store.TaskStore :=
  Store.mkStore ts f false true.

Definition createdTask (id : string) (createdAt : Z) (priority : Priority) : Task :=
  mkTask (Some id) (Some id) (Some "") (Some priority) (Some pending)
         (Some None) (Some "Work") (Some []) (Some None) (Some createdAt)
         (Some None) (Some []) None None.

(** ** Vocabulary of the summaries and the charts *)

(** What the date views need of the calendar of the engine: an instant of
    the same calendar day as [n] is not before the midnight that starts the
    day of [n]. *)
Definition calendar (toDateString : Z -> string) (startOfDay : Z -> Z) : Prop :=
  forall d n, toDateString d = toDateString n -> (startOfDay n <= d)%Z.

(** A calendar to run the views on: the days of UTC. *)
Definition utcDateString (d : Z) : string := pretty (d / 86400000)%Z.
Definition utcStartOfDay (n : Z) : Z := (n / 86400000 * 86400000)%Z.

(** A task that is due, and was completed when [completedAt] is a date. *)
Definition summaryTask (id : string) (status : TaskStatus) (dueDate : Z)
  (completedAt : option Z) : Task :=
  mkTask (Some id) (Some id) (Some "") (Some medium) (Some status)
         (Some (Some dueDate)) (Some "Work") (Some []) (Some None) (Some 0%Z)
         (Some completedAt) (Some []) None None.

(** The task has one of the categories. *)
Definition categorized (categories : list Category) (t : Task) : Prop :=
  exists cat, In cat categories /\ t_category t = Some (c_name cat).

(** [1] when the task has the category, [0] otherwise. *)
Definition inCategory (t : Task) (cat : Category) : nat :=
  if bool_decide (t_category t = Some (c_name cat)) then 1 else 0.

Definition chartTask (id : string) (priority : Priority) (status : TaskStatus)
  (category : string) : Task :=
  mkTask (Some id) (Some id) (Some "") (Some priority) (Some status)
         (Some None) (Some category) (Some []) (Some None) (Some 0%Z)
         (Some None) (Some []) None None.

(** ** Vocabulary of the roles *)

(** The requests that change the roles of the Remote Store. *)
Definition isRoleWrite (r : RoleRequest) : bool :=
  match r with
  | ReqUpdateRole _ _ | ReqInsertRole _ _ => true
  | _ => false
  end.

Definition roleWrites (s : Roles.State) : list RoleRequest :=
  List.filter isRoleWrite (Roles.roleRequests s).

(** The answer of the Remote Store is the role [manager]. *)
Definition saysManager (remote : Outcome AppRole) : Prop :=
  remote = Success manager.

Definition saysLeader (remote : Outcome AppRole) : Prop :=
  remote = Success team_leader.

(** A state of [useRoles] whose user has the given role. *)
Definition rolesOf (r : AppRole) : Roles.State :=
  Roles.mkState (Some r) [] false [] [].

Definition deniedToast : Toast :=
  mkToast "Permission denied" (Some "Only managers can assign roles") true None.

Definition exampleProfiles : list (string * Profile) :=
  [("u1", mkProfile (Some "Ann") (Some "ann@x.org"));
   ("u2", mkProfile None (Some "bob@x.org"));
   ("u3", mkProfile (Some "") None)].

Definition exampleRoles : list (string * AppRole) :=
  [("u2", developer); ("u1", team_leader)].

(** ** Vocabulary of the task form *)


(** Functions to run the form on: days and hours of fixed length, a custom
    time that is the instant of its date, numbered identifiers. *)
Definition plusDays (d n : Z) : Z := (d + n * 86400000)%Z.
Definition plusHours (d n : Z) : Z := (d + n * 3600000)%Z.
Definition sameInstant (d : Z) (time : string) : Z := d.
Definition numbered (i : nat) : string := pretty i.

Definition exampleFields (title : string) (due : option Z)
  (configs : list ReminderConfig) : Form.Fields :=
  Form.mkFields title "" medium due "Work" [] None "" configs.

(** * Properties *)

(** ** The Local Task Cache *)

Section CacheLemmas.
Import Store.

Lemma idIs_true id t : idIs id t = true <-> t_id t = id.
Proof. unfold idIs. apply bool_decide_eq_true. Qed.

Lemma idIs_false id t : idIs id t = false <-> t_id t <> id.
Proof. unfold idIs. apply bool_decide_eq_false. Qed.

Lemma absent_notin id ts : absent id ts <-> id ∉ ids ts.
Proof.
  unfold absent, ids. rewrite list_elem_of_In, List.Forall_forall, in_map_iff.
  split.
  - intros H (t & Ht & Hin). exact (H t Hin Ht).
  - intros H t Hin Ht. apply H. exists t. auto.
Qed.

Lemma patch_absent id updates ts :
  absent id ts -> map (patchEntry id updates) ts = ts.
Proof.
  induction 1 as [|t ts Ht _ IH]; simpl; [reflexivity|].
  unfold patchEntry at 1. apply idIs_false in Ht. rewrite Ht. now rewrite IH.
Qed.

Lemma filter_absent id ts :
  absent id ts -> List.filter (fun t => negb (idIs id t)) ts = ts.
Proof.
  induction 1 as [|t ts Ht _ IH]; simpl; [reflexivity|].
  apply idIs_false in Ht. rewrite Ht. simpl. now rewrite IH.
Qed.

Lemma find_absent id ts : absent id ts -> List.find (idIs id) ts = None.
Proof.
  induction 1 as [|t ts Ht _ IH]; simpl; [reflexivity|].
  apply idIs_false in Ht. now rewrite Ht.
Qed.

Lemma find_idIs id ts t :
  List.find (idIs id) ts = Some t -> In t ts /\ t_id t = id.
Proof.
  intros H. apply find_some in H. destruct H as [Hin Hid].
  split; [assumption | now apply idIs_true].
Qed.

Lemma find_none_absent id ts : List.find (idIs id) ts = None -> absent id ts.
Proof.
  intros H. apply List.Forall_forall. intros t Hin.
  apply idIs_false. exact (find_none _ _ H t Hin).
Qed.

(** What an optimistic patch leaves of the identifier of the entry. *)
Lemma patch_keeps_id id updates t :
  t_id t = Some id ->
  t_id updates = None \/ t_id updates = Some id ->
  t_id (patchEntry (Some id) updates t) = Some id.
Proof.
  intros Ht Hu. unfold patchEntry. apply idIs_true in Ht as Hb. rewrite Hb.
  destruct (isFullTask updates) eqn:Hfull.
  - destruct Hu as [Hu|Hu]; [|assumption].
    unfold isFullTask in Hfull. rewrite Hu in Hfull. discriminate.
  - simpl. destruct Hu as [Hu|Hu]; rewrite Hu; simpl; congruence.
Qed.

(** Patching an entry and then patching it with the snapshot taken before
    gives the list back, when identifiers are unique. *)
Lemma patch_rollback id updates original ts :
  NoDup (ids ts) ->
  List.find (idIs (Some id)) ts = Some original ->
  isFullTask original = true ->
  t_id updates = None \/ t_id updates = Some id ->
  map (patchEntry (Some id) original) (map (patchEntry (Some id) updates) ts)
  = ts.
Proof.
  intros Hnd Hfind Hfull Hu.
  induction ts as [|t ts IH]; simpl in *; [discriminate|].
  inversion Hnd as [|? ? Hnotin Hnd']; subst.
  destruct (idIs (Some id) t) eqn:Hid.
  - injection Hfind as ->. apply idIs_true in Hid.
    assert (Habs : absent (Some id) ts).
    { apply absent_notin. rewrite <- Hid. exact Hnotin. }
    rewrite (patch_absent _ updates ts Habs), (patch_absent _ original ts Habs).
    f_equal. unfold patchEntry at 1.
    assert (Hk := patch_keeps_id id updates original Hid Hu).
    apply idIs_true in Hk. now rewrite Hk, Hfull.
  - rewrite (IH Hnd' Hfind). f_equal.
    unfold patchEntry. rewrite Hid. simpl. now rewrite Hid.
Qed.

(** Removing an entry and putting the captured entry back in front gives
    the same tasks, in another order. *)
Lemma delete_reinsert id original ts :
  NoDup (ids ts) ->
  List.find (idIs (Some id)) ts = Some original ->
  Permutation (original :: List.filter (fun t => negb (idIs (Some id) t)) ts) ts.
Proof.
  intros Hnd Hfind.
  induction ts as [|t ts IH]; simpl in *; [discriminate|].
  inversion Hnd as [|? ? Hnotin Hnd']; subst.
  destruct (idIs (Some id) t) eqn:Hid; simpl.
  - injection Hfind as ->. apply idIs_true in Hid.
    rewrite filter_absent; [reflexivity|].
    apply absent_notin. rewrite <- Hid. exact Hnotin.
  - etransitivity; [apply perm_swap|].
    apply perm_skip. now apply IH.
Qed.

Lemma countId_absent id ts : absent (Some id) ts -> countId id ts = 0.
Proof.
  unfold countId. induction 1 as [|t ts Ht _ IH]; simpl; [reflexivity|].
  apply idIs_false in Ht. now rewrite Ht.
Qed.
End CacheLemmas.

(** C9: [updateTaskOptimistic] with an identifier that no entry of the cache
    has returns the store unchanged, and so does [deleteTaskOptimistic]; both
    are total functions, so no error is raised. *)
Theorem C9_absent_id_is_noop (id : string) (updates : Task) (s : Store.TaskStore) :
  absent (Some id) (Store.tasks s) ->
  Store.updateTaskOptimistic (Some id) updates s = s /\
  Store.deleteTaskOptimistic id s = s.
Proof.
  intros Habs. destruct s as [ts f l i].
  unfold Store.updateTaskOptimistic, Store.deleteTaskOptimistic, Store.withTasks.
  simpl in *. now rewrite patch_absent, filter_absent.
Qed.

Example C9_witness :
  Store.updateTaskOptimistic (Some "zz") (titlePatch "B")
    (store (worldWith [exampleTask "a" "A" pending None []]))
  = store (worldWith [exampleTask "a" "A" pending None []]) /\
  Store.deleteTaskOptimistic "zz"
    (store (worldWith [exampleTask "a" "A" pending None []]))
  = store (worldWith [exampleTask "a" "A" pending None []]).
Proof.
  apply (C9_absent_id_is_noop "zz" (titlePatch "B")).
  repeat constructor. simpl. discriminate.
Defined.

(** ** The Sync Coordinator *)

Section SyncLemmas.
Import Store Sync.

Lemma isTask_isFullTask t : isTask t = true -> isFullTask t = true.
Proof.
  unfold isTask, isFullTask.
  destruct (t_id t), (t_title t), (t_createdAt t); simpl;
    rewrite ?andb_false_r; auto; try discriminate.
  all: repeat (rewrite ?andb_false_l, ?andb_false_r; simpl); auto.
Qed.

Lemma dbToTask_isTask row name : isTask (dbToTask row name) = true.
Proof. reflexivity. Qed.

Lemma find_allTasks id ts t :
  allTasks ts -> List.find (idIs id) ts = Some t -> isFullTask t = true.
Proof.
  intros Hall Hfind. apply isTask_isFullTask.
  apply find_some in Hfind. destruct Hfind as [Hin _].
  unfold allTasks in Hall. rewrite List.Forall_forall in Hall. auto.
Qed.

(** The store after each outcome of each operation. *)
Lemma addTask_success u uuid now taskData row profile w :
  let r := addTask (Some u) uuid now taskData (Success (row, profile)) w in
  let realTask := dbToTask row (insertedName row profile) in
  r.1 = Some realTask /\
  store r.2 = updateTaskOptimistic (Some uuid) realTask
                (addTaskOptimistic (optimisticTask uuid now taskData) (store w)).
Proof.
  unfold addTask, insertedName.
  destruct (truthy (row_assigned_to row)); split; reflexivity.
Qed.

Lemma addTask_failure u uuid now taskData message w :
  store (addTask (Some u) uuid now taskData (Failure message) w).2
  = deleteTaskOptimistic uuid
      (addTaskOptimistic (optimisticTask uuid now taskData) (store w)).
Proof. reflexivity. Qed.

Lemma updateTask_success u id updates x w original :
  findTask id w = Some original ->
  store (updateTask (Some u) id updates (Success x) w).2
  = updateTaskOptimistic (Some id) updates (store w).
Proof. intros H. unfold updateTask. now rewrite H. Qed.

Lemma updateTask_failure u id updates message w original :
  findTask id w = Some original ->
  store (updateTask (Some u) id updates (Failure message) w).2
  = updateTaskOptimistic (Some id) original
      (updateTaskOptimistic (Some id) updates (store w)).
Proof. intros H. unfold updateTask. now rewrite H. Qed.

Lemma updateTask_not_found user id updates remote w :
  findTask id w = None -> updateTask user id updates remote w = (false, w).
Proof. intros H. unfold updateTask. rewrite H. now destruct user. Qed.

Lemma reconcile_entry uuid realTask optimistic ts :
  absent (Some uuid) ts ->
  t_id optimistic = Some uuid ->
  isFullTask realTask = true ->
  map (patchEntry (Some uuid) realTask) (optimistic :: ts) = realTask :: ts.
Proof.
  intros Habs Hid Hfull. simpl. rewrite patch_absent by assumption. f_equal.
  unfold patchEntry. apply idIs_true in Hid. now rewrite Hid, Hfull.
Qed.
End SyncLemmas.

(** C1 (amended): when the Remote Store request fails, [addTask] leaves the
    store as it was (the temporary identifier being fresh), [updateTask] leaves
    the store as it was provided the update does not give the entry another
    identifier, and [deleteTask] leaves the same tasks, the captured entry
    being put back at the front.  The identifiers of the cache are unique and
    its entries are objects of interface [Task]. *)
Theorem C1_failure_rolls_back (user : option string) (message : string) (w : World) :
  NoDup (ids (Store.tasks (store w))) ->
  allTasks (Store.tasks (store w)) ->
  (forall uuid now taskData,
      absent (Some uuid) (Store.tasks (store w)) ->
      store (Sync.addTask user uuid now taskData (Failure message) w).2 = store w) /\
  (forall id updates,
      t_id updates = None \/ t_id updates = Some id ->
      store (Sync.updateTask user id updates (Failure message) w).2 = store w) /\
  (forall id,
      let after := Store.tasks (store (Sync.deleteTask user id (Failure message) w).2) in
      Permutation after (Store.tasks (store w)) /\
      (forall original, user <> None -> Sync.findTask id w = Some original ->
         after = original ::
                 List.filter (fun t => negb (Store.idIs (Some id) t))
                             (Store.tasks (store w)))).
Proof.
  intros Hnd Hall. destruct w as [[ts f l i] act si tm nt pm tos ns rq fr].
  simpl in *. repeat split.
  - intros uuid now taskData Hfresh. unfold Sync.addTask.
    destruct user as [u|]; [|reflexivity]. simpl.
    unfold Store.deleteTaskOptimistic, Store.addTaskOptimistic, Store.withTasks.
    simpl. unfold Store.idIs at 1. simpl.
    rewrite bool_decide_eq_true_2 by reflexivity. simpl.
    now rewrite filter_absent.
  - intros id updates Hu. unfold Sync.updateTask, Sync.findTask.
    destruct user as [u|]; [|reflexivity]. simpl.
    destruct (List.find (Store.idIs (Some id)) ts) as [original|] eqn:Hfind;
      [|reflexivity].
    simpl. unfold Store.updateTaskOptimistic, Store.withTasks. simpl.
    rewrite patch_rollback; eauto using find_allTasks.
  - unfold Sync.deleteTask, Sync.findTask.
    destruct user as [u|]; [|reflexivity]. simpl.
    unfold Store.deleteTaskOptimistic, Store.addTaskOptimistic, Store.withTasks.
    destruct (List.find (Store.idIs (Some id)) ts) as [original|] eqn:Hfind; simpl.
    + now apply delete_reinsert.
    + rewrite filter_absent; [reflexivity|]. now apply find_none_absent.
  - intros original Huser. unfold Sync.deleteTask, Sync.findTask.
    destruct user as [u|]; [|congruence]. simpl.
    intros ->. reflexivity.
Qed.

Example C1_witness :
  let w := worldWith [exampleTask "a" "A" pending None [];
                      exampleTask "b" "B" pending None []] in
  (NoDup (ids (Store.tasks (store w))) /\ allTasks (Store.tasks (store w))) /\
  store (Sync.updateTask (Some "u") "a" (titlePatch "B") (Failure "offline") w).2
  = store w.
Proof.
  intros w.
  assert (Hnd : NoDup (ids (Store.tasks (store w)))).
  { apply (bool_decide_unpack _). vm_compute. exact I. }
  assert (Hall : allTasks (Store.tasks (store w))).
  { repeat constructor. }
  split; [split; assumption|].
  apply (C1_failure_rolls_back (Some "u") "offline" w Hnd Hall).
  left. reflexivity.
Defined.

(** C1, as stated, fails for an update that carries another identifier: the
    entry is renamed by the optimistic patch, and the rollback, which looks
    for the old identifier, finds nothing to restore. *)
Example C1_counterexample :
  let taskA := exampleTask "a" "A" pending None [] in
  let w := worldWith [taskA] in
  let after := (Sync.updateTask (Some "u") "a" (idPatch "b") (Failure "offline") w).2 in
  NoDup (ids (Store.tasks (store w))) /\
  allTasks (Store.tasks (store w)) /\
  Store.tasks (store after) = [exampleTask "b" "A" pending None []] /\
  Store.tasks (store after) <> Store.tasks (store w).
Proof.
  intros taskA w after. repeat split.
  - apply (bool_decide_unpack _). vm_compute. exact I.
  - repeat constructor.
  - vm_compute. discriminate.
Qed.

(** C2: a successful [addTask] replaces the optimistic entry by the record of
    the server: the cache is the former cache with that record in front, it
    holds one task with the identifier of the server and none with the
    temporary one.  The record carries the values of the returned row: its
    identifier, title, priority, status, dates and estimate as they are, the
    description or the empty text, the category or [Personal], the tags or
    none, the assignee or [null], and no reminders; it has no assignee name
    when the row is not assigned, and the display name of the profile when
    the row is assigned and the profile has one.  The temporary identifier is
    fresh, and the identifier the server assigns is neither in the cache nor
    the temporary one. *)
Theorem C2_insert_reconciliation (u uuid : string) (now : Z) (taskData : Task)
  (row : Row) (profile : option Profile) (w : World) :
  absent (Some uuid) (Store.tasks (store w)) ->
  absent (Some (row_id row)) (Store.tasks (store w)) ->
  row_id row <> uuid ->
  let r := Sync.addTask (Some u) uuid now taskData (Success (row, profile)) w in
  exists realTask,
    r.1 = Some realTask /\
    t_id realTask = Some (row_id row) /\
    Store.tasks (store r.2) = realTask :: Store.tasks (store w) /\
    countId (row_id row) (Store.tasks (store r.2)) = 1 /\
    countId uuid (Store.tasks (store r.2)) = 0 /\
    t_title realTask = Some (row_title row) /\
    t_description realTask
    = Some (match row_description row with Some d => d | None => "" end) /\
    t_priority realTask = Some (row_priority row) /\
    t_status realTask = Some (row_status row) /\
    t_dueDate realTask = Some (row_due_date row) /\
    t_category realTask
    = Some (match row_category row with
            | Some c => if bool_decide (c = "") then "Personal" else c
            | None => "Personal"
            end) /\
    t_tags realTask
    = Some (match row_tags row with Some tags => tags | None => [] end) /\
    t_estimatedMinutes realTask = Some (row_estimated_minutes row) /\
    t_createdAt realTask = Some (row_created_at row) /\
    t_completedAt realTask = Some (row_completed_at row) /\
    t_reminders realTask = Some [] /\
    t_assignedTo realTask
    = Some (match row_assigned_to row with
            | Some a => if bool_decide (a = "") then None else Some a
            | None => None
            end) /\
    (row_assigned_to row = None \/ row_assigned_to row = Some "" ->
     t_assignedToName realTask = None) /\
    (forall a p name,
        row_assigned_to row = Some a -> a <> "" ->
        profile = Some p -> p_display_name p = Some name -> name <> "" ->
        t_assignedToName realTask = Some name).
Proof.
  intros Hfresh Hsrv Hne r.
  destruct (addTask_success u uuid now taskData row profile w) as [Hret Hstore].
  fold r in Hret, Hstore.
  exists (Sync.dbToTask row (insertedName row profile)).
  assert (Hts : Store.tasks (store r.2)
                = Sync.dbToTask row (insertedName row profile)
                  :: Store.tasks (store w)).
  { rewrite Hstore. unfold Store.updateTaskOptimistic, Store.addTaskOptimistic.
    unfold Store.withTasks at 1. cbn [Store.tasks].
    unfold Store.withTasks. cbn [Store.tasks].
    now apply reconcile_entry. }
  rewrite Hts.
  split; [assumption|]. split; [reflexivity|]. split; [reflexivity|].
  split.
  { unfold countId. simpl. unfold Store.idIs at 1. simpl.
    rewrite bool_decide_eq_true_2 by reflexivity. simpl.
    f_equal. now apply countId_absent. }
  split.
  { unfold countId. simpl. unfold Store.idIs at 1. simpl.
    rewrite bool_decide_eq_false_2 by congruence.
    now apply countId_absent. }
  split; [reflexivity|].
  split.
  { simpl. unfold Sync.textOr, truthy, str.
    destruct (row_description row) as [d|]; [|reflexivity]. simpl.
    destruct (bool_decide (d = "")) eqn:Hd; [|reflexivity].
    apply bool_decide_eq_true in Hd. now subst d. }
  do 3 (split; [reflexivity|]).
  split.
  { simpl. unfold Sync.textOr, truthy, str.
    destruct (row_category row) as [c|]; [|reflexivity]. simpl.
    now destruct (bool_decide (c = "")). }
  split; [simpl; now destruct (row_tags row)|].
  do 4 (split; [reflexivity|]).
  split.
  { simpl. unfold Sync.truthyOrNull, truthy.
    destruct (row_assigned_to row) as [a|]; [|reflexivity]. simpl.
    now destruct (bool_decide (a = "")). }
  split.
  - intros [H | H]; simpl; unfold insertedName; now rewrite H.
  - intros a p name Ha Hane -> Hname Hnne. simpl. unfold insertedName.
    rewrite Ha. unfold truthy at 1.
    rewrite bool_decide_eq_false_2 by assumption. simpl.
    unfold orElse, truthy. rewrite Hname.
    now rewrite bool_decide_eq_false_2 by assumption.
Qed.

Example C2_witness :
  let w := worldWith [exampleTask "a" "A" pending None []] in
  let r := Sync.addTask (Some "u") "tmp1" 5%Z (titlePatch "N")
             (Success (exampleRow "srv1" "N", None)) w in
  exists realTask,
    r.1 = Some realTask /\
    t_id realTask = Some "srv1" /\
    Store.tasks (store r.2) = realTask :: Store.tasks (store w) /\
    countId "srv1" (Store.tasks (store r.2)) = 1 /\
    countId "tmp1" (Store.tasks (store r.2)) = 0 /\
    t_title realTask = Some "N" /\
    t_category realTask = Some "Personal" /\
    t_reminders realTask = Some [].
Proof.
  intros w r.
  destruct (C2_insert_reconciliation "u" "tmp1" 5%Z (titlePatch "N")
              (exampleRow "srv1" "N") None w)
    as (realTask & H1 & H2 & H3 & H4 & H5 & H6 & _ & _ & _ & _ & H11 & _ & _
        & _ & _ & H16 & _).
  - repeat constructor. simpl. discriminate.
  - repeat constructor. simpl. discriminate.
  - simpl. discriminate.
  - exists realTask. repeat split; assumption.
Defined.

Section ToggleLemmas.
Import Store Sync.

Lemma togglePatch_pending now task :
  t_status task = Some pending ->
  togglePatch now task = completionPatch completed (Some now).
Proof. intros H. unfold togglePatch. now rewrite H. Qed.

Lemma togglePatch_other now task :
  t_status task <> Some pending ->
  togglePatch now task = completionPatch pending None.
Proof.
  intros H. unfold togglePatch.
  now rewrite bool_decide_eq_false_2 by assumption.
Qed.

(** A patch without identifier leaves the identifiers alone, and every
    entry with the patched identifier gets the status and the completion
    date of the patch. *)
Lemma completionPatch_entries id st c ts t :
  In t (map (patchEntry (Some id) (completionPatch st c)) ts) ->
  t_id t = Some id ->
  t_status t = Some st /\ t_completedAt t = Some c.
Proof.
  intros Hin Hid. apply in_map_iff in Hin. destruct Hin as (t0 & <- & _).
  unfold patchEntry in *. destruct (idIs (Some id) t0) eqn:Hb.
  - simpl. auto.
  - apply idIs_false in Hb. contradiction.
Qed.
End ToggleLemmas.

(** C6: [toggleTaskStatus] is one call of [updateTask], whose argument carries
    the new status and the completion date together: for a pending task
    [completed] and the current time, otherwise [pending] and [null].  One
    update request is sent; it carries the two columns [status] and
    [completed_at] with these values and no other column, and the one patch
    of the store sets both properties of the entry. *)
Theorem C6_toggle_is_one_update (u : string) (now : Z) (id : string)
  (remote : Outcome unit) (w : World) (task : Task) :
  Sync.findTask id w = Some task ->
  let newStatus :=
    if bool_decide (t_status task = Some pending) then completed else pending in
  let completedAt :=
    if bool_decide (t_status task = Some pending) then Some now else None in
  let patch := completionPatch newStatus completedAt in
  Sync.toggleTaskStatus (Some u) now id remote w
  = Sync.updateTask (Some u) id patch remote w /\
  requests (Sync.toggleTaskStatus (Some u) now id remote w).2
  = (requests w ++
     [ReqUpdate id
        {| db_title := None; db_description := None; db_priority := None;
           db_status := Some newStatus;
           db_due_date := None; db_category := None; db_tags := None;
           db_estimated_minutes := None;
           db_completed_at := Some completedAt;
           db_assigned_to := None |}])%list /\
  (forall x,
      remote = Success x ->
      let after := store (Sync.toggleTaskStatus (Some u) now id remote w).2 in
      after = Store.updateTaskOptimistic (Some id) patch (store w) /\
      forall t, In t (Store.tasks after) -> t_id t = Some id ->
                t_status t = Some newStatus /\
                t_completedAt t = Some completedAt).
Proof.
  intros Hfind newStatus completedAt patch.
  assert (Hpatch : Sync.togglePatch now task = patch).
  { subst patch newStatus completedAt.
    destruct (bool_decide (t_status task = Some pending)) eqn:Hb.
    - apply bool_decide_eq_true in Hb. now apply togglePatch_pending.
    - apply bool_decide_eq_false in Hb. now apply togglePatch_other. }
  assert (Htoggle : Sync.toggleTaskStatus (Some u) now id remote w
                    = Sync.updateTask (Some u) id patch remote w).
  { unfold Sync.toggleTaskStatus. now rewrite Hfind, Hpatch. }
  rewrite Htoggle. split; [reflexivity|]. split.
  - unfold Sync.updateTask. rewrite Hfind. destruct remote; reflexivity.
  - intros x -> after. subst after.
    rewrite (updateTask_success u id patch x w task Hfind).
    split; [reflexivity|]. intros t Hin Hid.
    unfold Store.updateTaskOptimistic, Store.withTasks in Hin. simpl in Hin.
    subst patch. eapply completionPatch_entries; eauto.
Qed.

Example C6_witness :
  let w := worldWith [exampleTask "a" "A" pending None []] in
  let r1 := Sync.toggleTaskStatus (Some "u") 42%Z "a" (Success tt) w in
  let r2 := Sync.toggleTaskStatus (Some "u") 50%Z "a" (Success tt) r1.2 in
  (Store.tasks (store r1.2) = [exampleTask "a" "A" completed (Some 42%Z) []] /\
   Store.tasks (store r2.2) = [exampleTask "a" "A" pending None []]) /\
  requests r1.2
  = [ReqUpdate "a"
       (mkDbUpdates None None None (Some completed) None None None None
                    (Some (Some 42%Z)) None)].
Proof.
  intros w r1 r2. split; [split; reflexivity|].
  exact (proj1 (proj2 (C6_toggle_is_one_update "u" 42%Z "a" (Success tt) w
                         (exampleTask "a" "A" pending None []) eq_refl))).
Defined.

Section InvariantLemmas.
Import Store Sync.

Lemma patch_full_Forall (P : Task -> Prop) id real ts :
  isFullTask real = true -> P real -> Forall P ts ->
  Forall P (map (patchEntry id real) ts).
Proof.
  intros Hfull Hreal Hts. induction Hts as [|t ts Ht _ IH]; simpl;
    constructor; [|assumption].
  unfold patchEntry. rewrite Hfull. now destruct (idIs id t).
Qed.

Lemma patch_Forall (P : Task -> Prop) id updates ts :
  (forall t, P t -> P updates) ->
  (forall t, P t -> P (spread t updates)) ->
  Forall P ts -> Forall P (map (patchEntry id updates) ts).
Proof.
  intros Hu Hs Hts. induction Hts as [|t ts Ht _ IH]; simpl;
    constructor; [|assumption].
  unfold patchEntry. destruct (idIs id t); [|assumption].
  destruct (isFullTask updates); eauto.
Qed.

Lemma filter_Forall {A} (P : A -> Prop) (f : A -> bool) l :
  Forall P l -> Forall P (List.filter f l).
Proof.
  induction 1 as [|x l Hx _ IH]; simpl; [constructor|].
  destruct (f x); [constructor|]; assumption.
Qed.

Lemma find_Forall {A} (P : A -> Prop) (f : A -> bool) l x :
  Forall P l -> List.find f l = Some x -> P x.
Proof.
  intros Hall Hfind. apply find_some in Hfind.
  rewrite List.Forall_forall in Hall. now apply Hall.
Qed.

Lemma consistentPatch_inv updates :
  consistentPatch updates -> completionInv updates.
Proof.
  unfold consistentPatch, completionInv, isCompletedAt.
  intros [[Hs Hc] | (st & c & Hs & Hc & Hiff)]; rewrite Hs, Hc.
  - split; [intros [d Hd]|]; discriminate.
  - split.
    + intros [d Hd]. injection Hd as ->. f_equal. apply Hiff. eauto.
    + intros Hst. injection Hst as ->.
      destruct (proj2 Hiff eq_refl) as [d ->]. eauto.
Qed.

Lemma consistentPatch_spread updates t :
  consistentPatch updates -> completionInv t ->
  completionInv (spread t updates).
Proof.
  intros Hp Ht.
  destruct Hp as [[Hs Hc] | (st & c & Hs & Hc & Hiff)].
  - unfold completionInv, isCompletedAt in *. simpl. rewrite Hs, Hc. exact Ht.
  - assert (Hu : completionInv updates).
    { apply consistentPatch_inv. right. eauto 6. }
    unfold completionInv, isCompletedAt in *. simpl. rewrite Hs, Hc in *.
    exact Hu.
Qed.

Lemma optimisticTask_inv uuid now taskData :
  completionInv (optimisticTask uuid now taskData).
Proof.
  unfold completionInv, isCompletedAt. simpl.
  split; [intros [d Hd]|]; discriminate.
Qed.

Lemma dbToTask_inv row name :
  rowCompletionInv row -> completionInv (dbToTask row name).
Proof.
  unfold rowCompletionInv, completionInv, isCompletedAt. simpl.
  intros [H1 H2]. split.
  - intros [d Hd]. injection Hd as Hd. f_equal. apply H1. eauto.
  - intros Hst. injection Hst as Hst. destruct (H2 Hst) as [d ->]. eauto.
Qed.

Lemma togglePatch_consistent now task : consistentPatch (togglePatch now task).
Proof.
  right. unfold togglePatch.
  destruct (bool_decide (t_status task = Some pending)); simpl.
  - exists completed, (Some now). repeat split; eauto.
  - exists pending, None. repeat split; try discriminate.
    intros [d Hd]. discriminate.
Qed.

(** [updateTask] keeps any property of the entries that its patch keeps
    and that the captured entry, an object of interface [Task], has. *)
Lemma updateTask_Forall (P : Task -> Prop) user id updates remote w :
  allTasks (tasks (store w)) ->
  Forall P (tasks (store w)) ->
  (forall t, P t -> P updates) ->
  (forall t, P t -> P (spread t updates)) ->
  Forall P (tasks (store (updateTask user id updates remote w).2)).
Proof.
  intros Hall Hinv Hu Hs. unfold updateTask.
  destruct user as [u|]; [|assumption].
  destruct (findTask id w) as [original|] eqn:Hfind; [|assumption].
  unfold findTask in Hfind.
  assert (Hp : Forall P (map (patchEntry (Some id) updates) (tasks (store w)))).
  { now apply patch_Forall. }
  destruct remote as [message|x]; simpl; [|assumption].
  apply patch_full_Forall; [| |assumption].
  - eapply find_allTasks; eassumption.
  - exact (find_Forall P _ _ _ Hinv Hfind).
Qed.
End InvariantLemmas.

(** C7 (amended): on a cache of [Task] objects that satisfy the invariant,
    [addTask] keeps it (its optimistic entry is pending with a null
    [completedAt]; the reconciled record satisfies it when the row of the
    server does), [toggleTaskStatus] keeps it, and [updateTask] keeps it for
    an update that sets [status] and [completedAt] together and consistently,
    or sets neither. *)
Theorem C7_completion_invariant_preserved (user : option string) (w : World) :
  allTasks (Store.tasks (store w)) ->
  Forall completionInv (Store.tasks (store w)) ->
  (forall uuid now taskData remote,
      (forall row profile, remote = Success (row, profile) -> rowCompletionInv row) ->
      Forall completionInv
        (Store.tasks (store (Sync.addTask user uuid now taskData remote w).2))) /\
  (forall now id remote,
      Forall completionInv
        (Store.tasks (store (Sync.toggleTaskStatus user now id remote w).2))) /\
  (forall id updates remote,
      consistentPatch updates ->
      Forall completionInv
        (Store.tasks (store (Sync.updateTask user id updates remote w).2))).
Proof.
  intros Hall Hinv. repeat split.
  - intros uuid now taskData remote Hrow.
    destruct user as [u|]; [|assumption].
    assert (Hopt : Forall completionInv
                     (Sync.optimisticTask uuid now taskData :: Store.tasks (store w))).
    { constructor; [apply optimisticTask_inv | assumption]. }
    destruct remote as [message|[row profile]].
    + rewrite addTask_failure. now apply filter_Forall.
    + destruct (addTask_success u uuid now taskData row profile w) as [_ ->].
      apply patch_full_Forall; eauto using dbToTask_inv.
  - intros now id remote. unfold Sync.toggleTaskStatus.
    destruct (Sync.findTask id w) as [task|]; [|assumption].
    apply updateTask_Forall; auto.
    + intros _ _. apply consistentPatch_inv, togglePatch_consistent.
    + intros t Ht. apply consistentPatch_spread; auto using togglePatch_consistent.
  - intros id updates remote Hp.
    apply updateTask_Forall; auto using consistentPatch_inv, consistentPatch_spread.
Qed.

Example C7_witness :
  let w := worldWith [exampleTask "a" "A" pending None []] in
  Forall completionInv
    (Store.tasks (store (Sync.toggleTaskStatus (Some "u") 42%Z "a" (Success tt) w).2)).
Proof.
  intros w.
  assert (Hall : allTasks (Store.tasks (store w))) by (repeat constructor).
  assert (Hinv : Forall completionInv (Store.tasks (store w))).
  { repeat constructor; [intros [d Hd]|]; discriminate. }
  destruct (C7_completion_invariant_preserved (Some "u") w Hall Hinv)
    as (_ & Htoggle & _).
  apply Htoggle.
Defined.

(** C7, as stated, fails for [updateTask]: an update that carries the status
    alone completes the task and leaves [completedAt] null. *)
Example C7_counterexample :
  let w := worldWith [exampleTask "a" "A" pending None []] in
  let after :=
    (Sync.updateTask (Some "u") "a" (statusPatch completed) (Success tt) w).2 in
  Forall completionInv (Store.tasks (store w)) /\
  Store.tasks (store after) = [exampleTask "a" "A" completed None []] /\
  ~ Forall completionInv (Store.tasks (store after)).
Proof.
  intros w after. repeat split.
  - repeat constructor; [intros [d Hd]|]; discriminate.
  - intros H. inversion H as [|t ts [_ Ht] _]; subst.
    destruct (Ht eq_refl) as [d Hd]. discriminate.
Qed.

Section ReminderEntryLemmas.
Import Store Sync Notifications.

Lemma remindersOf_patch id updates t :
  remindersOf updates = [] -> remindersOf t = [] ->
  remindersOf (patchEntry id updates t) = [].
Proof.
  intros Hu Ht. unfold patchEntry.
  destruct (idIs id t); [|assumption].
  destruct (isFullTask updates); [assumption|].
  unfold remindersOf in *. simpl.
  destruct (t_reminders updates); simpl in *; assumption.
Qed.

Lemma noReminders_patch id updates ts :
  remindersOf updates = [] -> noReminders ts ->
  noReminders (map (patchEntry id updates) ts).
Proof.
  intros Hu. unfold noReminders.
  induction 1 as [|t ts Ht _ IH]; simpl; constructor;
    auto using remindersOf_patch.
Qed.

(** A scan of a cache without reminders does nothing. *)
Lemma checkReminders_noReminders now ts w :
  noReminders ts -> worldOf (checkReminders now ts w) = w.
Proof.
  unfold checkReminders.
  induction 1 as [|t ts Ht _ IH]; simpl; [reflexivity|].
  destruct (bool_decide (t_status t = Some completed)); [exact IH|].
  unfold remindersOf in Ht.
  destruct (t_reminders t) as [rs|]; simpl in *; [|reflexivity].
  subst rs. simpl. exact IH.
Qed.
End ReminderEntryLemmas.

(** C10: the optimistic entry of [addTask] has the empty list of reminders
    whatever the caller supplies, and so has every record built by [dbToTask];
    hence every entry that [addTask] or a full reload places in the cache has
    no reminder.  On a cache without reminders, only an [updateTask] whose
    update carries reminders can bring some in: [addTask], the reload,
    [deleteTask], [toggleTaskStatus], a scan of the scheduler and an
    [updateTask] with no reminders in its update leave the cache without. *)
Theorem C10_reminders_only_from_updateTask :
  (forall uuid now taskData,
      t_reminders (Sync.optimisticTask uuid now taskData) = Some []) /\
  (forall row name, t_reminders (Sync.dbToTask row name) = Some []) /\
  (forall user uuid now taskData remote w t,
      In t (Store.tasks (store (Sync.addTask user uuid now taskData remote w).2)) ->
      In t (Store.tasks (store w)) \/ t_reminders t = Some []) /\
  (forall u data w t,
      In t (Store.tasks (store (Sync.fetchTasks (Some u) (Success data) w))) ->
      t_reminders t = Some []) /\
  (forall w,
      noReminders (Store.tasks (store w)) ->
      (forall user uuid now taskData remote,
          noReminders
            (Store.tasks (store (Sync.addTask user uuid now taskData remote w).2))) /\
      (forall user remote,
          noReminders (Store.tasks (store (Sync.fetchTasks user remote w)))) /\
      (forall user id remote,
          noReminders (Store.tasks (store (Sync.deleteTask user id remote w).2))) /\
      (forall user now id remote,
          noReminders
            (Store.tasks (store (Sync.toggleTaskStatus user now id remote w).2))) /\
      (forall user id updates remote,
          remindersOf updates = [] ->
          noReminders
            (Store.tasks (store (Sync.updateTask user id updates remote w).2))) /\
      (forall now,
          noReminders
            (Store.tasks (store (Notifications.worldOf (Notifications.scan now w)))))).
Proof.
  assert (Hadd : forall user uuid now taskData remote w t,
    In t (Store.tasks (store (Sync.addTask user uuid now taskData remote w).2)) ->
    In t (Store.tasks (store w)) \/ t_reminders t = Some []).
  { intros user uuid now taskData remote w t.
    destruct user as [u|]; [|now left].
    destruct remote as [message|[row profile]].
    - rewrite addTask_failure. intros Hin. apply filter_In in Hin.
      destruct Hin as [[<-|Hin] _]; [now right | now left].
    - destruct (addTask_success u uuid now taskData row profile w) as [_ ->].
      intros Hin. apply in_map_iff in Hin. destruct Hin as (t0 & <- & Hin).
      unfold Store.patchEntry. destruct (Store.idIs (Some uuid) t0).
      + now right.
      + destruct Hin as [<-|Hin]; [now right | now left]. }
  assert (Hfetch : forall u data w t,
    In t (Store.tasks (store (Sync.fetchTasks (Some u) (Success data) w))) ->
    t_reminders t = Some []).
  { intros u [rows profiles] w t Hin. simpl in Hin.
    apply in_map_iff in Hin. now destruct Hin as (row & <- & _). }
  assert (Hupd : forall w user id updates remote,
    noReminders (Store.tasks (store w)) ->
    remindersOf updates = [] ->
    noReminders (Store.tasks (store (Sync.updateTask user id updates remote w).2))).
  { intros w user id updates remote Hno Hu. unfold Sync.updateTask.
    destruct user as [u|]; [|assumption].
    destruct (Sync.findTask id w) as [original|] eqn:Hfind; [|assumption].
    assert (Horig : remindersOf original = []).
    { exact (find_Forall _ _ _ _ Hno Hfind). }
    destruct remote as [message|x]; simpl;
      repeat apply noReminders_patch; assumption. }
  split; [reflexivity|]. split; [reflexivity|].
  split; [exact Hadd|]. split; [exact Hfetch|].
  intros w Hno. repeat split.
  - intros user uuid now taskData remote.
    apply List.Forall_forall. intros t Hin.
    cbv beta. unfold remindersOf.
    destruct (Hadd _ _ _ _ _ _ _ Hin) as [Hold| ->]; [|reflexivity].
    unfold noReminders in Hno. rewrite List.Forall_forall in Hno.
    now apply Hno.
  - intros user remote. destruct user as [u|]; [|constructor].
    destruct remote as [message|data]; [exact Hno|].
    apply List.Forall_forall. intros t Hin. cbv beta.
    unfold remindersOf. now rewrite (Hfetch _ _ _ _ Hin).
  - intros user id remote. unfold Sync.deleteTask.
    destruct user as [u|]; [|assumption].
    assert (Hdel : noReminders
              (List.filter (fun t => negb (Store.idIs (Some id) t))
                           (Store.tasks (store w)))).
    { now apply filter_Forall. }
    destruct remote as [message|x]; [|exact Hdel].
    destruct (Sync.findTask id w) as [original|] eqn:Hfind; [|exact Hdel].
    constructor; [|exact Hdel].
    exact (find_Forall _ _ _ _ Hno Hfind).
  - intros user now id remote. unfold Sync.toggleTaskStatus.
    destruct (Sync.findTask id w); [|assumption].
    now apply Hupd.
  - intros user id updates remote. now apply Hupd.
  - intros now. unfold Notifications.scan.
    now rewrite checkReminders_noReminders.
Qed.

Example C10_witness :
  let w := worldWith [exampleTask "a" "A" pending None []] in
  let supplied := mkReminder "r" "a" 0%Z on_due false None in
  let taskData := Store.spread (titlePatch "N")
                    (Notifications.remindersPatch [supplied]) in
  noReminders
    (Store.tasks (store (Sync.addTask (Some "u") "tmp1" 5%Z taskData
                           (Success (exampleRow "srv1" "N", None)) w).2)).
Proof.
  intros w supplied taskData.
  assert (Hno : noReminders (Store.tasks (store w))) by (repeat constructor).
  destruct (C10_reminders_only_from_updateTask) as (_ & _ & _ & _ & H).
  destruct (H w Hno) as (Hadd & _).
  apply Hadd.
Defined.

(** The way in: an [updateTask] whose update carries reminders. *)
Example updateTask_brings_reminders :
  let w := worldWith [exampleTask "a" "A" pending None []] in
  let r := mkReminder "r" "a" 0%Z on_due false None in
  map remindersOf
    (Store.tasks (store (Sync.updateTask (Some "u") "a"
                           (Notifications.remindersPatch [r]) (Success tt) w).2))
  = [[r]].
Proof. reflexivity. Qed.

(** ** The Reminder Scheduler *)

Section ScanLemmas.
Import Store Notifications.

Lemma forEach_app {A} (f : A -> World -> Result) xs ys w :
  forEach f (xs ++ ys) w =
  match forEach f xs w with
  | Done w' => forEach f ys w'
  | Threw w' => Threw w'
  end.
Proof.
  revert w. induction xs as [|x xs IH]; intros w; simpl; [reflexivity|].
  destruct (f x w); [apply IH | reflexivity].
Qed.

(** What every step keeps, a whole loop keeps. *)
Lemma forEach_inv {A} (I : World -> Prop) (f : A -> World -> Result) xs w :
  (forall x w, I w -> I (worldOf (f x w))) ->
  I w -> I (worldOf (forEach f xs w)).
Proof.
  intros Hf. revert w. induction xs as [|x xs IH]; intros w Hw; simpl;
    [assumption|].
  specialize (Hf x w Hw). destruct (f x w); simpl in *; auto.
Qed.

Lemma checkReminders_inv (I : World -> Prop) now ts w :
  (forall task reminder w, I w -> I (worldOf (triggerReminder task reminder w))) ->
  I w -> I (worldOf (checkReminders now ts w)).
Proof.
  intros Htrig. unfold checkReminders. apply forEach_inv.
  intros task w' Hw'.
  destruct (bool_decide (t_status task = Some completed)); [assumption|].
  destruct (t_reminders task) as [rs|]; [|assumption].
  apply forEach_inv; [|assumption].
  intros reminder w'' Hw''.
  destruct (r_triggered reminder); [assumption|].
  destruct (inWindow now reminder); auto.
Qed.

Lemma triggerReminder_done task reminder rs w :
  t_reminders task = Some rs ->
  exists w', triggerReminder task reminder w = Done w' /\
             fired w' = (fired w ++ [(task, reminder)])%list.
Proof.
  intros Hrs. unfold triggerReminder. rewrite Hrs. eexists. split; [reflexivity|].
  unfold showNotification. simpl. destruct (permission w); reflexivity.
Qed.

Lemma inWindow_spec now reminder :
  inWindow now reminder = true <->
  (now - 60000 < r_time reminder <= now)%Z.
Proof. unfold inWindow. rewrite andb_true_iff, Z.leb_le, Z.ltb_lt. lia. Qed.

Lemma dueb_spec now reminder :
  dueb now reminder = true <->
  r_triggered reminder = false /\ (now - 60000 < r_time reminder <= now)%Z.
Proof.
  unfold dueb. rewrite andb_true_iff, negb_true_iff, inWindow_spec. tauto.
Qed.

(** The inner loop over (a part of) the reminders of one task. *)
Lemma reminders_loop now task rs part w :
  t_reminders task = Some rs ->
  exists w',
    forEach (fun reminder w =>
               if r_triggered reminder then Done w else
               if inWindow now reminder then triggerReminder task reminder w
               else Done w) part w = Done w' /\
    fired w' = (fired w ++ map (pair task) (List.filter (dueb now) part))%list.
Proof.
  intros Hrs. revert w. induction part as [|r part IH]; intros w; simpl.
  - exists w. now rewrite app_nil_r.
  - unfold dueb at 1. destruct (r_triggered r); simpl.
    + apply IH.
    + destruct (inWindow now r); simpl; [|apply IH].
      destruct (triggerReminder_done task r rs w Hrs) as (w1 & -> & Hf1).
      destruct (IH w1) as (w2 & -> & Hf2).
      exists w2. split; [reflexivity|].
      rewrite Hf2, Hf1, <- app_assoc. reflexivity.
Qed.

Lemma checkReminders_done now ts w :
  haveReminders ts ->
  exists w', checkReminders now ts w = Done w' /\
             fired w' = (fired w ++ dueCalls now ts)%list.
Proof.
  intros Hts. revert w. unfold checkReminders.
  induction Hts as [|task ts Htask _ IH]; intros w; simpl.
  - exists w. now rewrite app_nil_r.
  - destruct (bool_decide (t_status task = Some completed)); [apply IH|].
    unfold remindersOf.
    destruct (t_reminders task) as [rs|] eqn:Hrs; [|congruence]. simpl.
    destruct (reminders_loop now task rs rs w Hrs) as (w1 & -> & Hf1).
    destruct (IH w1) as (w2 & -> & Hf2).
    exists w2. split; [reflexivity|].
    rewrite Hf2, Hf1, <- app_assoc. reflexivity.
Qed.

Lemma dueCalls_spec now ts task reminder :
  In (task, reminder) (dueCalls now ts) <->
  In task ts /\ In reminder (remindersOf task) /\ due now task reminder.
Proof.
  unfold dueCalls, due. rewrite in_flat_map. split.
  - intros (t & Hin & Hcall).
    destruct (bool_decide (t_status t = Some completed)) eqn:Hst;
      [contradiction|].
    apply bool_decide_eq_false in Hst.
    apply in_map_iff in Hcall. destruct Hcall as (r & [= -> ->] & Hr).
    apply filter_In in Hr. destruct Hr as [Hr Hdue].
    apply dueb_spec in Hdue. tauto.
  - intros (Hin & Hr & Hst & Htrig & Hwin). exists task. split; [assumption|].
    rewrite bool_decide_eq_false_2 by assumption.
    apply in_map, filter_In. split; [assumption|].
    apply dueb_spec. tauto.
Qed.
End ScanLemmas.

Section ActiveLemmas.
Import Store Notifications.

Lemma triggerReminder_active task reminder w :
  activeReminders (worldOf (triggerReminder task reminder w))
  = addActive (mkActive (r_id reminder) (t_id task) (t_title task)
                        (r_time reminder) 0)
              (activeReminders w).
Proof.
  unfold triggerReminder, showNotification.
  destruct (t_reminders task); destruct w as [? ? ? ? ? pm ? ? ? ?];
    destruct pm; reflexivity.
Qed.

Lemma triggerReminder_fired task reminder w :
  fired (worldOf (triggerReminder task reminder w))
  = (fired w ++ [(task, reminder)])%list.
Proof.
  unfold triggerReminder, showNotification.
  destruct (t_reminders task); destruct w as [? ? ? ? ? pm ? ? ? ?];
    destruct pm; reflexivity.
Qed.

Lemma existsb_a_id id l :
  existsb (fun r => bool_decide (a_id r = id)) l = true <-> id ∈ map a_id l.
Proof.
  rewrite existsb_exists, list_elem_of_In, in_map_iff. split.
  - intros (r & Hin & Hb). apply bool_decide_eq_true in Hb. eauto.
  - intros (r & Hid & Hin). exists r. split; [assumption|].
    now apply bool_decide_eq_true.
Qed.

Lemma addActive_NoDup a l :
  NoDup (map a_id l) -> NoDup (map a_id (addActive a l)).
Proof.
  intros Hnd. unfold addActive.
  destruct (existsb _ l) eqn:Hex; [assumption|].
  rewrite map_app. simpl. apply NoDup_app. repeat split.
  - assumption.
  - intros x Hx Hx'. apply list_elem_of_singleton in Hx'. subst x.
    apply existsb_a_id in Hx. congruence.
  - apply NoDup_singleton.
Qed.

Lemma addActive_mono a l id :
  id ∈ map a_id l -> id ∈ map a_id (addActive a l).
Proof.
  intros Hin. unfold addActive. destruct (existsb _ l); [assumption|].
  rewrite map_app. apply elem_of_app. now left.
Qed.

Lemma addActive_in a l : a_id a ∈ map a_id (addActive a l).
Proof.
  unfold addActive. destruct (existsb _ l) eqn:Hex.
  - now apply existsb_a_id.
  - rewrite map_app. apply elem_of_app. right. simpl.
    apply list_elem_of_singleton. reflexivity.
Qed.

Lemma count_one id (l : list ActiveReminder) :
  NoDup (map a_id l) -> id ∈ map a_id l ->
  length (List.filter (fun a => bool_decide (a_id a = id)) l) = 1.
Proof.
  induction l as [|a l IH]; simpl; intros Hnd Hin.
  - inversion Hin.
  - apply NoDup_cons in Hnd. destruct Hnd as [Hnotin Hnd].
    destruct (bool_decide (a_id a = id)) eqn:Hb; simpl.
    + apply bool_decide_eq_true in Hb. subst id. f_equal.
      clear IH Hin Hnd. induction l as [|b l IH]; simpl; [reflexivity|].
      apply not_elem_of_cons in Hnotin. destruct Hnotin as [Hne Hnotin].
      rewrite bool_decide_eq_false_2 by congruence. now apply IH.
    + apply bool_decide_eq_false in Hb.
      apply elem_of_cons in Hin. destruct Hin as [Heq|Hin]; [congruence|].
      now apply IH.
Qed.

(** The Active Reminder entries keep distinct identifiers through a scan. *)
Lemma checkReminders_active_NoDup now ts w :
  NoDup (activeIds w) ->
  NoDup (activeIds (worldOf (checkReminders now ts w))).
Proof.
  apply (checkReminders_inv (fun w => NoDup (activeIds w))).
  intros task reminder w' Hw'. unfold activeIds.
  rewrite triggerReminder_active. now apply addActive_NoDup.
Qed.

Lemma checkReminders_active_mono now ts w id :
  id ∈ activeIds w -> id ∈ activeIds (worldOf (checkReminders now ts w)).
Proof.
  apply (checkReminders_inv (fun w => id ∈ activeIds w)).
  intros task reminder w' Hw'. unfold activeIds.
  rewrite triggerReminder_active. now apply addActive_mono.
Qed.

(** Every reminder a scan fires has an Active Reminder entry afterwards. *)
Lemma checkReminders_fired_active now ts w :
  let w' := worldOf (checkReminders now ts w) in
  exists calls,
    fired w' = (fired w ++ calls)%list /\
    Forall (fun p : Task * Reminder => r_id p.2 ∈ activeIds w') calls.
Proof.
  intros w'. subst w'.
  apply (checkReminders_inv
           (fun w' => exists calls,
                fired w' = (fired w ++ calls)%list /\
                Forall (fun p : Task * Reminder => r_id p.2 ∈ activeIds w')
                       calls)).
  - intros t r w' (calls & Hfired & Hact).
    exists (calls ++ [(t, r)])%list.
    rewrite triggerReminder_fired, Hfired, <- app_assoc.
    split; [reflexivity|]. unfold activeIds in *.
    rewrite triggerReminder_active. apply Forall_app. split.
    + eapply Forall_impl; [exact Hact|].
      intros p Hp. now apply addActive_mono.
    + constructor; [|constructor].
      apply (addActive_in (mkActive _ _ _ _ _)).
  - exists []. rewrite app_nil_r. split; [reflexivity|constructor].
Qed.
End ActiveLemmas.

(** The part of C4 that the code keeps: a reminder that is due at the first
    of two scans has exactly one Active Reminder entry after the second, the
    entries being deduplicated by identifier. *)
Lemma scan_twice_one_active_entry (now1 now2 : Z) (w : World)
  (task : Task) (reminder : Reminder) :
  haveReminders (Store.tasks (store w)) ->
  NoDup (activeIds w) ->
  In (task, reminder) (dueCalls now1 (Store.tasks (store w))) ->
  let w1 := Notifications.worldOf (Notifications.scan now1 w) in
  let w2 := Notifications.worldOf (Notifications.scan now2 w1) in
  countActive (r_id reminder) w1 = 1 /\ countActive (r_id reminder) w2 = 1.
Proof.
  intros Hts Hnd Hdue w1 w2.
  assert (Hnd1 : NoDup (activeIds w1)) by now apply checkReminders_active_NoDup.
  assert (Hnd2 : NoDup (activeIds w2)) by now apply checkReminders_active_NoDup.
  assert (Hin1 : r_id reminder ∈ activeIds w1).
  { destruct (checkReminders_done now1 _ w Hts) as (w' & Hscan & Hfired).
    destruct (checkReminders_fired_active now1 (Store.tasks (store w)) w)
      as (calls & Hcalls & Hact).
    fold (Notifications.scan now1 w) in Hcalls, Hact. fold w1 in Hcalls, Hact.
    assert (Hw1 : w1 = w') by (subst w1; unfold Notifications.scan; now rewrite Hscan).
    rewrite Hw1, Hfired in Hcalls. apply app_inv_head in Hcalls. subst calls.
    rewrite List.Forall_forall in Hact. exact (Hact _ Hdue). }
  split; apply count_one; auto.
  now apply checkReminders_active_mono.
Qed.

(** With one reminder due, the flag does its work: the second scan fires
    nothing. *)
Example single_reminder_fires_once :
  let task := exampleTask "a" "A" pending None [reminderAt "r1" 990000] in
  exists w1 w2,
    Notifications.scan 1000000 (worldWith [task]) = Notifications.Done w1 /\
    Notifications.scan 1030000 w1 = Notifications.Done w2 /\
    map (fun p => r_id p.2) (fired w2) = ["r1"] /\
    length (toasts w2) = 1.
Proof.
  intros task. eexists. eexists.
  split; [vm_compute; reflexivity|].
  split; [vm_compute; reflexivity|].
  split; reflexivity.
Qed.

(** C4, on a task with two reminders due in the same scan: [triggerReminder]
    computes the new reminders from the task object that the scan holds, not
    from the entry of the store, so marking the second reminder writes the
    first one back with its flag false.  The second scan, 30 s later and in
    the window of the first reminder, fires it again (a second toast); the
    Active Reminder entries stay one per identifier. *)
Theorem C4_second_scan_fires_again :
  let w0 := worldWith [twoDue] in
  exists w1 w2,
    Notifications.scan 1000000 w0 = Notifications.Done w1 /\
    Notifications.scan 1030000 w1 = Notifications.Done w2 /\
    map remindersOf (Store.tasks (store w1))
    = [[reminderAt "r1" 990000;
        mkReminder "r2" "a" 995000 custom true None]] /\
    map (fun p => r_id p.2) (fired w1) = ["r1"; "r2"] /\
    map (fun p => r_id p.2) (fired w2) = ["r1"; "r2"; "r1"] /\
    length (toasts w1) = 2 /\ length (toasts w2) = 3 /\
    activeIds w2 = ["r1"; "r2"].
Proof.
  intros w0. eexists. eexists.
  split; [vm_compute; reflexivity|].
  split; [vm_compute; reflexivity|].
  repeat split.
Qed.

(** ** Snooze timers *)

Section TimerLemmas.
Import Store Notifications.

Lemma NoDup_fst_filter {A B} (f : A * B -> bool) (l : list (A * B)) :
  NoDup (map fst l) -> NoDup (map fst (List.filter f l)).
Proof.
  induction l as [|p l IH]; simpl; intros Hnd; [assumption|].
  apply NoDup_cons in Hnd. destruct Hnd as [Hnotin Hnd].
  destruct (f p); simpl; [|auto].
  apply NoDup_cons. split; [|auto].
  intros Hin. apply Hnotin.
  rewrite list_elem_of_In, in_map_iff in *.
  destruct Hin as (q & Hq & Hin). apply filter_In in Hin.
  exists q. tauto.
Qed.

Lemma timersOk_initial : timersOk initialWorld.
Proof. split; constructor. Qed.

(** At most one timer is pending for a reminder. *)
Lemma timersOk_at_most_one w reminderId :
  timersOk w -> length (pendingFor reminderId w) <= 1.
Proof.
  intros [Hnd Hall]. unfold pendingFor.
  assert (Hnd' := NoDup_fst_filter
                    (fun p => bool_decide (al_reminderId p.2 = reminderId))
                    _ Hnd).
  assert (Hh : Forall (fun p : positive * SnoozeAlert =>
                         snoozeIntervals w !! reminderId = Some p.1)
                      (List.filter
                         (fun p => bool_decide (al_reminderId p.2 = reminderId))
                         (timeouts w))).
  { apply List.Forall_forall. intros p Hp. apply filter_In in Hp.
    destruct Hp as [Hin Hb]. apply bool_decide_eq_true in Hb.
    rewrite List.Forall_forall in Hall. destruct (Hall p Hin) as [Hm _].
    now rewrite <- Hb. }
  destruct (List.filter _ (timeouts w)) as [|p [|q l]]; simpl; try lia.
  exfalso. inversion Hh as [|? ? Hp Hh']; subst.
  inversion Hh' as [|? ? Hq _]; subst.
  simpl in Hnd'. apply NoDup_cons in Hnd'. destruct Hnd' as [Hnotin _].
  apply Hnotin. rewrite Hp in Hq. injection Hq as ->. apply elem_of_cons.
  now left.
Qed.

(** Clearing the timer that the map holds for a reminder leaves no pending
    timer for it. *)
Lemma cleared_none w reminderId p :
  timersOk w ->
  In p (match snoozeIntervals w !! reminderId with
        | Some h => timeouts (clearTimeout h w)
        | None => timeouts w
        end) ->
  In p (timeouts w) /\ al_reminderId p.2 <> reminderId.
Proof.
  intros [_ Hall] Hin. rewrite List.Forall_forall in Hall.
  destruct (snoozeIntervals w !! reminderId) as [h|] eqn:Hm.
  - simpl in Hin. apply filter_In in Hin. destruct Hin as [Hin Hb].
    split; [assumption|]. intros Heq.
    destruct (Hall p Hin) as [Hp _]. rewrite Heq, Hm in Hp.
    injection Hp as ->. rewrite bool_decide_eq_true_2 in Hb by reflexivity.
    discriminate.
  - split; [assumption|]. intros Heq.
    destruct (Hall p Hin) as [Hp _]. rewrite Heq, Hm in Hp. discriminate.
Qed.

Lemma filter_none {A} (f : A -> bool) (l : list A) :
  (forall x, In x l -> f x = false) -> List.filter f l = [].
Proof.
  induction l as [|x l IH]; simpl; intros H; [reflexivity|].
  rewrite (H x) by now left. apply IH. intros y Hy. apply H. now right.
Qed.

(** One snooze of an entry: the invariant is kept, the only pending timer
    of the reminder is the new one, which the map holds, and nothing but the
    timers, the map and the toasts changes. *)
Lemma snoozeEntry_spec reminderId r w :
  timersOk w ->
  let w' := (snoozeEntry reminderId r w).2 in
  timersOk w' /\
  pendingFor reminderId w'
  = [(nextTimer w,
      mkAlert reminderId (a_taskTitle r) (a_taskId r) (S (a_snoozeCount r)))] /\
  snoozeIntervals w' !! reminderId = Some (nextTimer w) /\
  store w' = store w /\ activeReminders w' = activeReminders w.
Proof.
  intros Hok w'. subst w'. unfold snoozeEntry.
  set (w1 := match snoozeIntervals w !! reminderId with
             | Some h => clearTimeout h w
             | None => w
             end).
  assert (Htm : timeouts w1 = match snoozeIntervals w !! reminderId with
                              | Some h => timeouts (clearTimeout h w)
                              | None => timeouts w
                              end).
  { subst w1. now destruct (snoozeIntervals w !! reminderId). }
  assert (Hsame : snoozeIntervals w1 = snoozeIntervals w /\
                  nextTimer w1 = nextTimer w /\ store w1 = store w /\
                  activeReminders w1 = activeReminders w).
  { subst w1. now destruct (snoozeIntervals w !! reminderId). }
  destruct Hsame as (Hsi & Hnt & Hst & Hact).
  assert (Hcl : forall p, In p (timeouts w1) ->
                          In p (timeouts w) /\ al_reminderId p.2 <> reminderId).
  { intros p Hp. rewrite Htm in Hp. now apply cleared_none. }
  assert (Hnd1 : NoDup (map fst (timeouts w1))).
  { rewrite Htm. destruct Hok as [Hnd _].
    destruct (snoozeIntervals w !! reminderId); [|assumption].
    simpl. now apply NoDup_fst_filter. }
  destruct Hok as [Hnd Hall]. rewrite List.Forall_forall in Hall.
  simpl. rewrite Hsi, Hnt, Hst, Hact.
  split; [split|].
  - simpl. rewrite map_app. simpl. apply NoDup_app. repeat split.
    + assumption.
    + intros h Hh Hh'. apply list_elem_of_singleton in Hh'. subst h.
      rewrite list_elem_of_In, in_map_iff in Hh.
      destruct Hh as (p & Hp & Hin). destruct (Hcl p Hin) as [Hin' _].
      destruct (Hall p Hin') as [_ Hlt]. rewrite Hp in Hlt. lia.
    + apply NoDup_singleton.
  - simpl. apply Forall_app. split.
    + apply List.Forall_forall. intros p Hin.
      destruct (Hcl p Hin) as [Hin' Hne].
      destruct (Hall p Hin') as [Hm Hlt].
      rewrite lookup_insert_ne by congruence. split; [assumption|lia].
    + constructor; [|constructor]. simpl.
      rewrite lookup_insert_eq. split; [reflexivity|lia].
  - repeat split.
    + unfold pendingFor. simpl. rewrite List.filter_app. simpl.
      rewrite bool_decide_eq_true_2 by reflexivity.
      rewrite filter_none; [reflexivity|].
      intros p Hin. destruct (Hcl p Hin) as [_ Hne].
      now apply bool_decide_eq_false.
    + simpl. apply lookup_insert_eq.
Qed.
End TimerLemmas.

Section SnoozeLemmas.
Import Store Notifications.

Lemma snoozed_id reminderId r : a_id (snoozed reminderId r) = a_id r.
Proof. unfold snoozed. now destruct (bool_decide (a_id r = reminderId)). Qed.

Lemma snoozed_ids reminderId l :
  map a_id (map (snoozed reminderId) l) = map a_id l.
Proof.
  induction l as [|r l IH]; simpl; [reflexivity|].
  now rewrite snoozed_id, IH.
Qed.

Lemma snoozeEach_fst reminderId prev w :
  (snoozeEach reminderId prev w).1 = map (snoozed reminderId) prev.
Proof.
  revert w. induction prev as [|r prev IH]; intros w; cbn [snoozeEach map];
    [reflexivity|].
  unfold snoozed at 1.
  destruct (bool_decide (a_id r = reminderId)).
  - destruct (snoozeEntry reminderId r w) as [r' w1] eqn:He.
    specialize (IH w1). destruct (snoozeEach reminderId prev w1) as [rest w2].
    simpl in *. rewrite IH. f_equal.
    unfold snoozeEntry in He. now injection He as <- _.
  - specialize (IH w). destruct (snoozeEach reminderId prev w) as [rest w2].
    simpl in *. now rewrite IH.
Qed.

Lemma snoozeEach_absent reminderId prev w :
  reminderId ∉ map a_id prev -> (snoozeEach reminderId prev w).2 = w.
Proof.
  revert w. induction prev as [|r prev IH]; intros w Hnotin;
    cbn [snoozeEach]; [reflexivity|].
  simpl in Hnotin. apply not_elem_of_cons in Hnotin.
  destruct Hnotin as [Hne Hnotin].
  rewrite bool_decide_eq_false_2 by congruence.
  specialize (IH w Hnotin).
  destruct (snoozeEach reminderId prev w) as [rest w2]. exact IH.
Qed.

(** With distinct identifiers, the updater snoozes one entry. *)
Lemma snoozeEach_unique reminderId prev w a :
  NoDup (map a_id prev) -> In a prev -> a_id a = reminderId ->
  (snoozeEach reminderId prev w).2 = (snoozeEntry reminderId a w).2.
Proof.
  revert w. induction prev as [|r prev IH]; intros w Hnd Hin Hid;
    cbn [snoozeEach]; [contradiction|].
  simpl in Hnd. apply NoDup_cons in Hnd. destruct Hnd as [Hnotin Hnd].
  destruct Hin as [->|Hin].
  - rewrite bool_decide_eq_true_2 by assumption.
    destruct (snoozeEntry reminderId a w) as [r' w1].
    assert (Habs := snoozeEach_absent reminderId prev w1).
    destruct (snoozeEach reminderId prev w1) as [rest w2]. simpl in *.
    apply Habs. now rewrite <- Hid.
  - assert (Hne : a_id r <> reminderId).
    { intros Heq. apply Hnotin. rewrite Heq, <- Hid.
      apply list_elem_of_In, in_map. assumption. }
    rewrite bool_decide_eq_false_2 by assumption.
    specialize (IH w Hnd Hin Hid).
    destruct (snoozeEach reminderId prev w) as [rest w2]. exact IH.
Qed.

Lemma snoozeReminder_unfold reminderId w :
  snoozeReminder reminderId w
  = setActiveReminders
      (fun _ => (snoozeEach reminderId (activeReminders w) w).1)
      (snoozeEach reminderId (activeReminders w) w).2.
Proof.
  unfold snoozeReminder.
  now destruct (snoozeEach reminderId (activeReminders w) w).
Qed.

(** The store is out of reach of the snooze. *)
Lemma snoozeEach_store reminderId prev w :
  store (snoozeEach reminderId prev w).2 = store w.
Proof.
  revert w. induction prev as [|r prev IH]; intros w; cbn [snoozeEach];
    [reflexivity|].
  destruct (bool_decide (a_id r = reminderId)).
  - destruct (snoozeEntry reminderId r w) as [r' w1] eqn:He.
    specialize (IH w1). destruct (snoozeEach reminderId prev w1) as [rest w2].
    cbn [snd] in *. rewrite IH.
    assert (Hw1 : w1 = (snoozeEntry reminderId r w).2) by now rewrite He.
    rewrite Hw1. unfold snoozeEntry. simpl.
    now destruct (snoozeIntervals w !! reminderId).
  - specialize (IH w). now destruct (snoozeEach reminderId prev w).
Qed.

Lemma snoozeReminder_store reminderId w :
  store (snoozeReminder reminderId w) = store w.
Proof. rewrite snoozeReminder_unfold. simpl. apply snoozeEach_store. Qed.

(** One snooze of an active reminder. *)
Lemma snoozeReminder_spec reminderId a w :
  timersOk w -> NoDup (activeIds w) ->
  In a (activeReminders w) -> a_id a = reminderId ->
  let w' := snoozeReminder reminderId w in
  timersOk w' /\
  activeReminders w' = map (snoozed reminderId) (activeReminders w) /\
  pendingFor reminderId w'
  = [(nextTimer w,
      mkAlert reminderId (a_taskTitle a) (a_taskId a) (S (a_snoozeCount a)))] /\
  snoozeIntervals w' !! reminderId = Some (nextTimer w) /\
  (nextTimer w < nextTimer w')%positive.
Proof.
  intros Hok Hnd Hin Hid w'. subst w'. rewrite snoozeReminder_unfold.
  rewrite snoozeEach_fst, (snoozeEach_unique _ _ _ a Hnd Hin Hid).
  destruct (snoozeEntry_spec reminderId a w Hok) as (Hok' & Hp & Hm & _ & _).
  repeat split; try assumption; try apply Hok'.
  unfold snoozeEntry. simpl.
  destruct (snoozeIntervals w !! reminderId); simpl; lia.
Qed.
End SnoozeLemmas.

(** C8: snoozing an active reminder twice in a row leaves its entry with the
    count incremented twice (2 for a reminder that has just fired) and one
    pending snooze timer for it, the one set by the second snooze, which is
    the one the map holds; the timer of the first snooze is gone.  The
    invariant of the timers holds afterwards, so no reminder has more than
    one pending timer, and the store, hence every task and every [triggered]
    flag, is untouched. *)
Theorem C8_snooze_chaining (reminderId : string) (a : ActiveReminder) (w : World) :
  timersOk w -> NoDup (activeIds w) ->
  In a (activeReminders w) -> a_id a = reminderId ->
  let w1 := Notifications.snoozeReminder reminderId w in
  let w2 := Notifications.snoozeReminder reminderId w1 in
  let alert n := mkAlert reminderId (a_taskTitle a) (a_taskId a) n in
  activeReminders w2
  = map (snoozed reminderId) (map (snoozed reminderId) (activeReminders w)) /\
  In (mkActive (a_id a) (a_taskId a) (a_taskTitle a) (a_reminderTime a)
               (S (S (a_snoozeCount a))))
     (activeReminders w2) /\
  (exists h1 h2,
      h1 <> h2 /\
      pendingFor reminderId w1 = [(h1, alert (S (a_snoozeCount a)))] /\
      pendingFor reminderId w2 = [(h2, alert (S (S (a_snoozeCount a))))] /\
      snoozeIntervals w2 !! reminderId = Some h2) /\
  timersOk w2 /\
  (forall id, length (pendingFor id w2) <= 1) /\
  store w1 = store w /\ store w2 = store w.
Proof.
  intros Hok Hnd Hin Hid w1 w2 alert.
  destruct (snoozeReminder_spec reminderId a w Hok Hnd Hin Hid)
    as (Hok1 & Hact1 & Hp1 & Hm1 & Hlt1).
  fold w1 in Hok1, Hact1, Hp1, Hm1, Hlt1.
  assert (Hnd1 : NoDup (activeIds w1)).
  { unfold activeIds. rewrite Hact1, snoozed_ids. exact Hnd. }
  assert (Hin1 : In (snoozed reminderId a) (activeReminders w1)).
  { rewrite Hact1. now apply in_map. }
  assert (Hid1 : a_id (snoozed reminderId a) = reminderId).
  { now rewrite snoozed_id. }
  destruct (snoozeReminder_spec reminderId _ w1 Hok1 Hnd1 Hin1 Hid1)
    as (Hok2 & Hact2 & Hp2 & Hm2 & Hlt2).
  fold w2 in Hok2, Hact2, Hp2, Hm2, Hlt2.
  assert (Hsn : snoozed reminderId a
                = mkActive (a_id a) (a_taskId a) (a_taskTitle a)
                           (a_reminderTime a) (S (a_snoozeCount a))).
  { unfold snoozed. now rewrite bool_decide_eq_true_2. }
  rewrite Hsn in Hp2. simpl in Hp2.
  repeat split.
  - now rewrite Hact2, Hact1.
  - rewrite Hact2, Hact1.
    apply in_map_iff. exists (snoozed reminderId a). split.
    + rewrite Hsn. unfold snoozed. simpl. now rewrite bool_decide_eq_true_2.
    + now apply in_map.
  - exists (nextTimer w), (nextTimer w1). repeat split; try assumption. lia.
  - apply Hok2.
  - apply Hok2.
  - intros id. now apply timersOk_at_most_one.
  - apply snoozeReminder_store.
  - unfold w2, w1. now rewrite !snoozeReminder_store.
Qed.

Example C8_witness :
  let task := exampleTask "a" "A" pending None [reminderAt "r1" 990000] in
  let w := Notifications.worldOf (Notifications.scan 1000000 (worldWith [task])) in
  let w2 := Notifications.snoozeReminder "r1" (Notifications.snoozeReminder "r1" w) in
  In (mkActive "r1" (Some "a") (Some "A") 990000 2) (activeReminders w2) /\
  (forall id, length (pendingFor id w2) <= 1) /\
  store w2 = store w.
Proof.
  intros task w w2.
  assert (Hok : timersOk w) by (split; vm_compute; constructor).
  assert (Hnd : NoDup (activeIds w)).
  { apply (bool_decide_unpack _). vm_compute. exact I. }
  assert (Hin : In (mkActive "r1" (Some "a") (Some "A") 990000 0)
                   (activeReminders w)) by (left; reflexivity).
  destruct (C8_snooze_chaining "r1" _ w Hok Hnd Hin eq_refl)
    as (_ & Hentry & _ & _ & Hone & _ & Hstore).
  repeat split; assumption.
Defined.

Section TimerPreservation.
Import Store Notifications.

Lemma clearTimeout_ok h w : timersOk w -> timersOk (clearTimeout h w).
Proof.
  intros [Hnd Hall]. split; simpl.
  - now apply NoDup_fst_filter.
  - now apply filter_Forall.
Qed.

Lemma dismissReminder_ok reminderId w :
  timersOk w -> timersOk (dismissReminder reminderId w).
Proof.
  intros Hok. unfold dismissReminder.
  destruct (snoozeIntervals w !! reminderId) as [h|] eqn:Hm; [|exact Hok].
  destruct Hok as [Hnd Hall]. split; simpl.
  - now apply NoDup_fst_filter.
  - rewrite List.Forall_forall in *. intros p Hin.
    apply filter_In in Hin. destruct Hin as [Hin Hb].
    destruct (Hall p Hin) as [Hp Hlt]. split; [|assumption].
    rewrite lookup_delete_ne; [assumption|].
    intros Heq. rewrite <- Heq, Hm in Hp. injection Hp as ->.
    rewrite bool_decide_eq_true_2 in Hb by reflexivity. discriminate.
Qed.

(** After a dismissal the reminder has no pending timer. *)
Lemma dismissReminder_none reminderId w :
  timersOk w -> pendingFor reminderId (dismissReminder reminderId w) = [].
Proof.
  intros [_ Hall]. rewrite List.Forall_forall in Hall.
  unfold dismissReminder, pendingFor. apply filter_none. intros p Hin.
  apply bool_decide_eq_false. intros Heq.
  destruct (snoozeIntervals w !! reminderId) as [h|] eqn:Hm; simpl in Hin.
  - apply filter_In in Hin. destruct Hin as [Hin Hb].
    destruct (Hall p Hin) as [Hp _]. rewrite Heq, Hm in Hp. injection Hp as ->.
    rewrite bool_decide_eq_true_2 in Hb by reflexivity. discriminate.
  - destruct (Hall p Hin) as [Hp _]. rewrite Heq, Hm in Hp. discriminate.
Qed.

Lemma elapse_ok h w : timersOk w -> timersOk (elapse h w).
Proof.
  intros Hok. unfold elapse.
  destruct (List.find _ (timeouts w)) as [[h' a]|]; [|exact Hok].
  apply (clearTimeout_ok h) in Hok. unfold showNotification.
  destruct (permission (clearTimeout h w)); exact Hok.
Qed.

Lemma triggerReminder_ok task reminder w :
  timersOk w -> timersOk (worldOf (triggerReminder task reminder w)).
Proof.
  intros Hok. unfold triggerReminder, showNotification.
  destruct (t_reminders task); destruct w as [? ? ? ? ? pm ? ? ? ?];
    destruct pm; exact Hok.
Qed.

Lemma scan_ok now w : timersOk w -> timersOk (worldOf (scan now w)).
Proof.
  unfold scan. apply (checkReminders_inv timersOk).
  intros task reminder w'. apply triggerReminder_ok.
Qed.
End TimerPreservation.

Section CleanupLemmas.
Import Store Notifications.

Lemma clearAll_timeouts (l : list (string * positive)) w q :
  In q (timeouts (foldr (fun (p : string * positive) w => clearTimeout p.2 w)
                        w l)) ->
  In q (timeouts w) /\ forall p, In p l -> q.1 <> p.2.
Proof.
  induction l as [|p l IH]; simpl; intros Hin.
  - split; [assumption|]. intros p [].
  - apply filter_In in Hin. destruct Hin as [Hin Hb].
    destruct (IH Hin) as [Hq Hl]. split; [assumption|].
    intros p' [<-|Hp']; [|now apply Hl].
    apply negb_true_iff, bool_decide_eq_false in Hb. exact Hb.
Qed.

(** The clean-up of the effect leaves no snooze timer pending. *)
Lemma cleanup_timeouts w : timersOk w -> timeouts (cleanup w) = [].
Proof.
  intros [_ Hall]. rewrite List.Forall_forall in Hall.
  unfold cleanup. simpl.
  destruct (timeouts (foldr _ w (map_to_list (snoozeIntervals w))))
    as [|q l] eqn:Htm; [reflexivity|].
  exfalso.
  assert (Hin : In q (timeouts (foldr
                 (fun (p : string * positive) w => clearTimeout p.2 w) w
                 (map_to_list (snoozeIntervals w))))).
  { rewrite Htm. now left. }
  apply clearAll_timeouts in Hin. destruct Hin as [Hq Hl].
  destruct (Hall q Hq) as [Hm _].
  apply elem_of_map_to_list, list_elem_of_In in Hm.
  exact (Hl _ Hm eq_refl).
Qed.

Lemma cleanup_ok w : timersOk w -> timersOk (cleanup w).
Proof.
  intros Hok. unfold timersOk. rewrite (cleanup_timeouts w Hok).
  split; constructor.
Qed.
End CleanupLemmas.

(** ** The derived view: sorting by due date *)

Section SortLemmas.
Context {A : Type} (compare : A -> A -> option Num).
Hypothesis compare_total : forall a b, exists v, compare a b = Some v.

Lemma insertSorted_total x l :
  exists out, insertSorted compare x l = Some out /\ Permutation out (x :: l).
Proof.
  induction l as [|y l IH]; simpl.
  - exists [x]. split; [reflexivity|apply Permutation_refl].
  - destruct (compare_total x y) as [v ->]. simpl.
    destruct (Num.isPos v).
    + destruct IH as (out & -> & Hperm). simpl.
      exists (y :: out). split; [reflexivity|].
      etransitivity; [apply perm_skip; exact Hperm|apply perm_swap].
    + exists (x :: y :: l). split; [reflexivity|apply Permutation_refl].
Qed.

Lemma sortBy_total l :
  exists out, sortBy compare l = Some out /\ Permutation out l.
Proof.
  induction l as [|x l IH]; simpl.
  - exists []. split; [reflexivity|apply Permutation_refl].
  - destruct IH as (r & -> & Hperm). simpl.
    destruct (insertSorted_total x r) as (out & -> & Hperm').
    exists out. split; [reflexivity|].
    etransitivity; [exact Hperm'|]. now apply perm_skip.
Qed.
End SortLemmas.

Section DueDateSort.
Import Store View.
Variable toLowerCase : string -> string.
Variable localeCompare : string -> string -> Z.

Lemma compare_dueDate f a b :
  f_sortBy f = by_dueDate ->
  compareTasks localeCompare f a b
  = Some (match f_sortOrder f with
          | asc => Num.sub (dueKey a) (dueKey b)
          | desc => Num.neg (Num.sub (dueKey a) (dueKey b))
          end).
Proof. intros H. unfold compareTasks, comparison. now rewrite H. Qed.

Lemma dueKey_null a : isNullDue a = true -> dueKey a = PInf.
Proof.
  unfold isNullDue, dueKey. destruct (t_dueDate a) as [[d|]|]; auto.
  discriminate.
Qed.

Lemma dueKey_dated a : isNullDue a = false -> exists d, dueKey a = Fin d.
Proof.
  unfold isNullDue, dueKey. destruct (t_dueDate a) as [[d|]|]; eauto;
    discriminate.
Qed.

Lemma nullsLastR_nullsLast l : nullsLastR l -> nullsLast l.
Proof.
  induction l as [|x l IH]; intros Hl i j a b Hi Hj Ha Hb.
  - destruct i; discriminate.
  - destruct Hl as [Hx Hl]. destruct i as [|i], j as [|j]; simpl in *.
    + congruence.
    + injection Hi as ->. specialize (Hx Ha).
      rewrite List.Forall_forall in Hx.
      apply list_elem_of_lookup_2, list_elem_of_In in Hj.
      specialize (Hx b Hj). simpl in Hx. congruence.
    + lia.
    + specialize (IH Hl i j a b Hi Hj Ha Hb). lia.
Qed.

Lemma nullsFirstR_nullsFirst l : nullsFirstR l -> nullsFirst l.
Proof.
  induction l as [|x l IH]; intros Hl i j a b Hi Hj Ha Hb.
  - destruct i; discriminate.
  - destruct Hl as [Hx Hl]. destruct i as [|i], j as [|j]; simpl in *.
    + congruence.
    + lia.
    + injection Hj as ->. specialize (Hx Hb).
      rewrite List.Forall_forall in Hx.
      apply list_elem_of_lookup_2, list_elem_of_In in Hi.
      specialize (Hx a Hi). simpl in Hx. congruence.
    + specialize (IH Hl i j a b Hi Hj Ha Hb). lia.
Qed.

(** Insertion in ascending order keeps the tasks without date last. *)
Lemma insert_asc f x l out :
  f_sortBy f = by_dueDate -> f_sortOrder f = asc ->
  nullsLastR l ->
  insertSorted (compareTasks localeCompare f) x l = Some out ->
  nullsLastR out.
Proof.
  intros Hby Hord. revert out.
  induction l as [|y l IH]; simpl; intros out Hl Hins.
  - injection Hins as <-. simpl. auto.
  - rewrite (compare_dueDate f x y Hby), Hord in Hins. simpl in Hins.
    destruct Hl as [Hy Hl].
    destruct (Num.isPos (Num.sub (dueKey x) (dueKey y))) eqn:Hpos.
    + destruct (insertSorted _ x l) as [r|] eqn:Hr; [|discriminate].
      injection Hins as <-. simpl. split; [|now apply IH].
      intros Hnull. rewrite (dueKey_null y Hnull) in Hpos.
      destruct (dueKey x); discriminate.
    + injection Hins as <-. simpl. split; [|split; assumption].
      intros Hx. rewrite (dueKey_null x Hx) in Hpos.
      assert (Hny : isNullDue y = true).
      { destruct (isNullDue y) eqn:Hy'; [reflexivity|].
        destruct (dueKey_dated y Hy') as [d Hd]. rewrite Hd in Hpos.
        discriminate. }
      constructor; auto.
Qed.

(** Insertion in descending order keeps the tasks without date first. *)
Lemma insert_desc f x l out :
  f_sortBy f = by_dueDate -> f_sortOrder f = desc ->
  nullsFirstR l ->
  insertSorted (compareTasks localeCompare f) x l = Some out ->
  nullsFirstR out.
Proof.
  intros Hby Hord. revert out.
  induction l as [|y l IH]; simpl; intros out Hl Hins.
  - injection Hins as <-. simpl. auto.
  - rewrite (compare_dueDate f x y Hby), Hord in Hins. simpl in Hins.
    destruct Hl as [Hy Hl].
    destruct (Num.isPos (Num.neg (Num.sub (dueKey x) (dueKey y)))) eqn:Hpos.
    + destruct (insertSorted _ x l) as [r|] eqn:Hr; [|discriminate].
      injection Hins as <-. simpl. split; [|now apply IH].
      intros Hdated. specialize (Hy Hdated).
      assert (Hx : isNullDue x = false).
      { destruct (isNullDue x) eqn:Hx'; [|reflexivity].
        rewrite (dueKey_null x Hx') in Hpos.
        destruct (dueKey y); discriminate. }
      destruct (insertSorted_total (compareTasks localeCompare f)
                  (fun a b => ex_intro _ _ (compare_dueDate f a b Hby)) x l)
        as (r' & Hr' & Hperm).
      rewrite Hr in Hr'. injection Hr' as <-.
      rewrite List.Forall_forall in *. intros t Ht.
      apply (Permutation_in _ Hperm) in Ht. destruct Ht as [<-|Ht]; auto.
    + injection Hins as <-. simpl. split; [|split; assumption].
      intros Hx. destruct (dueKey_dated x Hx) as [d Hd]. rewrite Hd in Hpos.
      assert (Hdy : isNullDue y = false).
      { destruct (isNullDue y) eqn:Hy'; [|reflexivity].
        rewrite (dueKey_null y Hy') in Hpos. discriminate. }
      constructor; auto.
Qed.

Lemma sortBy_asc f l out :
  f_sortBy f = by_dueDate -> f_sortOrder f = asc ->
  sortBy (compareTasks localeCompare f) l = Some out -> nullsLastR out.
Proof.
  intros Hby Hord. revert out. induction l as [|x l IH]; simpl; intros out Hs.
  - injection Hs as <-. exact I.
  - destruct (sortBy _ l) as [r|]; [|discriminate]. simpl in Hs.
    eapply insert_asc; eauto.
Qed.

Lemma sortBy_desc f l out :
  f_sortBy f = by_dueDate -> f_sortOrder f = desc ->
  sortBy (compareTasks localeCompare f) l = Some out -> nullsFirstR out.
Proof.
  intros Hby Hord. revert out. induction l as [|x l IH]; simpl; intros out Hs.
  - injection Hs as <-. exact I.
  - destruct (sortBy _ l) as [r|]; [|discriminate]. simpl in Hs.
    eapply insert_desc; eauto.
Qed.

(** Without search text no filter throws. *)
Lemma applyFilters_no_search s :
  f_search (filters s) = "" ->
  exists filtered, applyFilters toLowerCase s = Some filtered.
Proof.
  intros H. unfold applyFilters. rewrite H.
  rewrite bool_decide_eq_true_2 by reflexivity. eauto.
Qed.
End DueDateSort.

(** C5 (amended): when the filters do not throw, [getFilteredTasks] sorted by
    due date returns a permutation of the filtered tasks in which, for the
    ascending order, every task without due date comes after every task with
    one, and, for the descending order, before every task with one: the
    comparison is negated as a whole, so [Infinity] sorts first. *)
Theorem C5_due_date_nulls (toLowerCase : string -> string)
  (localeCompare : string -> string -> Z) (s : Store.TaskStore)
  (filtered : list Task) :
  f_sortBy (Store.filters s) = by_dueDate ->
  View.applyFilters toLowerCase s = Some filtered ->
  exists out,
    View.getFilteredTasks toLowerCase localeCompare s = Some out /\
    Permutation out filtered /\
    (f_sortOrder (Store.filters s) = asc -> nullsLast out) /\
    (f_sortOrder (Store.filters s) = desc -> nullsFirst out).
Proof.
  intros Hby Hfilt. unfold View.getFilteredTasks. rewrite Hfilt. simpl.
  destruct (sortBy_total (View.compareTasks localeCompare (Store.filters s))
              (fun a b => ex_intro _ _ (compare_dueDate localeCompare _ a b Hby))
              filtered) as (out & Hsort & Hperm).
  exists out. repeat split; try assumption.
  - intros Hord. eapply nullsLastR_nullsLast, sortBy_asc; eauto.
  - intros Hord. eapply nullsFirstR_nullsFirst, sortBy_desc; eauto.
Qed.

Example C5_witness :
  let s := byDueDate asc [datedTask "n1" None; datedTask "d9" (Some 9%Z);
                          datedTask "n2" None; datedTask "d5" (Some 5%Z)] in
  exists out,
    View.getFilteredTasks (fun x => x) (fun _ _ => 0%Z) s = Some out /\
    Permutation out (Store.tasks s) /\
    (f_sortOrder (Store.filters s) = asc -> nullsLast out) /\
    (f_sortOrder (Store.filters s) = desc -> nullsFirst out).
Proof.
  intros s.
  apply (C5_due_date_nulls (fun x => x) (fun _ _ => 0%Z) s (Store.tasks s));
    reflexivity.
Defined.

(** C5, as stated, fails for the descending order: the task without due date
    is placed before the task with one. *)
Example C5_counterexample :
  let dated := datedTask "d5" (Some 5%Z) in
  let undated := datedTask "n1" None in
  View.getFilteredTasks (fun x => x) (fun _ _ => 0%Z)
    (byDueDate desc [dated; undated]) = Some [undated; dated] /\
  ~ nullsLast [undated; dated].
Proof.
  intros dated undated. split; [reflexivity|].
  intros H. specialize (H 0 1 undated dated eq_refl eq_refl eq_refl eq_refl).
  lia.
Qed.

(** * Further properties *)

(** ** The store as a keyed collection *)

Section KeyedCache.
Import Store.

Lemma patchEntry_id id updates t :
  keepsId id updates -> t_id (patchEntry id updates t) = t_id t.
Proof.
  intros Hk. unfold patchEntry. destruct (idIs id t) eqn:Hb; [|reflexivity].
  apply idIs_true in Hb. destruct (isFullTask updates) eqn:Hfull.
  - destruct Hk as [Hu|Hu]; [|congruence].
    unfold isFullTask in Hfull. rewrite Hu in Hfull. discriminate.
  - simpl. destruct Hk as [Hu|Hu]; rewrite Hu; [reflexivity|].
    rewrite Hb. now destruct id.
Qed.

Lemma patch_ids id updates ts :
  keepsId id updates -> ids (map (patchEntry id updates) ts) = ids ts.
Proof.
  intros Hk. unfold ids. rewrite map_map. apply map_ext.
  intros t. now apply patchEntry_id.
Qed.

Lemma idIs_patch id' id updates t :
  keepsId id updates -> idIs id' (patchEntry id updates t) = idIs id' t.
Proof. intros Hk. unfold idIs. now rewrite patchEntry_id. Qed.

Lemma find_patch id' id updates ts :
  keepsId id updates ->
  List.find (idIs id') (map (patchEntry id updates) ts)
  = patchEntry id updates <$> List.find (idIs id') ts.
Proof.
  intros Hk. induction ts as [|t ts IH]; simpl; [reflexivity|].
  rewrite idIs_patch by assumption. now destruct (idIs id' t).
Qed.

Lemma find_filter_other id' id ts :
  id' <> id ->
  List.find (idIs id') (List.filter (fun t => negb (idIs id t)) ts)
  = List.find (idIs id') ts.
Proof.
  intros Hne. induction ts as [|t ts IH]; simpl; [reflexivity|].
  destruct (idIs id t) eqn:Hid; simpl.
  - apply idIs_true in Hid.
    assert (Hb : idIs id' t = false) by (apply idIs_false; congruence).
    now rewrite Hb.
  - now destruct (idIs id' t).
Qed.

Lemma find_filter_same id ts :
  List.find (idIs id) (List.filter (fun t => negb (idIs id t)) ts) = None.
Proof.
  induction ts as [|t ts IH]; simpl; [reflexivity|].
  destruct (idIs id t) eqn:Hid; simpl; [assumption|]. now rewrite Hid.
Qed.

Lemma over_over {A} (u t : option A) : over u (over u t) = over u t.
Proof. now destruct u. Qed.

Lemma spread_spread t updates :
  spread (spread t updates) updates = spread t updates.
Proof. unfold spread. simpl. now rewrite !over_over. Qed.

Lemma patchEntry_twice id updates t :
  keepsId id updates ->
  patchEntry id updates (patchEntry id updates t) = patchEntry id updates t.
Proof.
  intros Hk. unfold patchEntry at 1. rewrite idIs_patch by assumption.
  unfold patchEntry. destruct (idIs id t); [|reflexivity].
  destruct (isFullTask updates); [reflexivity|apply spread_spread].
Qed.

Lemma patchEntry_other id updates t :
  idIs id t = false -> patchEntry id updates t = t.
Proof. intros H. unfold patchEntry. now rewrite H. Qed.

Lemma patchEntry_comm i j u v t :
  i <> j -> keepsId i u -> keepsId j v ->
  patchEntry i u (patchEntry j v t) = patchEntry j v (patchEntry i u t).
Proof.
  intros Hne Hu Hv.
  destruct (idIs i t) eqn:Hi, (idIs j t) eqn:Hj.
  - apply idIs_true in Hi, Hj. congruence.
  - rewrite (patchEntry_other j v t Hj).
    rewrite (patchEntry_other j v (patchEntry i u t)); [reflexivity|].
    now rewrite idIs_patch.
  - rewrite (patchEntry_other i u t Hi).
    rewrite (patchEntry_other i u (patchEntry j v t)); [reflexivity|].
    now rewrite idIs_patch.
  - rewrite (patchEntry_other j v t Hj), (patchEntry_other i u t Hi).
    now rewrite (patchEntry_other j v t Hj).
Qed.
End KeyedCache.

(** X1: a patch of the store never adds or removes an entry, and when the
    update carries no other identifier the identifiers of the cache stay as
    they are, in order: unique identifiers stay unique. *)
Theorem patch_keeps_entries_and_ids (id : option string) (updates : Task)
  (s : Store.TaskStore) :
  length (Store.tasks (Store.updateTaskOptimistic id updates s))
  = length (Store.tasks s) /\
  (keepsId id updates ->
   ids (Store.tasks (Store.updateTaskOptimistic id updates s))
   = ids (Store.tasks s)) /\
  Store.filters (Store.updateTaskOptimistic id updates s) = Store.filters s.
Proof.
  repeat split.
  - simpl. apply length_map.
  - intros Hk. simpl. now apply patch_ids.
Qed.

Example patch_keeps_entries_and_ids_witness :
  ids (Store.tasks (Store.updateTaskOptimistic (Some "a") (titlePatch "B")
                      (store (worldWith [exampleTask "a" "A" pending None [];
                                         exampleTask "b" "B" pending None []]))))
  = [Some "a"; Some "b"].
Proof.
  apply (patch_keeps_entries_and_ids (Some "a") (titlePatch "B")
           (store (worldWith [exampleTask "a" "A" pending None [];
                              exampleTask "b" "B" pending None []]))).
  left. reflexivity.
Defined.

(** X2: looking an identifier up after an operation of the store.  After an
    insert the new entry is found under its identifier, before any older
    entry with it, and the other identifiers are found as before; after a
    removal nothing is found under the removed identifier and the others are
    found as before; after a patch that keeps identifiers, what is found is
    the patched version of what was found. *)
Theorem cache_lookup_laws (s : Store.TaskStore) (id id' : string) :
  (forall t, t_id t = Some id ->
             lookupTask id (Store.addTaskOptimistic t s) = Some t) /\
  (forall t, t_id t <> Some id ->
             lookupTask id (Store.addTaskOptimistic t s) = lookupTask id s) /\
  lookupTask id (Store.deleteTaskOptimistic id s) = None /\
  (id' <> id ->
   lookupTask id' (Store.deleteTaskOptimistic id s) = lookupTask id' s) /\
  (forall updates,
      keepsId (Some id) updates ->
      lookupTask id' (Store.updateTaskOptimistic (Some id) updates s)
      = Store.patchEntry (Some id) updates <$> lookupTask id' s).
Proof.
  unfold lookupTask. repeat split.
  - intros t Ht. simpl. apply idIs_true in Ht. now rewrite Ht.
  - intros t Ht. simpl. apply idIs_false in Ht. now rewrite Ht.
  - simpl. apply find_filter_same.
  - intros Hne. simpl. apply find_filter_other. congruence.
  - intros updates Hk. simpl. now apply find_patch.
Qed.

Example cache_lookup_laws_witness :
  let s := store (worldWith [exampleTask "a" "A" pending None [];
                             exampleTask "b" "B" pending None []]) in
  lookupTask "b" (Store.deleteTaskOptimistic "a" s) = lookupTask "b" s.
Proof.
  intros s.
  destruct (cache_lookup_laws s "a" "b") as (_ & _ & _ & H & _).
  apply H. discriminate.
Defined.

(** X3: patches of two different identifiers commute, when neither update
    carries another identifier: the order in which two tasks are updated does
    not show in the cache. *)
Theorem patches_of_different_ids_commute (i j : option string) (u v : Task)
  (s : Store.TaskStore) :
  i <> j -> keepsId i u -> keepsId j v ->
  Store.updateTaskOptimistic i u (Store.updateTaskOptimistic j v s)
  = Store.updateTaskOptimistic j v (Store.updateTaskOptimistic i u s).
Proof.
  intros Hne Hu Hv. destruct s as [ts f l n].
  unfold Store.updateTaskOptimistic, Store.withTasks. simpl. f_equal.
  rewrite !map_map. apply map_ext. intros t. now apply patchEntry_comm.
Qed.

Example patches_of_different_ids_commute_witness :
  let s := store (worldWith [exampleTask "a" "A" pending None [];
                             exampleTask "b" "B" pending None []]) in
  Store.updateTaskOptimistic (Some "a") (titlePatch "X")
    (Store.updateTaskOptimistic (Some "b") (statusPatch completed) s)
  = Store.updateTaskOptimistic (Some "b") (statusPatch completed)
      (Store.updateTaskOptimistic (Some "a") (titlePatch "X") s).
Proof.
  intros s. apply patches_of_different_ids_commute.
  - discriminate.
  - left. reflexivity.
  - left. reflexivity.
Defined.

(** X4: applying the same patch twice is applying it once, when the update
    carries no other identifier. *)
Theorem patch_is_idempotent (id : option string) (updates : Task)
  (s : Store.TaskStore) :
  keepsId id updates ->
  Store.updateTaskOptimistic id updates (Store.updateTaskOptimistic id updates s)
  = Store.updateTaskOptimistic id updates s.
Proof.
  intros Hk. destruct s as [ts f l n].
  unfold Store.updateTaskOptimistic, Store.withTasks. simpl. f_equal.
  rewrite map_map. apply map_ext. intros t. now apply patchEntry_twice.
Qed.

Example patch_is_idempotent_witness :
  let s := store (worldWith [exampleTask "a" "A" pending None []]) in
  Store.updateTaskOptimistic (Some "a") (titlePatch "X")
    (Store.updateTaskOptimistic (Some "a") (titlePatch "X") s)
  = Store.updateTaskOptimistic (Some "a") (titlePatch "X") s.
Proof.
  intros s. apply patch_is_idempotent. left. reflexivity.
Defined.

(** ** Invariants of the Sync Coordinator *)

Section SyncInvariants.
Import Store Sync.

Lemma NoDup_ids_filter (f : Task -> bool) ts :
  NoDup (ids ts) -> NoDup (ids (List.filter f ts)).
Proof.
  unfold ids. induction ts as [|t ts IH]; simpl; intros Hnd; [assumption|].
  apply NoDup_cons in Hnd. destruct Hnd as [Hnotin Hnd].
  destruct (f t); simpl; [|auto].
  apply NoDup_cons. split; [|auto].
  intros Hin. apply Hnotin.
  rewrite list_elem_of_In, in_map_iff in *.
  destruct Hin as (t' & Ht' & Hin). apply filter_In in Hin.
  exists t'. tauto.
Qed.

Lemma filtered_absent id ts :
  absent id (List.filter (fun t => negb (idIs id t)) ts).
Proof.
  apply List.Forall_forall. intros t Hin. apply filter_In in Hin.
  destruct Hin as [_ Hb]. apply negb_true_iff in Hb. now apply idIs_false.
Qed.

Lemma has_over {A} (u t : option A) : has t = true -> has (over u t) = true.
Proof. now destruct u. Qed.

Lemma isTask_spread t updates :
  isTask t = true -> isTask (spread t updates) = true.
Proof.
  unfold isTask, spread. simpl. rewrite !andb_true_iff.
  intuition (auto using has_over).
Qed.

Lemma optimisticTask_isTask uuid now taskData :
  formShaped taskData = true -> isTask (optimisticTask uuid now taskData) = true.
Proof.
  unfold formShaped, isTask, optimisticTask. simpl. rewrite !andb_true_iff.
  intuition auto.
Qed.

Lemma patch_sound_Forall id updates ts :
  soundUpdate updates -> allTasks ts ->
  allTasks (map (patchEntry id updates) ts).
Proof.
  intros Hs Hts. unfold allTasks in *.
  induction Hts as [|t ts Ht _ IH]; simpl; constructor; [|assumption].
  unfold patchEntry. destruct (idIs id t); [|assumption].
  destruct (isFullTask updates) eqn:Hfull; [now apply Hs|].
  now apply isTask_spread.
Qed.

Lemma togglePatch_keepsId now task id : keepsId id (togglePatch now task).
Proof. left. reflexivity. Qed.

Lemma togglePatch_sound now task : soundUpdate (togglePatch now task).
Proof. intros H. discriminate. Qed.

(** The identifiers after [updateTask], whatever the outcome. *)
Lemma updateTask_ids user id updates remote w :
  keepsId (Some id) updates ->
  ids (tasks (store (updateTask user id updates remote w).2))
  = ids (tasks (store w)).
Proof.
  intros Hk. unfold updateTask. destruct user as [u|]; [|reflexivity].
  destruct (findTask id w) as [original|] eqn:Hfind; [|reflexivity].
  destruct remote as [message|x]; simpl.
  - apply find_idIs in Hfind. destruct Hfind as [_ Hid].
    rewrite !patch_ids; auto. now right.
  - now apply patch_ids.
Qed.

Lemma updateTask_allTasks user id updates remote w :
  soundUpdate updates -> allTasks (tasks (store w)) ->
  allTasks (tasks (store (updateTask user id updates remote w).2)).
Proof.
  intros Hs Hall. unfold updateTask. destruct user as [u|]; [|assumption].
  destruct (findTask id w) as [original|] eqn:Hfind; [|assumption].
  assert (Horig : isTask original = true).
  { exact (find_Forall _ _ _ _ Hall Hfind). }
  destruct remote as [message|x]; simpl.
  - apply patch_sound_Forall; [now intros _|].
    now apply patch_sound_Forall.
  - now apply patch_sound_Forall.
Qed.
End SyncInvariants.

(** X5: the operations of the Sync Coordinator keep the identifiers of the
    cache unique, whatever the outcome of the request: [addTask] when its
    temporary identifier is fresh and the identifier of the server is neither
    in the cache nor the temporary one, [updateTask] (which leaves the list
    of identifiers as it is) when the update carries no other identifier,
    [deleteTask] also when it puts the entry back, and [toggleTaskStatus]. *)
Theorem sync_keeps_ids_unique (w : World) :
  NoDup (ids (Store.tasks (store w))) ->
  (forall user uuid now taskData remote,
      absent (Some uuid) (Store.tasks (store w)) ->
      (forall row profile, remote = Success (row, profile) ->
         absent (Some (row_id row)) (Store.tasks (store w)) /\
         row_id row <> uuid) ->
      NoDup (ids (Store.tasks
                    (store (Sync.addTask user uuid now taskData remote w).2)))) /\
  (forall user id updates remote,
      keepsId (Some id) updates ->
      ids (Store.tasks (store (Sync.updateTask user id updates remote w).2))
      = ids (Store.tasks (store w))) /\
  (forall user id remote,
      NoDup (ids (Store.tasks (store (Sync.deleteTask user id remote w).2)))) /\
  (forall user now id remote,
      ids (Store.tasks (store (Sync.toggleTaskStatus user now id remote w).2))
      = ids (Store.tasks (store w))).
Proof.
  intros Hnd. repeat split.
  - intros user uuid now taskData remote Hfresh Hsrv.
    destruct user as [u|]; [|assumption].
    destruct remote as [message|[row profile]].
    + rewrite addTask_failure. simpl. unfold Store.idIs at 1. simpl.
      rewrite bool_decide_eq_true_2 by reflexivity. simpl.
      now rewrite filter_absent.
    + destruct (Hsrv row profile eq_refl) as [Habs Hne].
      destruct (addTask_success u uuid now taskData row profile w) as [_ ->].
      unfold Store.updateTaskOptimistic, Store.addTaskOptimistic.
      unfold Store.withTasks at 1. cbn [Store.tasks].
      unfold Store.withTasks. cbn [Store.tasks].
      rewrite reconcile_entry by (auto; reflexivity).
      unfold ids. simpl. apply NoDup_cons. split; [|assumption].
      now apply absent_notin.
  - intros user id updates remote Hk. now apply updateTask_ids.
  - intros user id remote. unfold Sync.deleteTask.
    destruct user as [u|]; [|assumption].
    assert (Hf : NoDup (ids (List.filter
                               (fun t => negb (Store.idIs (Some id) t))
                               (Store.tasks (store w))))).
    { now apply NoDup_ids_filter. }
    destruct remote as [message|x]; [|exact Hf].
    destruct (Sync.findTask id w) as [original|] eqn:Hfind; [|exact Hf].
    simpl. unfold ids. simpl. apply NoDup_cons. split; [|exact Hf].
    apply find_idIs in Hfind. destruct Hfind as [_ ->].
    apply absent_notin, filtered_absent.
  - intros user now id remote. unfold Sync.toggleTaskStatus.
    destruct (Sync.findTask id w); [|reflexivity].
    apply updateTask_ids, togglePatch_keepsId.
Qed.

Example sync_keeps_ids_unique_witness :
  let w := worldWith [exampleTask "a" "A" pending None [];
                      exampleTask "b" "B" pending None []] in
  NoDup (ids (Store.tasks
                (store (Sync.deleteTask (Some "u") "a" (Failure "offline") w).2))).
Proof.
  intros w.
  assert (Hnd : NoDup (ids (Store.tasks (store w)))).
  { apply (bool_decide_unpack _). vm_compute. exact I. }
  destruct (sync_keeps_ids_unique w Hnd) as (_ & _ & Hdel & _).
  apply Hdel.
Defined.

(** X6: the operations of the Sync Coordinator keep the entries of the cache
    objects of interface [Task], whatever the outcome of the request:
    [addTask] when the data has the properties the form fills in,
    [updateTask] when the update is not taken for a full [Task] without being
    one, [deleteTask] and [toggleTaskStatus]. *)
Theorem sync_keeps_task_objects (w : World) :
  allTasks (Store.tasks (store w)) ->
  (forall user uuid now taskData remote,
      formShaped taskData = true ->
      allTasks (Store.tasks
                  (store (Sync.addTask user uuid now taskData remote w).2))) /\
  (forall user id updates remote,
      soundUpdate updates ->
      allTasks (Store.tasks
                  (store (Sync.updateTask user id updates remote w).2))) /\
  (forall user id remote,
      allTasks (Store.tasks (store (Sync.deleteTask user id remote w).2))) /\
  (forall user now id remote,
      allTasks (Store.tasks
                  (store (Sync.toggleTaskStatus user now id remote w).2))).
Proof.
  intros Hall. repeat split.
  - intros user uuid now taskData remote Hform.
    destruct user as [u|]; [|assumption].
    assert (Hopt : allTasks (Sync.optimisticTask uuid now taskData
                             :: Store.tasks (store w))).
    { constructor; [now apply optimisticTask_isTask | assumption]. }
    destruct remote as [message|[row profile]].
    + rewrite addTask_failure. now apply filter_Forall.
    + destruct (addTask_success u uuid now taskData row profile w) as [_ ->].
      apply patch_sound_Forall; [now intros _ | assumption].
  - intros user id updates remote Hs. now apply updateTask_allTasks.
  - intros user id remote. unfold Sync.deleteTask.
    destruct user as [u|]; [|assumption].
    assert (Hf : allTasks (List.filter
                             (fun t => negb (Store.idIs (Some id) t))
                             (Store.tasks (store w)))).
    { now apply filter_Forall. }
    destruct remote as [message|x]; [|exact Hf].
    destruct (Sync.findTask id w) as [original|] eqn:Hfind; [|exact Hf].
    constructor; [|exact Hf]. exact (find_Forall _ _ _ _ Hall Hfind).
  - intros user now id remote. unfold Sync.toggleTaskStatus.
    destruct (Sync.findTask id w); [|assumption].
    apply updateTask_allTasks; [apply togglePatch_sound | assumption].
Qed.

Example sync_keeps_task_objects_witness :
  let w := worldWith [exampleTask "a" "A" pending None []] in
  allTasks (Store.tasks
              (store (Sync.addTask (Some "u") "tmp1" 5%Z (exampleForm "N")
                        (Failure "offline") w).2)).
Proof.
  intros w.
  assert (Hall : allTasks (Store.tasks (store w))) by (repeat constructor).
  destruct (sync_keeps_task_objects w Hall) as (Hadd & _).
  apply Hadd. reflexivity.
Defined.

(** X7: without a signed-in user [updateTask], [deleteTask] and
    [toggleTaskStatus] return [false] and do nothing at all.  For an
    identifier that no entry has, [updateTask] and [toggleTaskStatus] likewise
    send nothing and change nothing, while [deleteTask] still sends its delete
    request, leaves the store as it is, and returns the outcome of the
    request. *)
Theorem nothing_without_user_or_entry (w : World) :
  (forall id updates remote,
      Sync.updateTask None id updates remote w = (false, w)) /\
  (forall id remote, Sync.deleteTask None id remote w = (false, w)) /\
  (forall now id remote, Sync.toggleTaskStatus None now id remote w = (false, w)) /\
  (forall user id,
      absent (Some id) (Store.tasks (store w)) ->
      (forall updates remote,
          Sync.updateTask user id updates remote w = (false, w)) /\
      (forall now remote,
          Sync.toggleTaskStatus user now id remote w = (false, w)) /\
      (forall u remote,
          let r := Sync.deleteTask (Some u) id remote w in
          store r.2 = store w /\
          requests r.2 = (requests w ++ [ReqDelete id])%list /\
          r.1 = match remote with Success _ => true | Failure _ => false end)).
Proof.
  repeat split.
  - intros now id remote. unfold Sync.toggleTaskStatus.
    now destruct (Sync.findTask id w).
  - intros updates remote. apply updateTask_not_found.
    now apply find_absent.
  - intros now remote. unfold Sync.toggleTaskStatus, Sync.findTask.
    now rewrite find_absent.
  - unfold Sync.deleteTask, Sync.findTask. rewrite find_absent by assumption.
    destruct w as [[ts f l i] act si tm nt pm tos ns rq fr].
    destruct remote; simpl in *;
      unfold Store.deleteTaskOptimistic, Store.withTasks; simpl;
      now rewrite filter_absent.
  - unfold Sync.deleteTask, Sync.findTask. rewrite find_absent by assumption.
    now destruct remote.
  - unfold Sync.deleteTask. now destruct remote.
Qed.

Example nothing_without_user_or_entry_witness :
  let w := worldWith [exampleTask "a" "A" pending None []] in
  Sync.updateTask (Some "u") "zz" (titlePatch "B") (Success tt) w = (false, w).
Proof.
  intros w.
  destruct (nothing_without_user_or_entry w) as (_ & _ & _ & H).
  destruct (H (Some "u") "zz") as (Hupd & _).
  - repeat constructor. simpl. discriminate.
  - apply Hupd.
Defined.

Section EchoLemmas.
Import Store Sync.

Lemma textOr_empty d : textOr (Some d) "" = d.
Proof.
  unfold textOr, truthy, str. simpl.
  destruct (bool_decide (d = "")) eqn:Hb; simpl; [|reflexivity].
  now apply bool_decide_eq_true in Hb.
Qed.

Lemma textOr_nonempty c fallback : c <> "" -> textOr (Some c) fallback = c.
Proof.
  intros Hc. unfold textOr, truthy, str. simpl.
  now rewrite bool_decide_eq_false_2.
Qed.
End EchoLemmas.

(** X8: when the row that the Remote Store returns carries the values of the
    insert payload, the record that replaces the optimistic entry differs from
    it in the identifier, the creation date and the name of the assignee only:
    nothing that the form supplied changes at reconciliation.  The data has
    the properties the form fills in, a non-empty category, and an assignee
    that is null or a non-empty identifier. *)
Theorem reconciled_record_agrees_with_optimistic (u uuid : string) (now : Z)
  (taskData : Task) (row : Row) (name : option string) :
  formShaped taskData = true ->
  t_category taskData <> Some "" ->
  assigneeNormal taskData ->
  echoes (Sync.insertPayload u taskData) row ->
  let optimistic := Sync.optimisticTask uuid now taskData in
  Sync.dbToTask row name
  = mkTask (Some (row_id row)) (t_title optimistic) (t_description optimistic)
           (t_priority optimistic) (t_status optimistic) (t_dueDate optimistic)
           (t_category optimistic) (t_tags optimistic)
           (t_estimatedMinutes optimistic) (Some (row_created_at row))
           (t_completedAt optimistic) (t_reminders optimistic)
           (t_assignedTo optimistic) name.
Proof.
  intros Hform Hcat (a & Ha & Hnorm)
         (Ht & Hd & Hp & Hs & Hdue & Hc & Htags & Hest & Hcompl & Hassign).
  unfold formShaped in Hform. rewrite !andb_true_iff in Hform.
  destruct Hform as ((((((Hf1 & Hf2) & Hf3) & Hf4) & Hf5) & Hf6) & Hf7).
  destruct taskData as [i ti de pr st du ca ta es cr co re asg an].
  simpl in *. subst asg.
  destruct ti as [ti|], de as [de|], pr as [pr|], du as [du|], ca as [ca|],
           ta as [ta|], es as [es|]; try discriminate.
  simpl in *. unfold Sync.dbToTask.
  injection Ht as <-. injection Hp as <-.
  rewrite Hd, Hs, Hdue, Hc, Htags, Hest, Hcompl, Hassign. simpl.
  rewrite !textOr_empty, Hnorm, Hnorm.
  rewrite (textOr_nonempty ca) by congruence.
  reflexivity.
Qed.

Example reconciled_record_agrees_with_optimistic_witness :
  Sync.dbToTask
    (mkRow "srv1" "N" (Some "") medium pending None (Some "Work") (Some ["x"])
           None 7%Z None None) None
  = mkTask (Some "srv1") (Some "N") (Some "") (Some medium) (Some pending)
           (Some None) (Some "Work") (Some ["x"]) (Some None) (Some 7%Z)
           (Some None) (Some []) (Some None) None.
Proof.
  apply (reconciled_record_agrees_with_optimistic "u" "tmp1" 5%Z
           (exampleForm "N")
           (mkRow "srv1" "N" (Some "") medium pending None (Some "Work")
                  (Some ["x"]) None 7%Z None None) None).
  - reflexivity.
  - discriminate.
  - exists None. split; reflexivity.
  - repeat split.
Defined.

(** X9: the full reload of a signed-in user.  When the request fails the
    tasks of the cache stay as they are and one error notice is shown; when it
    succeeds the cache becomes the records of the rows, in the order of the
    rows, whatever it held, all of them [Task] objects without reminders.
    Either way the store ends not loading and initialized. *)
Theorem reload_replaces_or_keeps (u : string) (w : World) :
  (forall message,
      let w' := Sync.fetchTasks (Some u) (Failure message) w in
      Store.tasks (store w') = Store.tasks (store w) /\
      toasts w' = (toasts w ++ [mkToast "Error loading tasks" (Some message)
                                        true None])%list) /\
  (forall rows profiles,
      let w' := Sync.fetchTasks (Some u) (Success (rows, profiles)) w in
      ids (Store.tasks (store w')) = map (fun row => Some (row_id row)) rows /\
      allTasks (Store.tasks (store w')) /\
      noReminders (Store.tasks (store w')) /\
      toasts w' = toasts w) /\
  (forall remote,
      let w' := Sync.fetchTasks (Some u) remote w in
      Store.isLoading (store w') = false /\
      Store.isInitialized (store w') = true /\
      Store.filters (store w') = Store.filters (store w)).
Proof.
  repeat split.
  - simpl. unfold ids. rewrite map_map. reflexivity.
  - simpl. apply List.Forall_forall. intros t Hin.
    apply in_map_iff in Hin. now destruct Hin as (row & <- & _).
  - simpl. apply List.Forall_forall. intros t Hin.
    apply in_map_iff in Hin. now destruct Hin as (row & <- & _).
  - destruct remote as [message|[rows profiles]]; reflexivity.
Qed.

(** ** What a scan does, as a whole *)

Section ScanAsFold.
Import Store Notifications.

Lemma fireAll_app calls1 calls2 w :
  fireAll (calls1 ++ calls2) w = fireAll calls2 (fireAll calls1 w).
Proof. unfold fireAll. apply foldl_app. Qed.

Lemma reminders_loop_fold now task rs part w :
  t_reminders task = Some rs ->
  forEach (fun reminder w =>
             if r_triggered reminder then Done w else
             if inWindow now reminder then triggerReminder task reminder w
             else Done w) part w
  = Done (fireAll (map (pair task) (List.filter (dueb now) part)) w).
Proof.
  intros Hrs. revert w. induction part as [|r part IH]; intros w; simpl;
    [reflexivity|].
  unfold dueb at 1. destruct (r_triggered r); simpl; [apply IH|].
  destruct (inWindow now r); simpl; [|apply IH].
  destruct (triggerReminder_done task r rs w Hrs) as (w1 & Hw1 & _).
  rewrite Hw1. simpl. apply IH.
Qed.

(** A scan is the firing of the due reminders, in the order of the cache. *)
Lemma checkReminders_fold now ts w :
  haveReminders ts ->
  checkReminders now ts w = Done (fireAll (dueCalls now ts) w).
Proof.
  intros Hts. revert w. unfold checkReminders.
  induction Hts as [|task ts Htask _ IH]; intros w; simpl; [reflexivity|].
  destruct (bool_decide (t_status task = Some completed)); [apply IH|].
  unfold remindersOf.
  destruct (t_reminders task) as [rs|] eqn:Hrs; [|congruence]. simpl.
  rewrite (reminders_loop_fold now task rs rs w Hrs), fireAll_app.
  apply IH.
Qed.

Lemma triggerReminder_effects task reminder w :
  let w' := worldOf (triggerReminder task reminder w) in
  toasts w' = (toasts w ++ [firingToast (task, reminder)])%list /\
  notifications w'
  = (notifications w ++
     match permission w with
     | granted => [firingNotification (task, reminder)]
     | _ => []
     end)%list /\
  permission w' = permission w /\
  timeouts w' = timeouts w /\ snoozeIntervals w' = snoozeIntervals w /\
  nextTimer w' = nextTimer w /\ requests w' = requests w.
Proof.
  unfold triggerReminder, showNotification.
  destruct (t_reminders task); destruct w as [? ? ? ? ? pm ? ? ? ?];
    destruct pm; simpl; rewrite ?app_nil_r; repeat split.
Qed.

Lemma fireAll_effects calls w :
  let w' := fireAll calls w in
  toasts w' = (toasts w ++ map firingToast calls)%list /\
  notifications w'
  = (notifications w ++
     match permission w with
     | granted => map firingNotification calls
     | _ => []
     end)%list /\
  permission w' = permission w /\
  timeouts w' = timeouts w /\ snoozeIntervals w' = snoozeIntervals w /\
  nextTimer w' = nextTimer w /\ requests w' = requests w.
Proof.
  revert w. induction calls as [|[task reminder] calls IH]; intros w.
  - simpl. rewrite !app_nil_r. destruct (permission w); rewrite ?app_nil_r;
      repeat split.
  - cbn zeta. change (fireAll ((task, reminder) :: calls) w)
      with (fireAll calls (worldOf (triggerReminder task reminder w))).
    destruct (triggerReminder_effects task reminder w)
      as (Ht & Hn & Hp & Htm & Hsi & Hnt & Hrq).
    destruct (IH (worldOf (triggerReminder task reminder w)))
      as (Ht' & Hn' & Hp' & Htm' & Hsi' & Hnt' & Hrq').
    rewrite Ht', Hn', Hp', Htm', Hsi', Hnt', Hrq', Ht, Hn, Hp, Htm, Hsi, Hnt, Hrq.
    simpl. rewrite <- !app_assoc.
    destruct (permission w); repeat split.
Qed.
End ScanAsFold.

Section ScanActive.
Import Store Notifications.

(** The Active Reminder entries after the calls are those before them and
    those of the calls. *)
Lemma fireAll_active_from calls w id :
  In id (activeIds (fireAll calls w)) ->
  In id (activeIds w) \/ exists p, In p calls /\ r_id p.2 = id.
Proof.
  revert w. induction calls as [|[task reminder] calls IH]; intros w H.
  - now left.
  - change (fireAll ((task, reminder) :: calls) w)
      with (fireAll calls (worldOf (triggerReminder task reminder w))) in H.
    apply IH in H. destruct H as [H | (p & Hp & Hid)].
    + unfold activeIds in H. rewrite triggerReminder_active in H.
      unfold addActive in H.
      destruct (existsb _ (activeReminders w)); [now left|].
      rewrite map_app in H. apply in_app_or in H.
      destruct H as [H | [H | []]]; [now left|].
      right. exists (task, reminder). split; [now left | exact H].
    + right. exists p. split; [now right | assumption].
Qed.
End ScanActive.

(** C3: a scan at [now] of a cache whose entries have their reminders runs to
    its end and fires exactly the reminders whose task is not completed, whose
    flag is false and whose time [t] satisfies [now - 60s < t <= now].  To
    fire is what [triggerReminder] does: the scan shows one toast per such
    reminder, with the title of its task, and no other toast; one desktop
    notification per such reminder when the permission is granted, and none
    otherwise; each such reminder has an Active Reminder entry afterwards, and
    every entry is one that was there before or the entry of such a reminder.
    So an untriggered reminder of a task that is not completed fires when
    [t = now - 30s], and does not when [t = now - 90s] or [t = now + 10s]. *)
Theorem C3_scan_fires_exactly_due (now : Z) (w : World) :
  haveReminders (Store.tasks (store w)) ->
  exists w',
    Notifications.scan now w = Notifications.Done w' /\
    fired w' = (fired w ++ dueCalls now (Store.tasks (store w)))%list /\
    (forall task reminder,
        In (task, reminder) (dueCalls now (Store.tasks (store w))) <->
        In task (Store.tasks (store w)) /\ In reminder (remindersOf task) /\
        t_status task <> Some completed /\
        r_triggered reminder = false /\
        (now - 60000 < r_time reminder <= now)%Z) /\
    (forall task reminder,
        In task (Store.tasks (store w)) -> In reminder (remindersOf task) ->
        t_status task <> Some completed -> r_triggered reminder = false ->
        (r_time reminder = (now - 30000)%Z ->
         In (task, reminder) (dueCalls now (Store.tasks (store w)))) /\
        (r_time reminder = (now - 90000)%Z ->
         ~ In (task, reminder) (dueCalls now (Store.tasks (store w)))) /\
        (r_time reminder = (now + 10000)%Z ->
         ~ In (task, reminder) (dueCalls now (Store.tasks (store w))))) /\
    toasts w'
    = (toasts w ++
       map (fun p : Task * Reminder =>
              mkToast "⏰ Task Reminder" (t_title p.1) false (Some 10000%Z))
           (dueCalls now (Store.tasks (store w))))%list /\
    notifications w'
    = (notifications w ++
       match permission w with
       | granted =>
           map (fun p : Task * Reminder =>
                  mkNotification "⏰ Task Reminder"
                    (match t_title p.1 with
                     | Some title => title
                     | None => "undefined"
                     end ++ " - Reminder triggered!")
                    (t_id p.1))
               (dueCalls now (Store.tasks (store w)))
       | _ => []
       end)%list /\
    (forall task reminder,
        In (task, reminder) (dueCalls now (Store.tasks (store w))) ->
        exists a, In a (activeReminders w') /\ a_id a = r_id reminder) /\
    (forall a,
        In a (activeReminders w') ->
        (exists a0, In a0 (activeReminders w) /\ a_id a0 = a_id a) \/
        exists task reminder,
          In (task, reminder) (dueCalls now (Store.tasks (store w))) /\
          r_id reminder = a_id a).
Proof.
  intros Hts. unfold Notifications.scan.
  destruct (checkReminders_done now (Store.tasks (store w)) w Hts)
    as (w' & Hscan & Hfired).
  assert (Hw' : w' = fireAll (dueCalls now (Store.tasks (store w))) w).
  { rewrite (checkReminders_fold now (Store.tasks (store w)) w Hts) in Hscan.
    now injection Hscan as <-. }
  destruct (fireAll_effects (dueCalls now (Store.tasks (store w))) w)
    as (Htoasts & Hnotes & _).
  rewrite <- Hw' in Htoasts, Hnotes.
  exists w'. split; [assumption|]. split; [assumption|]. split.
  { intros task reminder. apply dueCalls_spec. }
  split.
  { intros task reminder Hin Hr Hst Htrig. repeat split.
    - intros Ht. apply dueCalls_spec. unfold due. repeat split; auto; lia.
    - intros Ht Hcall. apply dueCalls_spec in Hcall.
      destruct Hcall as (_ & _ & _ & _ & Hwin). lia.
    - intros Ht Hcall. apply dueCalls_spec in Hcall.
      destruct Hcall as (_ & _ & _ & _ & Hwin). lia. }
  split; [exact Htoasts|]. split; [exact Hnotes|]. split.
  - intros task reminder Hin.
    destruct (checkReminders_fired_active now (Store.tasks (store w)) w)
      as (calls & Hf & Hall).
    rewrite Hscan in Hf, Hall. simpl in Hf, Hall.
    rewrite Hfired in Hf. apply app_inv_head in Hf. subst calls.
    rewrite List.Forall_forall in Hall. specialize (Hall _ Hin). simpl in Hall.
    apply list_elem_of_In, in_map_iff in Hall.
    destruct Hall as (a & Ha & Hina). now exists a.
  - intros a Hin.
    assert (Hid : In (a_id a) (activeIds w')).
    { apply in_map_iff. now exists a. }
    rewrite Hw' in Hid. apply fireAll_active_from in Hid.
    destruct Hid as [Hid | ([task reminder] & Hp & Hid)].
    + left. apply in_map_iff in Hid. destruct Hid as (a0 & Ha0 & Hin0).
      now exists a0.
    + right. now exists task, reminder.
Qed.

Example C3_witness :
  let r30 := reminderAt "r30" (1000000 - 30000) in
  let r90 := reminderAt "r90" (1000000 - 90000) in
  let r10 := reminderAt "r10" (1000000 + 10000) in
  let task := exampleTask "a" "A" pending None [r30; r90; r10] in
  let w := worldWith [task] in
  exists w',
    Notifications.scan 1000000 w = Notifications.Done w' /\
    fired w' = [(task, r30)] /\
    toasts w' = [mkToast "⏰ Task Reminder" (Some "A") false (Some 10000%Z)] /\
    notifications w' = [] /\
    exists a, In a (activeReminders w') /\ a_id a = "r30".
Proof.
  intros r30 r90 r10 task w.
  destruct (C3_scan_fires_exactly_due 1000000 w)
    as (w' & Hscan & Hfired & _ & _ & Htoasts & Hnotes & Hactive & _).
  { repeat constructor. discriminate. }
  exists w'. split; [exact Hscan|]. split; [rewrite Hfired; reflexivity|].
  split; [rewrite Htoasts; reflexivity|].
  split; [rewrite Hnotes; reflexivity|].
  apply (Hactive task r30). left. reflexivity.
Defined.

(** X10: a scan shows one toast per reminder it fires, with the title of the
    task, and one desktop notification per firing when the permission is
    granted, none otherwise; it leaves the permission, the snooze timers and
    the requests alone.  The entries of the cache have their reminders. *)
Theorem scan_notifies_once_per_firing (now : Z) (w : World) :
  haveReminders (Store.tasks (store w)) ->
  exists w',
    Notifications.scan now w = Notifications.Done w' /\
    let calls := dueCalls now (Store.tasks (store w)) in
    toasts w' = (toasts w ++ map firingToast calls)%list /\
    notifications w'
    = (notifications w ++
       match permission w with
       | granted => map firingNotification calls
       | _ => []
       end)%list /\
    permission w' = permission w /\
    timeouts w' = timeouts w /\ snoozeIntervals w' = snoozeIntervals w /\
    nextTimer w' = nextTimer w /\ requests w' = requests w.
Proof.
  intros Hts. eexists. split.
  - unfold Notifications.scan. now apply checkReminders_fold.
  - apply fireAll_effects.
Qed.

Example scan_notifies_once_per_firing_witness :
  let w := worldWith [twoDue] in
  exists w',
    Notifications.scan 1000000 w = Notifications.Done w' /\
    map toast_description (toasts w') = [Some "A"; Some "A"] /\
    notifications w' = [].
Proof.
  intros w.
  destruct (scan_notifies_once_per_firing 1000000 w)
    as (w' & Hscan & Ht & Hn & _).
  { repeat constructor. discriminate. }
  exists w'. split; [exact Hscan|]. rewrite Ht, Hn. split; reflexivity.
Defined.

Section ScanStore.
Import Store Notifications.

Lemma triggerReminder_tasks task reminder w :
  tasks (store (worldOf (triggerReminder task reminder w)))
  = map (callPatch (task, reminder)) (tasks (store w)).
Proof.
  unfold triggerReminder, showNotification, callPatch. simpl.
  destruct (t_reminders task); destruct w as [? ? ? ? ? pm ? ? ? ?];
    destruct pm; simpl; rewrite ?map_id; reflexivity.
Qed.

Lemma triggerReminder_filters task reminder w :
  filters (store (worldOf (triggerReminder task reminder w)))
  = filters (store w).
Proof.
  unfold triggerReminder, showNotification.
  destruct (t_reminders task); destruct w as [? ? ? ? ? pm ? ? ? ?];
    destruct pm; reflexivity.
Qed.

Lemma fireAll_tasks calls w :
  tasks (store (fireAll calls w)) = map (applyCalls calls) (tasks (store w)) /\
  filters (store (fireAll calls w)) = filters (store w).
Proof.
  revert w. induction calls as [|[task reminder] calls IH]; intros w.
  - simpl. now rewrite map_id.
  - change (fireAll ((task, reminder) :: calls) w)
      with (fireAll calls (worldOf (triggerReminder task reminder w))).
    destruct (IH (worldOf (triggerReminder task reminder w))) as [-> ->].
    rewrite triggerReminder_tasks, triggerReminder_filters, map_map.
    split; reflexivity.
Qed.

(** Firings of other entries leave an entry alone. *)
Lemma applyCalls_others calls entry :
  Forall (fun p : Task * Reminder => t_id p.1 <> t_id entry) calls ->
  applyCalls calls entry = entry.
Proof.
  induction 1 as [|p calls Hp _ IH]; simpl; [reflexivity|].
  unfold applyCalls in *. simpl.
  assert (Hsame : callPatch p entry = entry).
  { unfold callPatch. destruct (t_reminders p.1); [|reflexivity].
    apply patchEntry_other. apply idIs_false. congruence. }
  now rewrite Hsame.
Qed.

Lemma dueCalls_others now ts entry :
  t_id entry ∉ ids ts ->
  Forall (fun p : Task * Reminder => t_id p.1 <> t_id entry) (dueCalls now ts).
Proof.
  intros Hnotin. apply List.Forall_forall. intros [t r] Hin.
  apply dueCalls_spec in Hin. destruct Hin as (Hin & _). simpl.
  intros Heq. apply Hnotin. rewrite <- Heq.
  apply list_elem_of_In, in_map, Hin.
Qed.

(** The firings of the reminders of a task, one after the other, on its
    entry: the last one decides. *)
Lemma applyCalls_own task rs fired_ entry :
  t_reminders task = Some rs -> t_id entry = t_id task ->
  applyCalls (map (pair task) fired_) entry
  = match last fired_ with
    | None => entry
    | Some r => spread entry (remindersPatch (map (markTriggered (r_id r)) rs))
    end.
Proof.
  intros Hrs. revert entry.
  induction fired_ as [|r rest IH]; intros entry Hid; [reflexivity|].
  change (applyCalls (map (pair task) (r :: rest)) entry)
    with (applyCalls (map (pair task) rest) (callPatch (task, r) entry)).
  assert (Hstep : callPatch (task, r) entry
                  = spread entry
                      (remindersPatch (map (markTriggered (r_id r)) rs))).
  { unfold callPatch. simpl. rewrite Hrs. unfold patchEntry.
    apply idIs_true in Hid. now rewrite Hid. }
  rewrite Hstep, IH by (simpl; assumption).
  destruct rest as [|r' rest']; [reflexivity|].
  rewrite last_cons_cons.
  destruct (last (r' :: rest')) eqn:Hl; [reflexivity|].
  apply last_None in Hl. discriminate.
Qed.

Lemma dueCalls_app now ts1 ts2 :
  dueCalls now (ts1 ++ ts2) = (dueCalls now ts1 ++ dueCalls now ts2)%list.
Proof. unfold dueCalls. apply flat_map_app. Qed.

Lemma dueCalls_cons now task ts :
  dueCalls now (task :: ts)
  = (map (pair task) (dueOf now task) ++ dueCalls now ts)%list.
Proof.
  unfold dueCalls, dueOf. simpl.
  now destruct (bool_decide (t_status task = Some completed)).
Qed.

Lemma scanEntry_id now task : t_id (scanEntry now task) = t_id task.
Proof. unfold scanEntry. now destruct (last (dueOf now task)). Qed.

Lemma applyCalls_scanEntry now ts task :
  NoDup (ids ts) -> haveReminders ts -> In task ts ->
  applyCalls (dueCalls now ts) task = scanEntry now task.
Proof.
  intros Hnd Hhave Hin.
  destruct (in_split _ _ Hin) as (l1 & l2 & ->).
  unfold ids in Hnd. rewrite map_app in Hnd. simpl in Hnd.
  apply NoDup_app in Hnd. destruct Hnd as (_ & Hl1 & Hnd).
  apply NoDup_cons in Hnd. destruct Hnd as (Hl2 & _).
  assert (Hn1 : t_id task ∉ ids l1).
  { intros H1. apply (Hl1 _ H1). apply elem_of_cons. now left. }
  unfold haveReminders in Hhave. rewrite List.Forall_forall in Hhave.
  destruct (t_reminders task) as [rs|] eqn:Hrs;
    [|exfalso; now apply (Hhave task Hin)].
  rewrite dueCalls_app, dueCalls_cons.
  unfold applyCalls. rewrite !foldl_app.
  fold (applyCalls (dueCalls now l1) task).
  rewrite (applyCalls_others _ _ (dueCalls_others now l1 task Hn1)).
  fold (applyCalls (map (pair task) (dueOf now task)) task).
  rewrite (applyCalls_own task rs _ task Hrs eq_refl).
  assert (Hentry : match last (dueOf now task) with
                   | None => task
                   | Some r => spread task
                                 (remindersPatch
                                    (map (markTriggered (r_id r)) rs))
                   end = scanEntry now task).
  { unfold scanEntry, remindersOf. now rewrite Hrs. }
  rewrite Hentry.
  fold (applyCalls (dueCalls now l2) (scanEntry now task)).
  apply applyCalls_others, dueCalls_others. now rewrite scanEntry_id.
Qed.
End ScanStore.

(** X11: the store after a scan, when the identifiers of the cache are unique
    and its entries have their reminders.  Every entry is what [scanEntry]
    says: a task of which no reminder fires is left as it is; a task of
    which reminders fire keeps everything but its reminders, which are those
    it had when the scan started with the flag of the last fired one set.
    The flags of the reminders of that task that fired before it stay
    false. *)
Theorem scan_marks_last_fired (now : Z) (w : World) :
  NoDup (ids (Store.tasks (store w))) ->
  haveReminders (Store.tasks (store w)) ->
  exists w',
    Notifications.scan now w = Notifications.Done w' /\
    Store.tasks (store w') = map (scanEntry now) (Store.tasks (store w)) /\
    Store.filters (store w') = Store.filters (store w).
Proof.
  intros Hnd Hhave. eexists. split.
  - unfold Notifications.scan. now apply checkReminders_fold.
  - destruct (fireAll_tasks (dueCalls now (Store.tasks (store w))) w)
      as [-> ->].
    split; [|reflexivity].
    apply map_ext_in. intros task Hin. now apply applyCalls_scanEntry.
Qed.

Example scan_marks_last_fired_witness :
  let w := worldWith [twoDue] in
  exists w',
    Notifications.scan 1000000 w = Notifications.Done w' /\
    map remindersOf (Store.tasks (store w'))
    = [[reminderAt "r1" 990000; mkReminder "r2" "a" 995000 custom true None]].
Proof.
  intros w.
  destruct (scan_marks_last_fired 1000000 w) as (w' & Hscan & Htasks & _).
  - apply (bool_decide_unpack _). vm_compute. exact I.
  - repeat constructor. discriminate.
  - exists w'. split; [exact Hscan|]. rewrite Htasks. reflexivity.
Defined.

(** ** The scheduler in every reachable state *)

Section Reachability.
Import Store Sync Notifications Lifecycle.

(** Operations that leave the timers and the map alone keep the invariant. *)
Lemma timersWf_frame w w' :
  timeouts w' = timeouts w -> snoozeIntervals w' = snoozeIntervals w ->
  nextTimer w' = nextTimer w -> timersWf w -> timersWf w'.
Proof.
  intros Htm Hsi Hnt. unfold timersWf, timersOk. now rewrite Htm, Hsi, Hnt.
Qed.

Lemma sync_frame op w :
  match op with
  | OpFetch _ _ | OpAddTask _ _ _ _ _ | OpUpdateTask _ _ _ _
  | OpDeleteTask _ _ _ | OpToggle _ _ _ _ | OpRequestPermission _ => True
  | _ => False
  end ->
  timeouts (run op w) = timeouts w /\
  snoozeIntervals (run op w) = snoozeIntervals w /\
  nextTimer (run op w) = nextTimer w /\
  activeReminders (run op w) = activeReminders w.
Proof.
  destruct op as [user remote|user uuid now taskData remote
                 |user id updates remote|user id remote|user now id remote
                 | | | | | | |browser]; intros H; try contradiction; simpl.
  - destruct user; [|repeat split].
    destruct remote as [message|[rows profiles]]; repeat split.
  - unfold addTask. destruct user; [|repeat split].
    destruct remote as [message|[row profile]]; [repeat split|].
    destruct (truthy (row_assigned_to row)); repeat split.
  - unfold updateTask. destruct user; [|repeat split].
    destruct (findTask id w); [|repeat split].
    destruct remote; repeat split.
  - unfold deleteTask. destruct user; [|repeat split].
    destruct remote; [|repeat split].
    destruct (findTask id w); repeat split.
  - unfold toggleTaskStatus, updateTask.
    destruct (findTask id w); [|repeat split].
    destruct user; [|repeat split].
    destruct remote; repeat split.
  - unfold requestPermission.
    destruct browser as [[message|[]]|]; repeat split.
Qed.

Lemma triggerReminder_wf task reminder w :
  timersWf w -> timersWf (worldOf (triggerReminder task reminder w)).
Proof.
  destruct (triggerReminder_effects task reminder w)
    as (_ & _ & _ & Htm & Hsi & Hnt & _).
  now apply timersWf_frame.
Qed.

Lemma clearTimeout_wf h w : timersWf w -> timersWf (clearTimeout h w).
Proof.
  intros (Hok & Hlt & Hinj). split; [now apply clearTimeout_ok|]. now split.
Qed.

Lemma snoozeEntry_fields reminderId r w :
  snoozeIntervals (snoozeEntry reminderId r w).2
  = <[reminderId := nextTimer w]> (snoozeIntervals w) /\
  nextTimer (snoozeEntry reminderId r w).2 = Pos.succ (nextTimer w) /\
  toasts (snoozeEntry reminderId r w).2 = (toasts w ++ [snoozedToast])%list /\
  notifications (snoozeEntry reminderId r w).2 = notifications w /\
  permission (snoozeEntry reminderId r w).2 = permission w.
Proof.
  unfold snoozeEntry. destruct (snoozeIntervals w !! reminderId); repeat split.
Qed.

Lemma snoozeEntry_wf reminderId r w :
  timersWf w -> timersWf (snoozeEntry reminderId r w).2.
Proof.
  intros (Hok & Hlt & Hinj).
  destruct (snoozeEntry_spec reminderId r w Hok) as (Hok' & _).
  destruct (snoozeEntry_fields reminderId r w) as (Hsi & Hnt & _).
  split; [exact Hok'|]. rewrite Hsi, Hnt. split.
  - intros r' h Hm. destruct (decide (reminderId = r')) as [<-|Hne].
    + rewrite lookup_insert_eq in Hm. injection Hm as <-. lia.
    + rewrite lookup_insert_ne in Hm by assumption.
      specialize (Hlt _ _ Hm). lia.
  - intros r1 r2 h H1 H2.
    destruct (decide (reminderId = r1)) as [<-|Hne1],
             (decide (reminderId = r2)) as [<-|Hne2]; [reflexivity| | |].
    + rewrite lookup_insert_eq in H1. injection H1 as <-.
      rewrite lookup_insert_ne in H2 by assumption.
      specialize (Hlt _ _ H2). lia.
    + rewrite lookup_insert_eq in H2. injection H2 as <-.
      rewrite lookup_insert_ne in H1 by assumption.
      specialize (Hlt _ _ H1). lia.
    + rewrite lookup_insert_ne in H1, H2 by assumption. eauto.
Qed.

Lemma snoozeEach_wf reminderId prev w :
  timersWf w -> timersWf (snoozeEach reminderId prev w).2.
Proof.
  revert w. induction prev as [|r prev IH]; intros w Hwf; cbn [snoozeEach];
    [assumption|].
  destruct (bool_decide (a_id r = reminderId)).
  - assert (Hwf1 := snoozeEntry_wf reminderId r w Hwf).
    destruct (snoozeEntry reminderId r w) as [r' w1].
    specialize (IH w1 Hwf1).
    now destruct (snoozeEach reminderId prev w1).
  - specialize (IH w Hwf). now destruct (snoozeEach reminderId prev w).
Qed.

Lemma snoozeReminder_wf reminderId w :
  timersWf w -> timersWf (snoozeReminder reminderId w).
Proof.
  intros Hwf. rewrite snoozeReminder_unfold.
  exact (snoozeEach_wf reminderId (activeReminders w) w Hwf).
Qed.

Lemma snoozeEach_active reminderId prev w :
  activeReminders (snoozeEach reminderId prev w).2 = activeReminders w.
Proof.
  revert w. induction prev as [|r prev IH]; intros w; cbn [snoozeEach];
    [reflexivity|].
  destruct (bool_decide (a_id r = reminderId)).
  - destruct (snoozeEntry reminderId r w) as [r' w1] eqn:He.
    specialize (IH w1). destruct (snoozeEach reminderId prev w1) as [rest w2].
    cbn [snd] in *. rewrite IH.
    assert (Hw1 : w1 = (snoozeEntry reminderId r w).2) by now rewrite He.
    rewrite Hw1. unfold snoozeEntry. simpl.
    now destruct (snoozeIntervals w !! reminderId).
  - specialize (IH w). now destruct (snoozeEach reminderId prev w).
Qed.

Lemma snoozeReminder_activeIds reminderId w :
  activeIds (snoozeReminder reminderId w) = activeIds w.
Proof.
  rewrite snoozeReminder_unfold. unfold activeIds. simpl.
  now rewrite snoozeEach_fst, snoozed_ids.
Qed.

Lemma dismissReminder_wf reminderId w :
  timersWf w -> timersWf (dismissReminder reminderId w).
Proof.
  intros (Hok & Hlt & Hinj). split; [now apply dismissReminder_ok|].
  unfold dismissReminder.
  destruct (snoozeIntervals w !! reminderId) as [h|] eqn:Hm; simpl;
    [|now split].
  split.
  - intros r h' Hl. apply lookup_delete_Some in Hl. destruct Hl as [_ Hl]. eauto.
  - intros r1 r2 h' H1 H2. apply lookup_delete_Some in H1, H2.
    destruct H1 as [_ H1], H2 as [_ H2]. eauto.
Qed.

Lemma dismissReminder_activeIds reminderId w :
  NoDup (activeIds w) -> NoDup (activeIds (dismissReminder reminderId w)).
Proof.
  unfold dismissReminder, activeIds.
  destruct (snoozeIntervals w !! reminderId); simpl;
    generalize (activeReminders w); intros l;
    (induction l as [|a l IH]; simpl; intros Hnd; [assumption|];
     apply NoDup_cons in Hnd; destruct Hnd as [Hnotin Hnd];
     destruct (bool_decide (a_id a = reminderId)); simpl; [now apply IH|];
     apply NoDup_cons; split; [|now apply IH];
     intros Hin; apply Hnotin;
     rewrite list_elem_of_In, in_map_iff in *;
     destruct Hin as (b & Hb & Hin); apply filter_In in Hin;
     exists b; tauto).
Qed.

Lemma elapse_wf h w : timersWf w -> timersWf (elapse h w).
Proof.
  intros Hwf. unfold elapse.
  destruct (List.find _ (timeouts w)) as [[h' a]|]; [|exact Hwf].
  apply (clearTimeout_wf h) in Hwf. unfold showNotification.
  destruct (permission (clearTimeout h w)); exact Hwf.
Qed.

Lemma elapse_active h w : activeReminders (elapse h w) = activeReminders w.
Proof.
  unfold elapse, showNotification.
  destruct (List.find _ (timeouts w)) as [[h' a]|]; [|reflexivity].
  simpl. now destruct (permission w).
Qed.

Lemma cleanup_wf w : timersWf w -> timersWf (cleanup w).
Proof.
  intros (Hok & _ & _). split; [now apply cleanup_ok|].
  unfold cleanup. simpl. split.
  - intros r h Hl. rewrite lookup_empty in Hl. discriminate.
  - intros r1 r2 h Hl. rewrite lookup_empty in Hl. discriminate.
Qed.

Lemma clearAll_active (l : list (string * positive)) w :
  activeReminders
    (foldr (fun (p : string * positive) w => clearTimeout p.2 w) w l)
  = activeReminders w.
Proof. induction l as [|p l IH]; simpl; [reflexivity|assumption]. Qed.

Lemma cleanup_active w : activeReminders (cleanup w) = activeReminders w.
Proof. unfold cleanup. simpl. apply clearAll_active. Qed.

Lemma scan_wf now w : timersWf w -> timersWf (worldOf (scan now w)).
Proof.
  unfold scan. apply (checkReminders_inv timersWf).
  intros task reminder w'. apply triggerReminder_wf.
Qed.

Lemma setup_scheduler browser now w :
  timeouts (worldOf (effectSetup browser now w)) = timeouts (worldOf (scan now w)) /\
  snoozeIntervals (worldOf (effectSetup browser now w))
  = snoozeIntervals (worldOf (scan now w)) /\
  nextTimer (worldOf (effectSetup browser now w)) = nextTimer (worldOf (scan now w)) /\
  activeReminders (worldOf (effectSetup browser now w))
  = activeReminders (worldOf (scan now w)).
Proof.
  unfold effectSetup. destruct (scan now w), browser; repeat split.
Qed.

Lemma countActive_NoDup id w : NoDup (activeIds w) -> countActive id w <= 1.
Proof.
  unfold activeIds, countActive. generalize (activeReminders w). intros l Hnd.
  destruct (decide (id ∈ map a_id l)) as [Hin|Hnotin].
  - now rewrite count_one.
  - rewrite filter_none; [simpl; lia|].
    intros a Ha. apply bool_decide_eq_false. intros Heq. apply Hnotin.
    rewrite <- Heq. apply list_elem_of_In, in_map, Ha.
Qed.

Lemma run_keeps op w :
  timersWf w /\ NoDup (activeIds w) ->
  timersWf (run op w) /\ NoDup (activeIds (run op w)).
Proof.
  intros [Hwf Hnd].
  destruct op as [user remote|user uuid now taskData remote
                 |user id updates remote|user id remote|user now id remote
                 |now|browser now| |reminderId|reminderId|h|browser].
  1-5: (match goal with |- context [run ?op ?w0] =>
          destruct (sync_frame op w0 I) as (Htm & Hsi & Hnt & Hact);
          split; [now apply (timersWf_frame w0)|]
        end;
        unfold activeIds; now rewrite Hact).
  - simpl. split; [now apply scan_wf|now apply checkReminders_active_NoDup].
  - simpl. destruct (setup_scheduler browser now w) as (Htm & Hsi & Hnt & Hact).
    split.
    + apply (timersWf_frame (worldOf (scan now w))); auto. now apply scan_wf.
    + unfold activeIds. rewrite Hact.
      now apply checkReminders_active_NoDup.
  - simpl. split; [now apply cleanup_wf|].
    unfold activeIds. now rewrite cleanup_active.
  - simpl. split; [now apply snoozeReminder_wf|].
    now rewrite snoozeReminder_activeIds.
  - simpl. split; [now apply dismissReminder_wf|].
    now apply dismissReminder_activeIds.
  - simpl. split; [now apply elapse_wf|].
    unfold activeIds. now rewrite elapse_active.
  - destruct (sync_frame (OpRequestPermission browser) w I)
      as (Htm & Hsi & Hnt & Hact).
    split; [now apply (timersWf_frame w)|].
    unfold activeIds. now rewrite Hact.
Qed.
End Reachability.

(** X12: in every state the application can reach, by any sequence of
    operations of the two hooks and of timers elapsing, with any answers of
    the Remote Store and of the browser, the snooze timers satisfy their
    invariant, no reminder has more than one pending snooze timer, and no
    reminder has more than one Active Reminder entry. *)
Theorem reachable_scheduler_invariants (w : World) :
  reachable w ->
  timersWf w /\ NoDup (activeIds w) /\
  forall id, length (pendingFor id w) <= 1 /\ countActive id w <= 1.
Proof.
  intros Hreach.
  assert (H : timersWf w /\ NoDup (activeIds w)).
  { induction Hreach as [|op w _ IH].
    - split; [|constructor]. split; [apply timersOk_initial|].
      split; intros; simpl in *; rewrite lookup_empty in *; discriminate.
    - now apply run_keeps. }
  destruct H as [Hwf Hnd]. split; [assumption|]. split; [assumption|].
  intros id. split.
  - apply timersOk_at_most_one. apply Hwf.
  - now apply countActive_NoDup.
Qed.

Example reachable_scheduler_invariants_witness :
  let w := run (OpSnooze "r1")
             (run (OpSnooze "r1")
                (run (OpScan 1000000)
                   (run (OpUpdateTask (Some "u") "a" exampleReminders (Success tt))
                      (run (OpFetch (Some "u")
                              (Success ([exampleRow "a" "A"], [])))
                         initialWorld)))) in
  (length (pendingFor "r1" w) = 1 /\ countActive "r1" w = 1) /\
  forall id, length (pendingFor id w) <= 1 /\ countActive id w <= 1.
Proof.
  intros w. split; [split; reflexivity|].
  apply (reachable_scheduler_invariants w).
  repeat apply reachable_step. apply reachable_initial.
Defined.

(** ** Dismissing, and timers that were cancelled *)

Section DismissLemmas.
Import Store Notifications.

Lemma filter_filter_keep {A} (f g : A -> bool) (l : list A) :
  (forall x, In x l -> f x = true -> g x = true) ->
  List.filter f (List.filter g l) = List.filter f l.
Proof.
  induction l as [|x l IH]; simpl; intros H; [reflexivity|].
  assert (IH' : List.filter f (List.filter g l) = List.filter f l).
  { apply IH. intros y Hy. apply H. now right. }
  destruct (g x) eqn:Hg; simpl.
  - now rewrite IH'.
  - destruct (f x) eqn:Hf; [|assumption].
    rewrite (H x) in Hg; [discriminate|now left|assumption].
Qed.

Lemma elapse_not_pending h w : notPending h w -> elapse h w = w.
Proof.
  intros Hnp. unfold elapse.
  destruct (List.find _ (timeouts w)) as [[h' a]|] eqn:Hfind; [|reflexivity].
  apply find_some in Hfind. destruct Hfind as [Hin Hb].
  apply bool_decide_eq_true in Hb. unfold notPending in Hnp.
  rewrite List.Forall_forall in Hnp. now specialize (Hnp _ Hin).
Qed.

Lemma clearTimeout_notPending h w : notPending h (clearTimeout h w).
Proof.
  apply List.Forall_forall. intros p Hin. simpl in Hin.
  apply filter_In in Hin. destruct Hin as [_ Hb].
  apply negb_true_iff in Hb. now apply bool_decide_eq_false in Hb.
Qed.

(** The timers after one snooze of an entry: those that were pending for
    other reminders, then the new one. *)
Lemma snoozeEntry_timeouts reminderId r w :
  timersOk w ->
  exists cleared,
    timeouts (snoozeEntry reminderId r w).2
    = (cleared ++
       [(nextTimer w,
         mkAlert reminderId (a_taskTitle r) (a_taskId r) (S (a_snoozeCount r)))])%list /\
    Forall (fun p : positive * SnoozeAlert =>
              (p.1 < nextTimer w)%positive /\ al_reminderId p.2 <> reminderId /\
              In p (timeouts w) /\
              forall h, snoozeIntervals w !! reminderId = Some h -> p.1 <> h)
           cleared.
Proof.
  intros Hok. unfold snoozeEntry.
  set (w1 := match snoozeIntervals w !! reminderId with
             | Some h => clearTimeout h w
             | None => w
             end).
  assert (Hnt : nextTimer w1 = nextTimer w).
  { subst w1. now destruct (snoozeIntervals w !! reminderId). }
  exists (timeouts w1). simpl. rewrite Hnt. split; [reflexivity|].
  apply List.Forall_forall. intros p Hin.
  assert (Hcl : In p (timeouts w) /\ al_reminderId p.2 <> reminderId).
  { apply cleared_none; [assumption|].
    subst w1. now destruct (snoozeIntervals w !! reminderId). }
  destruct Hcl as [Hin' Hne]. destruct Hok as [_ Hall].
  rewrite List.Forall_forall in Hall. destruct (Hall p Hin') as [_ Hlt].
  repeat split; auto.
  intros h Hm Heq. subst w1. rewrite Hm in Hin. simpl in Hin.
  apply filter_In in Hin. destruct Hin as [_ Hb].
  apply negb_true_iff, bool_decide_eq_false in Hb. contradiction.
Qed.

Lemma find_last_handle (cleared : list (positive * SnoozeAlert)) h a :
  Forall (fun p : positive * SnoozeAlert => p.1 <> h) cleared ->
  List.find (fun p : positive * SnoozeAlert => bool_decide (p.1 = h))
            (cleared ++ [(h, a)])
  = Some (h, a).
Proof.
  induction 1 as [|p cleared Hp _ IH]; simpl.
  - now rewrite bool_decide_eq_true_2.
  - now rewrite bool_decide_eq_false_2.
Qed.

Lemma filter_all {A} (f : A -> bool) (l : list A) :
  (forall x, In x l -> f x = true) -> List.filter f l = l.
Proof.
  induction l as [|x l IH]; simpl; intros H; [reflexivity|].
  rewrite (H x) by now left. f_equal. apply IH. intros y Hy. apply H. now right.
Qed.

Lemma active_unique_entry (l : list ActiveReminder) id :
  id ∈ map a_id l -> exists a, In a l /\ a_id a = id.
Proof.
  rewrite list_elem_of_In, in_map_iff. intros (a & Ha & Hin). eauto.
Qed.

Lemma timersWf_no_timers w :
  timeouts w = [] -> snoozeIntervals w = ∅ -> timersWf w.
Proof.
  intros Htm Hsi. unfold timersWf, timersOk. rewrite Htm, Hsi.
  repeat split; try constructor; intros; rewrite lookup_empty in *; discriminate.
Qed.
End DismissLemmas.

(** X13: dismissing a reminder removes its Active Reminder entry and leaves
    it no pending snooze timer and no handle in the map; the entries, the
    timers and the handles of the other reminders stay as they are, the store
    is not touched, and one notice is shown. *)
Theorem dismiss_removes_entry_and_timer (reminderId : string) (w : World) :
  timersWf w ->
  let w' := Notifications.dismissReminder reminderId w in
  countActive reminderId w' = 0 /\
  pendingFor reminderId w' = [] /\
  snoozeIntervals w' !! reminderId = None /\
  (forall a, In a (activeReminders w') <->
             In a (activeReminders w) /\ a_id a <> reminderId) /\
  (forall id, id <> reminderId ->
              pendingFor id w' = pendingFor id w /\
              snoozeIntervals w' !! id = snoozeIntervals w !! id) /\
  store w' = store w /\
  toasts w'
  = (toasts w ++ [mkToast "Reminder dismissed"
                    (Some "The reminder has been dismissed.") false None])%list.
Proof.
  intros (Hok & Hlt & Hinj) w'.
  assert (Hact : activeReminders w'
                 = List.filter (fun r => negb (bool_decide (a_id r = reminderId)))
                               (activeReminders w)).
  { subst w'. unfold Notifications.dismissReminder.
    now destruct (snoozeIntervals w !! reminderId). }
  split; [|split; [|split; [|split; [|split; [|split]]]]].
  - unfold countActive. rewrite Hact. rewrite filter_none; [reflexivity|].
    intros a Ha. apply filter_In in Ha. destruct Ha as [_ Hb].
    apply negb_true_iff in Hb. exact Hb.
  - now apply dismissReminder_none.
  - subst w'. unfold Notifications.dismissReminder.
    destruct (snoozeIntervals w !! reminderId) eqn:Hm; simpl;
      [apply lookup_delete_eq | assumption].
  - intros a. rewrite Hact, filter_In, negb_true_iff, bool_decide_eq_false.
    reflexivity.
  - intros id Hne. subst w'. unfold Notifications.dismissReminder, pendingFor.
    destruct (snoozeIntervals w !! reminderId) as [h|] eqn:Hm; simpl;
      [|split; reflexivity].
    split; [|now apply lookup_delete_ne].
    apply filter_filter_keep. intros p Hin Hb.
    apply bool_decide_eq_true in Hb. apply negb_true_iff, bool_decide_eq_false.
    intros Heq. destruct Hok as [_ Hall]. rewrite List.Forall_forall in Hall.
    destruct (Hall p Hin) as [Hp _]. rewrite Hb, Heq in Hp.
    apply Hne. exact (Hinj _ _ _ Hp Hm).
  - subst w'. unfold Notifications.dismissReminder.
    now destruct (snoozeIntervals w !! reminderId).
  - subst w'. unfold Notifications.dismissReminder.
    now destruct (snoozeIntervals w !! reminderId).
Qed.

Example dismiss_removes_entry_and_timer_witness :
  let w := run (OpSnooze "r1")
             (run (OpScan 1000000)
                (worldWith [exampleTask "a" "A" pending None
                              [reminderAt "r1" 990000]])) in
  countActive "r1" (Notifications.dismissReminder "r1" w) = 0 /\
  pendingFor "r1" (Notifications.dismissReminder "r1" w) = [].
Proof.
  intros w.
  assert (Hwf : timersWf w).
  { apply snoozeReminder_wf, scan_wf. now apply timersWf_no_timers. }
  destruct (dismiss_removes_entry_and_timer "r1" w Hwf) as (Hc & Hp & _).
  split; assumption.
Defined.

(** X14: a snooze timer that has been cancelled never shows its alert.  When
    the browser is asked to run the callback of the timer that the map held
    for a reminder, after that reminder was snoozed again or dismissed, or
    of any timer after the clean-up of the effect, nothing happens. *)
Theorem cancelled_timers_never_notify (w : World) :
  timersWf w -> NoDup (activeIds w) ->
  (forall h,
      Notifications.elapse h (Notifications.cleanup w) = Notifications.cleanup w) /\
  (forall reminderId h,
      snoozeIntervals w !! reminderId = Some h ->
      Notifications.elapse h (Notifications.dismissReminder reminderId w)
      = Notifications.dismissReminder reminderId w) /\
  (forall reminderId h,
      snoozeIntervals w !! reminderId = Some h ->
      reminderId ∈ activeIds w ->
      Notifications.elapse h (Notifications.snoozeReminder reminderId w)
      = Notifications.snoozeReminder reminderId w).
Proof.
  intros (Hok & Hlt & Hinj) Hnd. repeat split.
  - intros h. apply elapse_not_pending. unfold notPending.
    rewrite (cleanup_timeouts w Hok). constructor.
  - intros reminderId h Hm. apply elapse_not_pending.
    unfold notPending, Notifications.dismissReminder. rewrite Hm. simpl.
    apply (clearTimeout_notPending h w).
  - intros reminderId h Hm Hin. apply elapse_not_pending.
    destruct (active_unique_entry _ _ Hin) as (a & Ha & Hid).
    unfold notPending. rewrite snoozeReminder_unfold. simpl.
    rewrite (snoozeEach_unique _ _ _ a Hnd Ha Hid).
    destruct (snoozeEntry_timeouts reminderId a w Hok) as (cleared & -> & Hcl).
    apply Forall_app. split.
    + eapply Forall_impl; [exact Hcl|]. intros p (_ & _ & _ & Hp). now apply Hp.
    + constructor; [|constructor]. simpl. specialize (Hlt _ _ Hm). lia.
Qed.

Example cancelled_timers_never_notify_witness :
  let w := run (OpSnooze "r1")
             (run (OpScan 1000000)
                (worldWith [exampleTask "a" "A" pending None
                              [reminderAt "r1" 990000]])) in
  Notifications.elapse 1 (Notifications.snoozeReminder "r1" w)
  = Notifications.snoozeReminder "r1" w.
Proof.
  intros w.
  assert (Hwf : timersWf w).
  { apply snoozeReminder_wf, scan_wf. now apply timersWf_no_timers. }
  assert (Hnd : NoDup (activeIds w)).
  { apply (bool_decide_unpack _). vm_compute. exact I. }
  destruct (cancelled_timers_never_notify w Hwf Hnd) as (_ & _ & H).
  apply H.
  - reflexivity.
  - apply list_elem_of_In. left. reflexivity.
Defined.

(** X15: when the timer of a snooze elapses, one toast says how many times
    the reminder had been snoozed when the timer was set, a desktop
    notification says the same when the permission is granted, and the
    reminder has no pending timer any more; its Active Reminder entry stays,
    and so does the handle in the map. *)
Theorem snooze_alert_when_timer_elapses (reminderId : string)
  (a : ActiveReminder) (w : World) :
  timersOk w -> NoDup (activeIds w) ->
  In a (activeReminders w) -> a_id a = reminderId ->
  let w1 := Notifications.snoozeReminder reminderId w in
  let w2 := Notifications.elapse (nextTimer w) w1 in
  let count := pretty (S (a_snoozeCount a)) in
  toasts w2
  = (toasts w ++
     [Notifications.snoozedToast;
      mkToast "⏰ Snoozed Reminder"
        (Some (str (a_taskTitle a) ++ " - Snoozed " ++ count ++ " time(s)")%string)
        false (Some 10000%Z)])%list /\
  notifications w2
  = (notifications w ++
     match permission w with
     | granted =>
         [mkNotification "⏰ Snoozed Reminder"
            (str (a_taskTitle a) ++ " - Reminder snoozed " ++ count ++ " time(s)")%string
            (a_taskId a)]
     | _ => []
     end)%list /\
  pendingFor reminderId w2 = [] /\
  activeReminders w2 = activeReminders w1 /\
  snoozeIntervals w2 !! reminderId = Some (nextTimer w) /\
  store w2 = store w.
Proof.
  intros Hok Hnd Hin Hid w1 w2 count.
  destruct (snoozeEntry_timeouts reminderId a w Hok) as (cleared & Htm & Hcl).
  destruct (snoozeEntry_fields reminderId a w) as (Hsi & Hnt & Hto & Hno & Hpm).
  destruct (snoozeEntry_spec reminderId a w Hok) as (_ & _ & _ & Hst & _).
  assert (Hw1 : w1 = setActiveReminders
                       (fun _ => map (snoozed reminderId) (activeReminders w))
                       (Notifications.snoozeEntry reminderId a w).2).
  { subst w1. rewrite snoozeReminder_unfold.
    now rewrite snoozeEach_fst, (snoozeEach_unique _ _ _ a Hnd Hin Hid). }
  remember (Notifications.snoozeEntry reminderId a w).2 as we eqn:Hwe.
  clear Hwe.
  assert (Hne : Forall (fun p : positive * SnoozeAlert => p.1 <> nextTimer w)
                       cleared).
  { eapply Forall_impl; [exact Hcl|]. intros p (Hlt & _). simpl in *. lia. }
  assert (Hfind : List.find (fun p : positive * SnoozeAlert =>
                               bool_decide (p.1 = nextTimer w)) (timeouts w1)
                  = Some (nextTimer w,
                          mkAlert reminderId (a_taskTitle a) (a_taskId a)
                                  (S (a_snoozeCount a)))).
  { rewrite Hw1. simpl. rewrite Htm. now apply find_last_handle. }
  assert (Hclear : List.filter
                     (fun p : positive * SnoozeAlert =>
                        negb (bool_decide (p.1 = nextTimer w))) (timeouts w1)
                   = cleared).
  { rewrite Hw1. simpl. rewrite Htm, List.filter_app. simpl.
    rewrite bool_decide_eq_true_2 by reflexivity. simpl. rewrite app_nil_r.
    apply filter_all. intros p Hp. apply negb_true_iff, bool_decide_eq_false.
    rewrite List.Forall_forall in Hne. now apply Hne. }
  assert (Hw2 : toasts w2 = (toasts w1 ++ [mkToast "⏰ Snoozed Reminder"
                   (Some (str (a_taskTitle a) ++ " - Snoozed " ++ count ++ " time(s)")%string)
                   false (Some 10000%Z)])%list /\
                notifications w2
                = (notifications w1 ++
                   match permission w1 with
                   | granted =>
                       [mkNotification "⏰ Snoozed Reminder"
                          (str (a_taskTitle a) ++ " - Reminder snoozed " ++ count
                           ++ " time(s)")%string (a_taskId a)]
                   | _ => []
                   end)%list /\
                timeouts w2 = cleared /\
                activeReminders w2 = activeReminders w1 /\
                snoozeIntervals w2 = snoozeIntervals w1 /\
                store w2 = store w1).
  { subst w2. unfold Notifications.elapse. rewrite Hfind.
    unfold Notifications.showNotification. simpl.
    destruct (permission w1); simpl; rewrite ?app_nil_r, Hclear;
      repeat split. }
  destruct Hw2 as (Ht2 & Hn2 & Htm2 & Ha2 & Hs2 & Hst2).
  assert (Hproj : toasts w1 = toasts we /\ notifications w1 = notifications we /\
                  permission w1 = permission we /\
                  snoozeIntervals w1 = snoozeIntervals we /\
                  store w1 = store we).
  { rewrite Hw1. repeat split. }
  destruct Hproj as (Hp1 & Hp2 & Hp3 & Hp4 & Hp5).
  rewrite Ht2, Hn2, Hs2, Hst2, Hp1, Hp2, Hp3, Hp4, Hp5, Hto, Hno, Hpm, Hsi, Hst.
  rewrite <- app_assoc. simpl.
  repeat split; try assumption.
  - unfold pendingFor. rewrite Htm2. apply filter_none. intros p Hp.
    rewrite List.Forall_forall in Hcl. destruct (Hcl p Hp) as (_ & Hrid & _).
    now apply bool_decide_eq_false.
  - apply lookup_insert_eq.
Qed.

Example snooze_alert_when_timer_elapses_witness :
  let w := run (OpScan 1000000)
             (worldWith [exampleTask "a" "A" pending None
                           [reminderAt "r1" 990000]]) in
  let w2 := Notifications.elapse 1 (Notifications.snoozeReminder "r1" w) in
  map toast_description (toasts w2)
  = [Some "A"; Some "You will be reminded again in 5 minutes.";
     Some "A - Snoozed 1 time(s)"] /\
  pendingFor "r1" w2 = [].
Proof.
  intros w w2.
  assert (Hok : timersOk w) by (split; vm_compute; constructor).
  assert (Hnd : NoDup (activeIds w)).
  { apply (bool_decide_unpack _). vm_compute. exact I. }
  assert (Hin : In (mkActive "r1" (Some "a") (Some "A") 990000 0)
                   (activeReminders w)) by (left; reflexivity).
  destruct (snooze_alert_when_timer_elapses "r1" _ w Hok Hnd Hin eq_refl)
    as (Ht & _ & Hp & _).
  split; [|exact Hp].
  change w2 with (Notifications.elapse (nextTimer w)
                    (Notifications.snoozeReminder "r1" w)).
  rewrite Ht. reflexivity.
Defined.

(** ** The permission *)

(** X16: the check that the effect runs when it is set up uses the permission
    of the render that set it up.  When that permission is not [granted], as
    in the first render, where the state is [default], the reminders due at
    that check raise their toasts and no desktop notification, whatever the
    permission of the browser, which is in the state only afterwards. *)
Theorem first_check_uses_render_permission
  (browser : option NotificationPermission) (now : Z) (w : World) :
  haveReminders (Store.tasks (store w)) ->
  permission w <> granted ->
  exists w',
    Lifecycle.effectSetup browser now w = Notifications.Done w' /\
    notifications w' = notifications w /\
    toasts w'
    = (toasts w ++ map firingToast (dueCalls now (Store.tasks (store w))))%list /\
    permission w' = match browser with Some p => p | None => permission w end.
Proof.
  intros Hts Hperm.
  destruct (fireAll_effects (dueCalls now (Store.tasks (store w))) w)
    as (Ht & Hn & Hp & _).
  unfold Lifecycle.effectSetup, Notifications.scan.
  rewrite (checkReminders_fold now _ w Hts).
  eexists. split; [reflexivity|].
  destruct browser as [p|]; simpl; rewrite Ht, Hn, ?Hp;
    (destruct (permission w); [contradiction| |]); rewrite app_nil_r;
    repeat split.
Qed.

Example first_check_uses_render_permission_witness :
  let w := worldWith [exampleTask "a" "A" pending None [reminderAt "r1" 990000]] in
  exists w',
    Lifecycle.effectSetup (Some granted) 1000000 w = Notifications.Done w' /\
    notifications w' = [] /\
    map toast_description (toasts w') = [Some "A"] /\
    permission w' = granted.
Proof.
  intros w.
  destruct (first_check_uses_render_permission (Some granted) 1000000 w)
    as (w' & Hs & Hn & Ht & Hp).
  - repeat constructor. discriminate.
  - discriminate.
  - exists w'. rewrite Hn, Ht, Hp. repeat split. exact Hs.
Defined.

(** X17: [requestPermission] returns true exactly when the browser answers
    [granted]; the permission of the state is then the answer of the browser,
    and it is left as it was when the browser has no notifications or the
    request throws.  After a true result every firing shows a desktop
    notification, and after an answer other than [granted] none does. *)
Theorem requestPermission_decides_notifications
  (browser : option (Outcome NotificationPermission)) (w : World) :
  let r := Lifecycle.requestPermission browser w in
  (r.1 = true <-> browser = Some (Success granted)) /\
  (forall p, browser = Some (Success p) -> permission r.2 = p) /\
  ((forall p, browser <> Some (Success p)) -> permission r.2 = permission w) /\
  store r.2 = store w /\
  (forall task reminder,
      let w' := Notifications.worldOf
                  (Notifications.triggerReminder task reminder r.2) in
      (r.1 = true ->
       notifications w'
       = (notifications r.2 ++ [firingNotification (task, reminder)])%list) /\
      (forall p, browser = Some (Success p) -> p <> granted ->
                 notifications w' = notifications r.2)).
Proof.
  intros r. subst r. repeat split.
  - destruct browser as [[message|[]]|]; simpl; intros H; congruence.
  - intros ->. reflexivity.
  - intros p ->. now destruct p.
  - intros H. destruct browser as [[message|p]|]; try reflexivity.
    now specialize (H p).
  - destruct browser as [[message|[]]|]; reflexivity.
  - intros Htrue.
    destruct (triggerReminder_effects task reminder
                (Lifecycle.requestPermission browser w).2) as (_ & -> & _).
    destruct browser as [[message|[]]|]; simpl in Htrue; try discriminate.
    reflexivity.
  - intros p -> Hp.
    destruct (triggerReminder_effects task reminder
                (Lifecycle.requestPermission (Some (Success p)) w).2)
      as (_ & -> & _).
    destruct p; [contradiction| |]; simpl; now rewrite app_nil_r.
Qed.

Example requestPermission_decides_notifications_witness :
  let r := Lifecycle.requestPermission (Some (Success granted)) initialWorld in
  permission r.2 = granted.
Proof.
  intros r.
  destruct (requestPermission_decides_notifications (Some (Success granted))
              initialWorld) as (_ & Hp & _).
  now apply Hp.
Defined.

Section ManyScans.
Import Store Notifications.

Lemma scans_active_NoDup nows w :
  NoDup (activeIds w) -> NoDup (activeIds (scans nows w)).
Proof.
  revert w. induction nows as [|now nows IH]; intros w Hnd; [assumption|].
  apply IH. now apply checkReminders_active_NoDup.
Qed.

Lemma scans_active_mono nows w id :
  id ∈ activeIds w -> id ∈ activeIds (scans nows w).
Proof.
  revert w. induction nows as [|now nows IH]; intros w Hin; [assumption|].
  apply IH. now apply checkReminders_active_mono.
Qed.
End ManyScans.

(** X18: once a scan has fired a reminder, the reminder has exactly one
    Active Reminder entry after any number of further scans, at any times:
    a reminder that fires again is not entered again.  The entries of the
    cache have their reminders, and the Active Reminder entries have
    distinct identifiers to start with. *)
Theorem fired_reminder_has_one_entry (now : Z) (nows : list Z) (w : World)
  (task : Task) (reminder : Reminder) :
  haveReminders (Store.tasks (store w)) ->
  NoDup (activeIds w) ->
  In (task, reminder) (dueCalls now (Store.tasks (store w))) ->
  countActive (r_id reminder) (scans (now :: nows) w) = 1.
Proof.
  intros Hts Hnd Hdue. unfold countActive. apply count_one.
  - now apply (scans_active_NoDup (now :: nows)).
  - change (scans (now :: nows) w)
      with (scans nows (Notifications.worldOf (Notifications.scan now w))).
    apply scans_active_mono.
    destruct (checkReminders_done now _ w Hts) as (w' & Hscan & Hfired).
    destruct (checkReminders_fired_active now (Store.tasks (store w)) w)
      as (calls & Hcalls & Hact).
    unfold Notifications.scan. rewrite Hscan in *. simpl in *.
    rewrite Hfired in Hcalls. apply app_inv_head in Hcalls. subst calls.
    rewrite List.Forall_forall in Hact. exact (Hact _ Hdue).
Qed.

Example fired_reminder_has_one_entry_witness :
  countActive "r1" (scans [1000000; 1030000; 1040000]%Z (worldWith [twoDue])) = 1.
Proof.
  apply (fired_reminder_has_one_entry 1000000 [1030000; 1040000]%Z
           (worldWith [twoDue]) twoDue (reminderAt "r1" 990000)).
  - repeat constructor. discriminate.
  - constructor.
  - left. reflexivity.
Defined.

(** ** The derived view: order and ties *)

Section InsertionLemmas.
Context {A : Type} (compare : A -> A -> option Num) (gt : A -> A -> bool).
Context (P : A -> Prop).
Hypothesis compare_gt :
  forall a b, exists v, compare a b = Some v /\ Num.isPos v = gt a b.
Hypothesis gt_trans :
  forall a b c, P a -> P b -> P c ->
                gt a b = false -> gt b c = false -> gt a c = false.
Hypothesis gt_total : forall a b, P a -> P b -> gt a b = true -> gt b a = false.

(** Where an insertion puts the new element: after the elements that the
    comparison puts first, before the first one that it does not. *)
Lemma insertSorted_split x l :
  exists l1 l2,
    l = (l1 ++ l2)%list /\
    insertSorted compare x l = Some (l1 ++ x :: l2)%list /\
    Forall (fun y => gt x y = true) l1 /\
    match l2 with [] => True | y :: _ => gt x y = false end.
Proof.
  induction l as [|y l IH]; simpl.
  - exists [], []. repeat split. constructor.
  - destruct (compare_gt x y) as (v & -> & Hv). simpl. rewrite Hv.
    destruct (gt x y) eqn:Hgt.
    + destruct IH as (l1 & l2 & -> & -> & Hl1 & Hl2). simpl.
      exists (y :: l1), l2. repeat split; [|assumption].
      constructor; assumption.
    + exists [], (y :: l). repeat split; [constructor|assumption].
Qed.

Lemma sortBy_some l : exists out, sortBy compare l = Some out.
Proof.
  induction l as [|x l [r Hr]]; simpl; [eauto|].
  rewrite Hr. simpl.
  destruct (insertSorted_split x r) as (l1 & l2 & _ & -> & _). eauto.
Qed.

Lemma insertSorted_sorted x l l1 l2 :
  P x -> Forall P l ->
  StronglySorted (fun a b => gt a b = false) l ->
  l = (l1 ++ l2)%list ->
  Forall (fun y => gt x y = true) l1 ->
  match l2 with [] => True | y :: _ => gt x y = false end ->
  StronglySorted (fun a b => gt a b = false) (l1 ++ x :: l2).
Proof.
  intros Hx HP Hs -> Hl1 Hl2.
  apply Forall_app in HP. destruct HP as [HP1 HP2].
  induction l1 as [|y l1 IH]; simpl in *.
  - constructor; [assumption|].
    destruct l2 as [|y l2]; [constructor|].
    inversion Hs as [|? ? Hs' Hy]; subst.
    inversion HP2 as [|? ? HPy HP2']; subst.
    constructor; [assumption|].
    rewrite List.Forall_forall in *. intros z Hz.
    apply (gt_trans x y z); auto.
  - inversion Hs as [|? ? Hs' Hy]; subst.
    inversion Hl1 as [|? ? Hgt Hl1']; subst.
    inversion HP1 as [|? ? HPy HP1']; subst.
    constructor; [now apply IH|].
    apply Forall_app in Hy. destruct Hy as [Hy1 Hy2].
    apply Forall_app. split; [assumption|].
    constructor; [|assumption]. now apply gt_total.
Qed.

Lemma sortBy_sorted l out :
  Forall P l -> sortBy compare l = Some out ->
  StronglySorted (fun a b => gt a b = false) out /\ Forall P out.
Proof.
  revert out. induction l as [|x l IH]; simpl; intros out HP Hs.
  - injection Hs as <-. split; constructor.
  - inversion HP as [|? ? Hx HP']; subst.
    destruct (sortBy compare l) as [r|]; [|discriminate]. simpl in Hs.
    destruct (IH r HP' eq_refl) as [Hr HPr].
    destruct (insertSorted_split x r) as (l1 & l2 & Heq & Hins & Hl1 & Hl2).
    rewrite Hins in Hs. injection Hs as <-. split.
    + now apply (insertSorted_sorted x r).
    + subst r. apply Forall_app in HPr. destruct HPr as [H1 H2].
      apply Forall_app. split; [assumption|]. now constructor.
Qed.

(** Elements with a given key keep their order, when the elements that an
    insertion passes never have the key of the element inserted. *)
Lemma sortBy_stable {K} `{EqDecision K} (key : A -> K) l out :
  (forall x y, gt x y = true -> key y <> key x) ->
  sortBy compare l = Some out ->
  forall k,
    List.filter (fun a => bool_decide (key a = k)) out
    = List.filter (fun a => bool_decide (key a = k)) l.
Proof.
  intros Hkey. revert out. induction l as [|x l IH]; simpl; intros out Hs k.
  - now injection Hs as <-.
  - destruct (sortBy compare l) as [r|]; [|discriminate]. simpl in Hs.
    destruct (insertSorted_split x r) as (l1 & l2 & Heq & Hins & Hl1 & _).
    rewrite Hins in Hs. injection Hs as <-.
    rewrite <- (IH r eq_refl k), Heq, !List.filter_app. simpl.
    destruct (bool_decide (key x = k)) eqn:Hk; [|reflexivity].
    apply bool_decide_eq_true in Hk.
    rewrite (filter_none _ l1); [reflexivity|].
    intros y Hy. apply bool_decide_eq_false. rewrite <- Hk.
    rewrite List.Forall_forall in Hl1. now apply Hkey, Hl1.
Qed.
End InsertionLemmas.

Section StronglySortedIndex.
Context {A : Type} (R : A -> A -> Prop).

Lemma StronglySorted_lookup (l : list A) i j a b :
  StronglySorted R l -> i < j -> l !! i = Some a -> l !! j = Some b -> R a b.
Proof.
  intros Hs. revert i j. induction Hs as [|x l Hs IH Hx]; intros i j Hij Hi Hj.
  - destruct i; discriminate.
  - destruct i as [|i], j as [|j]; simpl in *; try lia.
    + injection Hi as ->. rewrite List.Forall_forall in Hx. apply Hx.
      now apply list_elem_of_In, list_elem_of_lookup_2 with j.
    + apply (IH i j); [lia|assumption|assumption].
Qed.
End StronglySortedIndex.

Section KeyOrder.
Import Store View.
Variable localeCompare : string -> string -> Z.

Lemma keyGt_trans a b c :
  isKey a = true -> isKey b = true -> isKey c = true ->
  keyGt a b = false -> keyGt b c = false -> keyGt a c = false.
Proof.
  unfold keyGt. destruct a, b, c; simpl; try discriminate; try reflexivity;
    intros _ _ _ H1 H2; try discriminate.
  apply Z.ltb_ge in H1, H2. apply Z.ltb_ge. lia.
Qed.

Lemma keyGt_total a b :
  isKey a = true -> isKey b = true -> keyGt a b = true -> keyGt b a = false.
Proof.
  unfold keyGt. destruct a, b; simpl; try discriminate; try reflexivity.
  intros _ _ H. apply Z.ltb_lt in H. apply Z.ltb_ge. lia.
Qed.

Lemma keyGt_irrefl a : keyGt a a = false.
Proof. unfold keyGt. destruct a; simpl; try reflexivity. apply Z.ltb_ge. lia. Qed.

Lemma sortKey_shape by_ t :
  match sortKey by_ t with NInf => False | _ => True end.
Proof.
  unfold sortKey, dueKey, priorityOrder, createdKey.
  destruct by_; simpl; auto.
  - now destruct (t_dueDate t) as [[d|]|].
  - now destruct (t_priority t) as [[]|].
  - now destruct (t_createdAt t).
Qed.

Lemma isPos_neg_sub a b :
  match a with NInf => False | _ => True end ->
  match b with NInf => False | _ => True end ->
  Num.isPos (Num.neg (Num.sub a b)) = keyGt b a.
Proof.
  unfold keyGt. destruct a, b; simpl; try contradiction; try reflexivity.
  intros _ _. f_equal. lia.
Qed.

(** The comparison function in terms of the keys. *)
Lemma compareTasks_key f a b :
  f_sortBy f <> by_title ->
  exists v, compareTasks localeCompare f a b = Some v /\
            Num.isPos v = putsSecondFirst f a b.
Proof.
  intros Hby. unfold compareTasks, comparison, putsSecondFirst.
  assert (Ha := sortKey_shape (f_sortBy f) a).
  assert (Hb := sortKey_shape (f_sortBy f) b).
  destruct (f_sortBy f), (f_sortOrder f); try congruence; simpl in *;
    eexists; (split; [reflexivity|]);
    try reflexivity; now apply isPos_neg_sub.
Qed.

Lemma putsSecondFirst_trans f a b c :
  isKey (sortKey (f_sortBy f) a) = true ->
  isKey (sortKey (f_sortBy f) b) = true ->
  isKey (sortKey (f_sortBy f) c) = true ->
  putsSecondFirst f a b = false -> putsSecondFirst f b c = false ->
  putsSecondFirst f a c = false.
Proof.
  intros Ha Hb Hc. unfold putsSecondFirst.
  destruct (f_sortBy f), (f_sortOrder f); intros H1 H2;
    eauto using keyGt_trans.
Qed.

Lemma putsSecondFirst_total f a b :
  isKey (sortKey (f_sortBy f) a) = true ->
  isKey (sortKey (f_sortBy f) b) = true ->
  putsSecondFirst f a b = true -> putsSecondFirst f b a = false.
Proof.
  intros Ha Hb. unfold putsSecondFirst.
  destruct (f_sortBy f), (f_sortOrder f); intros H1; eauto using keyGt_total.
Qed.

Lemma putsSecondFirst_key f a b :
  putsSecondFirst f a b = true ->
  sortKey (f_sortBy f) b <> sortKey (f_sortBy f) a.
Proof.
  unfold putsSecondFirst. intros H Heq. rewrite Heq in H.
  destruct (f_sortBy f), (f_sortOrder f); rewrite keyGt_irrefl in H;
    discriminate.
Qed.

(** The result of a sort by a key: a permutation with no pair out of order. *)
Lemma sortBy_key_inOrder f filtered :
  f_sortBy f <> by_title -> sortable (f_sortBy f) filtered ->
  exists out,
    sortBy (compareTasks localeCompare f) filtered = Some out /\
    Permutation out filtered /\ inOrder f out /\
    sortable (f_sortBy f) out.
Proof.
  intros Hby Hsortable.
  destruct (sortBy_some (compareTasks localeCompare f) (putsSecondFirst f)
              (fun a b => compareTasks_key f a b Hby) filtered) as [out Hout].
  exists out. split; [assumption|].
  destruct (sortBy_total (compareTasks localeCompare f)
              (fun a b => match compareTasks_key f a b Hby with
                          | ex_intro _ v (conj Hv _) => ex_intro _ v Hv
                          end) filtered) as (out' & Hout' & Hperm).
  rewrite Hout in Hout'. injection Hout' as <-.
  split; [assumption|].
  destruct (sortBy_sorted (compareTasks localeCompare f) (putsSecondFirst f)
              (fun t => isKey (sortKey (f_sortBy f) t) = true)
              (fun a b => compareTasks_key f a b Hby)
              (putsSecondFirst_trans f) (putsSecondFirst_total f)
              filtered out Hsortable Hout) as [Hsorted HP].
  split; [|exact HP].
  intros i j a b Hij Hi Hj.
  exact (StronglySorted_lookup _ out i j a b Hsorted Hij Hi Hj).
Qed.
End KeyOrder.

Section ViewTheoremsLemmas.
Import Store View.

Lemma keyGt_Fin x y : keyGt (Fin x) (Fin y) = false <-> (x <= y)%Z.
Proof. unfold keyGt. simpl. rewrite Z.ltb_ge. lia. Qed.

Lemma putsSecondFirst_orderedPair f a b :
  putsSecondFirst f a b = false -> orderedPair f a b.
Proof.
  unfold putsSecondFirst, orderedPair, sortKey, dueKey, priorityOrder, createdKey.
  destruct (f_sortBy f), (f_sortOrder f); auto.
  - intros H da db Ha Hb. rewrite Ha, Hb in H. now apply keyGt_Fin in H.
  - intros H da db Ha Hb. rewrite Ha, Hb in H. now apply keyGt_Fin in H.
  - intros H pa pb Ha Hb. rewrite Ha, Hb in H.
    destruct pa, pb; simpl in *; try lia; now apply keyGt_Fin in H.
  - intros H pa pb Ha Hb. rewrite Ha, Hb in H.
    destruct pa, pb; simpl in *; try lia; now apply keyGt_Fin in H.
  - intros H ca cb Ha Hb. rewrite Ha, Hb in H. now apply keyGt_Fin in H.
  - intros H ca cb Ha Hb. rewrite Ha, Hb in H. now apply keyGt_Fin in H.
Qed.

Lemma filter_filter_and {A} (f g : A -> bool) (l : list A) :
  List.filter g (List.filter f l) = List.filter (fun x => f x && g x) l.
Proof.
  induction l as [|x l IH]; simpl; [reflexivity|].
  destruct (f x); simpl; [|assumption]. destruct (g x); now rewrite IH.
Qed.

Lemma filter_true {A} (l : list A) : List.filter (fun _ => true) l = l.
Proof. induction l as [|x l IH]; simpl; [reflexivity|now rewrite IH]. Qed.

Lemma stage_option {A B} (o : option B) (f : B -> A -> bool) (l : list A) :
  match o with Some p => List.filter (f p) l | None => l end
  = List.filter (fun x => match o with Some p => f p x | None => true end) l.
Proof. destruct o; [reflexivity|now rewrite filter_true]. Qed.

Lemma stage_bool {A} (b : bool) (f : A -> bool) (l : list A) :
  (if b then l else List.filter f l) = List.filter (fun x => b || f x) l.
Proof. destruct b; [now rewrite filter_true|reflexivity]. Qed.

(** Without search text, the filters keep the tasks that pass, in order. *)
Lemma applyFilters_passes toLowerCase s :
  f_search (filters s) = "" ->
  applyFilters toLowerCase s = Some (List.filter (passesb (filters s)) (tasks s)).
Proof.
  intros Hsearch. unfold applyFilters. rewrite Hsearch.
  rewrite bool_decide_eq_true_2 by reflexivity. f_equal. cbv zeta.
  rewrite (stage_bool (bool_decide (f_category (filters s) = "all"))
             (fun t => bool_decide (t_category t = Some (f_category (filters s))))).
  rewrite (stage_option (f_status (filters s))
             (fun st t => bool_decide (t_status t = Some st))).
  rewrite (stage_option (f_priority (filters s))
             (fun p t => bool_decide (t_priority t = Some p))).
  rewrite !filter_filter_and. apply filter_ext. intros t.
  unfold passesb. now rewrite andb_assoc.
Qed.
End ViewTheoremsLemmas.

(** X19: what the sorts by due date, priority and creation date give, for
    tasks that have the property sorted by (a due date may be null).  The
    result is a permutation of the filtered tasks, and of any two of its
    tasks the first has, in ascending order, the earlier due date or the
    higher priority (high, medium, low) but the later creation date, and in
    descending order the converse: the sort by creation date in ascending
    order lists the newest task first. *)
Theorem sorts_put_keys_in_order (toLowerCase : string -> string)
  (localeCompare : string -> string -> Z) (s : Store.TaskStore)
  (filtered : list Task) :
  View.applyFilters toLowerCase s = Some filtered ->
  f_sortBy (Store.filters s) <> by_title ->
  sortable (f_sortBy (Store.filters s)) filtered ->
  exists out,
    View.getFilteredTasks toLowerCase localeCompare s = Some out /\
    Permutation out filtered /\
    forall i j a b,
      i < j -> out !! i = Some a -> out !! j = Some b ->
      orderedPair (Store.filters s) a b.
Proof.
  intros Hfilt Hby Hsortable.
  destruct (sortBy_key_inOrder localeCompare (Store.filters s) filtered
              Hby Hsortable) as (out & Hout & Hperm & Hord & _).
  exists out. unfold View.getFilteredTasks. rewrite Hfilt. simpl.
  split; [assumption|]. split; [assumption|].
  intros i j a b Hij Hi Hj.
  apply putsSecondFirst_orderedPair. exact (Hord i j a b Hij Hi Hj).
Qed.

Example sorts_put_keys_in_order_witness :
  let s := storeWith (mkFilters None None "all" "" by_createdAt asc)
             [createdTask "old" 10 low; createdTask "new" 20 high] in
  exists out,
    View.getFilteredTasks (fun x => x) (fun _ _ => 0%Z) s = Some out /\
    Permutation out (Store.tasks s) /\
    forall i j a b,
      i < j -> out !! i = Some a -> out !! j = Some b ->
      orderedPair (Store.filters s) a b.
Proof.
  intros s.
  apply (sorts_put_keys_in_order (fun x => x) (fun _ _ => 0%Z) s (Store.tasks s)).
  - reflexivity.
  - discriminate.
  - repeat constructor.
Defined.

(** X20: the sorts by due date, priority and creation date keep the order of
    ties, for tasks that have the property sorted by (a due date may be
    null), where the comparison is consistent and the sort of the engine is
    stable: the tasks with the same key (the same due date or none, the same
    priority, the same creation date) come in the order the filtered list has
    them. *)
Theorem sorts_keep_order_of_ties (toLowerCase : string -> string)
  (localeCompare : string -> string -> Z) (s : Store.TaskStore)
  (filtered : list Task) :
  View.applyFilters toLowerCase s = Some filtered ->
  f_sortBy (Store.filters s) <> by_title ->
  sortable (f_sortBy (Store.filters s)) filtered ->
  exists out,
    View.getFilteredTasks toLowerCase localeCompare s = Some out /\
    forall k,
      List.filter (fun t => bool_decide (sortKey (f_sortBy (Store.filters s)) t = k))
                  out
      = List.filter (fun t => bool_decide (sortKey (f_sortBy (Store.filters s)) t = k))
                    filtered.
Proof.
  intros Hfilt Hby _.
  destruct (sortBy_some (View.compareTasks localeCompare (Store.filters s))
              (putsSecondFirst (Store.filters s))
              (fun a b => compareTasks_key localeCompare _ a b Hby) filtered)
    as [out Hout].
  exists out. unfold View.getFilteredTasks. rewrite Hfilt. simpl.
  split; [assumption|].
  apply (sortBy_stable (View.compareTasks localeCompare (Store.filters s))
           (putsSecondFirst (Store.filters s))
           (fun a b => compareTasks_key localeCompare _ a b Hby)
           (sortKey (f_sortBy (Store.filters s))) filtered out);
    [|assumption].
  intros x y. apply putsSecondFirst_key.
Qed.

Example sorts_keep_order_of_ties_witness :
  let s := storeWith (mkFilters None None "all" "" by_priority asc)
             [createdTask "m1" 1 medium; createdTask "h" 2 high;
              createdTask "m2" 3 medium] in
  exists out,
    View.getFilteredTasks (fun x => x) (fun _ _ => 0%Z) s = Some out /\
    forall k,
      List.filter (fun t => bool_decide (sortKey by_priority t = k)) out
      = List.filter (fun t => bool_decide (sortKey by_priority t = k))
                    (Store.tasks s).
Proof.
  intros s.
  apply (sorts_keep_order_of_ties (fun x => x) (fun _ _ => 0%Z) s (Store.tasks s)).
  - reflexivity.
  - discriminate.
  - repeat constructor.
Defined.

(** X21: without search text, and sorted by a key, [getFilteredTasks] returns
    exactly the tasks of the cache that pass the filters on priority, status
    and category, each as often as the cache holds it; with no filter
    selected it returns all the tasks. *)
Theorem filters_select_passing_tasks (toLowerCase : string -> string)
  (localeCompare : string -> string -> Z) (s : Store.TaskStore) :
  f_search (Store.filters s) = "" ->
  f_sortBy (Store.filters s) <> by_title ->
  exists out,
    View.getFilteredTasks toLowerCase localeCompare s = Some out /\
    Permutation out (List.filter (passesb (Store.filters s)) (Store.tasks s)) /\
    (forall t, In t out <->
               In t (Store.tasks s) /\ passesb (Store.filters s) t = true) /\
    (f_priority (Store.filters s) = None ->
     f_status (Store.filters s) = None ->
     f_category (Store.filters s) = "all" ->
     Permutation out (Store.tasks s)).
Proof.
  intros Hsearch Hby.
  destruct (sortBy_total (View.compareTasks localeCompare (Store.filters s))
              (fun a b => match compareTasks_key localeCompare _ a b Hby with
                          | ex_intro _ v (conj Hv _) => ex_intro _ v Hv
                          end)
              (List.filter (passesb (Store.filters s)) (Store.tasks s)))
    as (out & Hout & Hperm).
  exists out. unfold View.getFilteredTasks.
  rewrite (applyFilters_passes toLowerCase s Hsearch). simpl.
  split; [assumption|]. split; [assumption|]. split.
  - intros t. rewrite <- filter_In. split; intros H.
    + now apply (Permutation_in _ Hperm).
    + now apply (Permutation_in _ (Permutation_sym Hperm)).
  - intros Hp Hst Hc. etransitivity; [exact Hperm|].
    unfold passesb. rewrite Hp, Hst, Hc. simpl.
    now rewrite filter_true.
Qed.

Example filters_select_passing_tasks_witness :
  let s := storeWith (mkFilters (Some high) None "all" "" by_dueDate asc)
             [createdTask "m1" 1 medium; createdTask "h" 2 high] in
  exists out,
    View.getFilteredTasks (fun x => x) (fun _ _ => 0%Z) s = Some out /\
    Permutation out [createdTask "h" 2 high].
Proof.
  intros s.
  destruct (filters_select_passing_tasks (fun x => x) (fun _ _ => 0%Z) s)
    as (out & Hout & Hperm & _).
  - reflexivity.
  - discriminate.
  - exists out. split; assumption.
Defined.

(** ** The summaries *)

Section SummaryLemmas.
Import Store Sync Summary.

Lemma toggle_entry u now id task w t :
  findTask id w = Some task ->
  In t (tasks (store (toggleTaskStatus (Some u) now id (Success tt) w).2)) ->
  t_id t = Some id ->
  if bool_decide (t_status task = Some pending)
  then t_status t = Some completed /\ t_completedAt t = Some (Some now)
  else t_status t = Some pending /\ t_completedAt t = Some None.
Proof.
  intros Hfind Hin Hid. unfold toggleTaskStatus in Hin. rewrite Hfind in Hin.
  rewrite (updateTask_success u id _ tt w task Hfind) in Hin.
  unfold updateTaskOptimistic, withTasks in Hin. simpl in Hin.
  destruct (bool_decide (t_status task = Some pending)) eqn:Hb.
  - apply bool_decide_eq_true in Hb.
    rewrite (togglePatch_pending now task Hb) in Hin.
    eapply completionPatch_entries; eauto.
  - apply bool_decide_eq_false in Hb.
    rewrite (togglePatch_other now task Hb) in Hin.
    eapply completionPatch_entries; eauto.
Qed.

Lemma count_cons (p : Task -> bool) t ts :
  Analytics.count p (t :: ts)
  = (if p t then 1 else 0) + Analytics.count p ts.
Proof. unfold Analytics.count. simpl. now destruct (p t). Qed.

Lemma count_le (p q : Task -> bool) ts :
  (forall t, In t ts -> p t = true -> q t = true) ->
  Analytics.count p ts <= Analytics.count q ts.
Proof.
  induction ts as [|t ts IH]; intros H; [reflexivity|].
  rewrite !count_cons.
  assert (IH' : Analytics.count p ts <= Analytics.count q ts).
  { apply IH. intros t' Hin. apply H. now right. }
  specialize (H t (or_introl eq_refl)).
  destruct (p t); [rewrite H by reflexivity; lia|].
  destruct (q t); lia.
Qed.

Lemma count_disjoint (p q r : Task -> bool) ts :
  (forall t, In t ts -> p t = true -> r t = true /\ q t = false) ->
  (forall t, In t ts -> q t = true -> r t = true) ->
  Analytics.count p ts + Analytics.count q ts <= Analytics.count r ts.
Proof.
  induction ts as [|t ts IH]; intros Hp Hq; [reflexivity|].
  rewrite !count_cons.
  assert (IH' : Analytics.count p ts + Analytics.count q ts
                <= Analytics.count r ts).
  { apply IH; intros t' Hin; [apply Hp | apply Hq]; now right. }
  specialize (Hp t (or_introl eq_refl)). specialize (Hq t (or_introl eq_refl)).
  destruct (p t).
  - destruct (Hp eq_refl) as [-> ->]. lia.
  - destruct (q t); [rewrite Hq by reflexivity; lia|].
    destruct (r t); lia.
Qed.

Lemma utc_calendar : calendar utcDateString utcStartOfDay.
Proof.
  intros d n H. unfold utcDateString, utcStartOfDay in *.
  apply (inj pretty) in H. rewrite <- H.
  rewrite Z.mul_comm. apply Z.mul_div_le. lia.
Qed.
End SummaryLemmas.

(** X22: the status toggle moves a task between the summaries.  After a
    toggle at [now] that the Remote Store accepts, an entry with the
    identifier of a task that was pending is completed: it is among the tasks
    completed this week at every time [now'] up to a week after [now], and at
    no later time, and it is neither overdue nor due today.  An entry of a
    task that was not pending is pending again: it is not among the tasks
    completed this week, and is overdue or due today as its due date says. *)
Theorem toggle_moves_task_between_summaries
  (toDateString : Z -> string) (startOfDay : Z -> Z)
  (u : string) (now : Z) (id : string) (task : Task) (w : World) :
  Sync.findTask id w = Some task ->
  let after := store (Sync.toggleTaskStatus (Some u) now id (Success tt) w).2 in
  forall t now',
    In t (Store.tasks after) -> t_id t = Some id ->
    (t_status task = Some pending ->
       (In t (Summary.getCompletedTasksThisWeek now' after)
        <-> (now' - 604800000 <= now)%Z) /\
       ~ In t (Summary.getOverdueTasks startOfDay now' after) /\
       ~ In t (Summary.getTasksDueToday toDateString now' after)) /\
    (t_status task <> Some pending ->
       ~ In t (Summary.getCompletedTasksThisWeek now' after) /\
       (In t (Summary.getOverdueTasks startOfDay now' after)
        <-> exists d, t_dueDate t = Some (Some d) /\ (d < startOfDay now')%Z) /\
       (In t (Summary.getTasksDueToday toDateString now' after)
        <-> exists d, t_dueDate t = Some (Some d) /\
                      toDateString d = toDateString now')).
Proof.
  intros Hfind after t now' Hin Hid.
  pose proof (toggle_entry u now id task w t Hfind Hin Hid) as He.
  unfold Summary.getCompletedTasksThisWeek, Summary.getOverdueTasks,
    Summary.getTasksDueToday, Summary.dueOn, Summary.week.
  split; intros Hst.
  - rewrite bool_decide_eq_true_2 in He by assumption.
    destruct He as [Hs Hc]. rewrite !filter_In, Hs, Hc.
    split; [|split].
    + split.
      * intros [_ H]. simpl in H. lia.
      * intros H. split; [assumption|]. simpl. lia.
    + intros [_ H]; discriminate H.
    + intros [_ H]; discriminate H.
  - rewrite bool_decide_eq_false_2 in He by assumption.
    destruct He as [Hs Hc]. rewrite !filter_In, Hs, Hc.
    split; [|split].
    + intros [_ H]; discriminate H.
    + split.
      * intros [_ H]. simpl in H.
        destruct (t_dueDate t) as [[d|]|]; try discriminate H.
        exists d. split; [reflexivity | lia].
      * intros (d & Hd & Hlt). split; [assumption|]. rewrite Hd. simpl. lia.
    + split.
      * intros [_ H]. simpl in H.
        destruct (t_dueDate t) as [[d|]|]; try discriminate H.
        exists d. split; [reflexivity | now apply bool_decide_eq_true in H].
      * intros (d & Hd & Heq). split; [assumption|]. rewrite Hd. simpl.
        now apply bool_decide_eq_true.
Qed.

Example toggle_moves_task_between_summaries_witness :
  let w := worldWith [summaryTask "a" pending 86400000%Z None] in
  let after := store (Sync.toggleTaskStatus (Some "u") 90000000%Z "a"
                        (Success tt) w).2 in
  Store.tasks after = [summaryTask "a" completed 86400000%Z (Some 90000000%Z)] /\
  Summary.getCompletedTasksThisWeek 600000000%Z after = Store.tasks after /\
  Summary.getCompletedTasksThisWeek 700000000%Z after = [] /\
  (In (summaryTask "a" completed 86400000%Z (Some 90000000%Z))
      (Summary.getCompletedTasksThisWeek 600000000%Z after)
   <-> (600000000 - 604800000 <= 90000000)%Z).
Proof.
  intros w after. do 3 (split; [reflexivity|]).
  exact (proj1 (proj1 (toggle_moves_task_between_summaries
                         utcDateString utcStartOfDay
                         "u" 90000000%Z "a"
                         (summaryTask "a" pending 86400000%Z None) w eq_refl
                         (summaryTask "a" completed 86400000%Z (Some 90000000%Z))
                         600000000%Z (or_introl eq_refl) eq_refl)
                      eq_refl)).
Defined.

(** X23: the summary cards do not count a task twice.  On a calendar where
    an instant of today is not before today's midnight, a task due today is
    among the tasks of today's date and is not overdue; a task completed this
    week is neither overdue nor due today; so the overdue tasks and the tasks
    due today together are at most the active tasks, and the active tasks and
    the tasks completed this week together are at most all tasks. *)
Theorem summaries_do_not_overlap
  (toDateString : Z -> string) (startOfDay : Z -> Z) (now : Z)
  (s : Store.TaskStore) :
  calendar toDateString startOfDay ->
  (forall t, In t (Summary.getTasksDueToday toDateString now s) ->
             In t (Summary.getTasksByDate toDateString now s) /\
             ~ In t (Summary.getOverdueTasks startOfDay now s)) /\
  (forall t now', In t (Summary.getCompletedTasksThisWeek now' s) ->
                  ~ In t (Summary.getOverdueTasks startOfDay now s) /\
                  ~ In t (Summary.getTasksDueToday toDateString now s)) /\
  length (Summary.getOverdueTasks startOfDay now s) +
  length (Summary.getTasksDueToday toDateString now s)
  <= Analytics.activeTasks (Store.tasks s) /\
  Analytics.activeTasks (Store.tasks s) +
  length (Summary.getCompletedTasksThisWeek now s)
  <= length (Store.tasks s).
Proof.
  intros Hcal.
  assert (Hday : forall t,
             Summary.dueOn toDateString (toDateString now) t = true ->
             match t_dueDate t with
             | Some (Some d) => (d <? startOfDay now)%Z
             | _ => false
             end = false).
  { intros t H. unfold Summary.dueOn in H.
    destruct (t_dueDate t) as [[d|]|]; try reflexivity.
    apply bool_decide_eq_true in H. apply Hcal in H. lia. }
  unfold Summary.getTasksDueToday, Summary.getTasksByDate,
    Summary.getOverdueTasks, Summary.getCompletedTasksThisWeek,
    Analytics.activeTasks.
  split; [|split; [|split]].
  - intros t Hin. apply filter_In in Hin. destruct Hin as [Hin H].
    apply andb_true_iff in H. destruct H as [_ H]. split.
    + apply filter_In. now split.
    + rewrite filter_In. intros [_ H']. apply andb_true_iff in H'.
      destruct H' as [_ H']. rewrite (Hday t H) in H'. discriminate H'.
  - intros t now' Hin. apply filter_In in Hin. destruct Hin as [_ H].
    apply andb_true_iff in H. destruct H as [H _].
    apply bool_decide_eq_true in H.
    split; rewrite filter_In, H; intros [_ H']; discriminate H'.
  - apply (count_disjoint _ _ _ (Store.tasks s)).
    + intros t _ H. apply andb_true_iff in H. destruct H as [H1 H2].
      split; [assumption|]. rewrite H1. simpl.
      unfold Summary.dueOn.
      destruct (t_dueDate t) as [[d|]|]; try reflexivity.
      apply bool_decide_eq_false. intros Heq. apply Hcal in Heq. lia.
    + intros t _ H. apply andb_true_iff in H. now destruct H.
  - rewrite <- (filter_true (Store.tasks s)) at 3.
    apply (count_disjoint _ _ (fun _ => true) (Store.tasks s)).
    + intros t _ H. apply bool_decide_eq_true in H. rewrite H.
      split; reflexivity.
    + reflexivity.
Qed.

Example summaries_do_not_overlap_witness :
  let s := storeWith Store.defaultFilters
             [summaryTask "a" pending 86400000%Z None;
              summaryTask "b" pending 200000000%Z None;
              summaryTask "c" completed 86400000%Z (Some 190000000%Z)] in
  (Summary.getOverdueTasks utcStartOfDay 200000000%Z s
   = [summaryTask "a" pending 86400000%Z None] /\
   Summary.getTasksDueToday utcDateString 200000000%Z s
   = [summaryTask "b" pending 200000000%Z None]) /\
  length (Summary.getOverdueTasks utcStartOfDay 200000000%Z s) +
  length (Summary.getTasksDueToday utcDateString 200000000%Z s)
  <= Analytics.activeTasks (Store.tasks s).
Proof.
  intros s. split; [split; reflexivity|].
  exact (proj1 (proj2 (proj2 (summaries_do_not_overlap
                                utcDateString utcStartOfDay 200000000%Z s
                                utc_calendar)))).
Defined.

(** ** The charts *)

Section ChartLemmas.

Lemma list_sum_add {A} (f g : A -> nat) l :
  list_sum (map (fun x => f x + g x) l)
  = list_sum (map f l) + list_sum (map g l).
Proof. induction l as [|x l IH]; simpl; [reflexivity | rewrite IH; lia]. Qed.

Lemma inCategory_none t categories :
  (forall cat, In cat categories -> t_category t <> Some (c_name cat)) ->
  list_sum (map (inCategory t) categories) = 0.
Proof.
  induction categories as [|cat cats IH]; intros H; [reflexivity|].
  simpl. rewrite IH by (intros c Hc; apply H; now right).
  unfold inCategory. rewrite bool_decide_eq_false_2; [reflexivity|].
  apply H. now left.
Qed.

Lemma inCategory_once t categories :
  NoDup (map c_name categories) ->
  list_sum (map (inCategory t) categories) <= 1 /\
  (categorized categories t ->
   list_sum (map (inCategory t) categories) = 1).
Proof.
  induction categories as [|cat cats IH]; intros Hnd.
  - split; [simpl; lia|]. intros (c & [] & _).
  - simpl in Hnd. apply NoDup_cons in Hnd. destruct Hnd as [Hnotin Hnd].
    specialize (IH Hnd). destruct IH as [IHle IHeq]. simpl.
    unfold inCategory at 1 3.
    destruct (bool_decide (t_category t = Some (c_name cat))) eqn:Hb.
    + apply bool_decide_eq_true in Hb.
      rewrite inCategory_none; [split; [lia | reflexivity]|].
      intros c Hc Heq. apply Hnotin. rewrite Hb in Heq.
      injection Heq as Heq. rewrite Heq.
      apply list_elem_of_In. apply in_map_iff. now exists c.
    + apply bool_decide_eq_false in Hb. split; [lia|].
      intros (c & [<- | Hc] & Heq); [contradiction|].
      simpl. apply IHeq. now exists c.
Qed.

Lemma categoryData_tasks categories tasks :
  list_sum (map Analytics.cb_tasks (Analytics.categoryData categories tasks))
  = list_sum (map (fun t => list_sum (map (inCategory t) categories)) tasks).
Proof.
  unfold Analytics.categoryData. rewrite map_map. simpl.
  induction tasks as [|t ts IH].
  - simpl. induction categories; simpl; auto.
  - simpl. rewrite <- IH, <- list_sum_add. f_equal. apply map_ext.
    intros cat. rewrite count_cons. reflexivity.
Qed.
End ChartLemmas.

(** X24: the charts account for every task.  For tasks that have a priority
    and a status, the three priority slices add up to the number of tasks and
    so do the two status slices.  No category bar shows more completed tasks
    than tasks; when the names of the categories are distinct, the bars
    together count no task twice, and they count every task when each task
    has one of the categories.  The two groups of the task list split the
    list in the same way. *)
Theorem charts_account_for_every_task
  (categories : list Category) (tasks : list Task) :
  Forall (fun t => t_priority t <> None /\ t_status t <> None) tasks ->
  NoDup (map c_name categories) ->
  list_sum (map Analytics.s_value (Analytics.priorityData tasks)) = length tasks /\
  list_sum (map Analytics.s_value (Analytics.statusData tasks)) = length tasks /\
  length (Analytics.pendingTasks tasks) + length (Analytics.completedTasks tasks)
  = length tasks /\
  (forall bar, In bar (Analytics.categoryData categories tasks) ->
               Analytics.cb_completed bar <= Analytics.cb_tasks bar <= length tasks) /\
  list_sum (map Analytics.cb_tasks (Analytics.categoryData categories tasks))
  <= length tasks /\
  (Forall (categorized categories) tasks ->
   list_sum (map Analytics.cb_tasks (Analytics.categoryData categories tasks))
   = length tasks).
Proof.
  intros Hall Hnd.
  assert (Hpriority :
            list_sum (map Analytics.s_value (Analytics.priorityData tasks))
            = length tasks).
  { simpl. rewrite Nat.add_0_r.
    induction Hall as [|t ts [Hp _] _ IH]; [reflexivity|].
    rewrite !count_cons. simpl length.
    destruct (t_priority t) as [[]|]; [| | |contradiction]; simpl; lia. }
  assert (Hstatus : Analytics.count (fun t => bool_decide (t_status t = Some pending)) tasks
                    + Analytics.count (fun t => bool_decide (t_status t = Some completed)) tasks
                    = length tasks).
  { clear Hpriority.
    induction Hall as [|t ts [_ Hs] _ IH]; [reflexivity|].
    rewrite !count_cons. simpl length.
    destruct (t_status t) as [[]|]; [| |contradiction]; simpl; lia. }
  split; [|split; [|split; [|split; [|split]]]].
  - exact Hpriority.
  - simpl. lia.
  - exact Hstatus.
  - intros bar Hin. unfold Analytics.categoryData in Hin.
    apply in_map_iff in Hin. destruct Hin as (cat & <- & _). simpl. split.
    + apply count_le. intros t _ H. apply andb_true_iff in H. now destruct H.
    + unfold Analytics.count. apply filter_length_le.
  - rewrite categoryData_tasks. clear Hall Hstatus Hpriority.
    induction tasks as [|t ts IH]; [reflexivity|].
    simpl. pose proof (proj1 (inCategory_once t categories Hnd)). lia.
  - intros Hcat. rewrite categoryData_tasks. clear Hall Hstatus Hpriority.
    induction Hcat as [|t ts Ht _ IH]; [reflexivity|].
    simpl. rewrite (proj2 (inCategory_once t categories Hnd) Ht). lia.
Qed.

Example charts_account_for_every_task_witness :
  let categories := [mkCategory "1" "Work" "blue" "w";
                     mkCategory "2" "Home" "green" "h"] in
  let tasks := [chartTask "a" high pending "Work";
                chartTask "b" low completed "Work";
                chartTask "c" low pending "Garden"] in
  map Analytics.s_value (Analytics.priorityData tasks) = [1; 0; 2] /\
  map Analytics.cb_tasks (Analytics.categoryData categories tasks) = [2; 0] /\
  list_sum (map Analytics.s_value (Analytics.priorityData tasks)) = length tasks.
Proof.
  intros categories tasks. do 2 (split; [reflexivity|]).
  refine (proj1 (charts_account_for_every_task categories tasks _ _)).
  - repeat constructor; discriminate.
  - apply NoDup_ListNoDup. repeat constructor; simpl; intuition discriminate.
Defined.

(** ** The roles *)

Section RoleLemmas.
Import Roles.

Lemma fetchUserRole_role user remote s :
  userRole (fetchUserRole user remote s)
  = match user, remote with
    | None, _ => None
    | Some _, Failure _ => Some developer
    | Some _, Success role => Some role
    end.
Proof. destruct user, remote; reflexivity. Qed.

Lemma assignRole_denied user userId role existing write profiles roles s :
  user = None \/ userRole s <> Some manager ->
  assignRole user userId role existing write profiles roles s
  = (false, toast deniedToast s).
Proof.
  intros H. unfold assignRole, canManageRoles.
  destruct H as [-> | H]; [reflexivity|].
  rewrite (bool_decide_eq_false_2 _ H). now rewrite orb_true_r.
Qed.

Lemma roleMap_snoc roles r :
  roleMap (roles ++ [r]) = <[ r.1 := r.2 ]> (roleMap roles).
Proof. unfold roleMap. now rewrite foldl_app. Qed.

Lemma roleMap_In roles k v : roleMap roles !! k = Some v -> In (k, v) roles.
Proof.
  induction roles as [|r roles IH] using rev_ind.
  - unfold roleMap. simpl. rewrite lookup_empty. discriminate.
  - rewrite roleMap_snoc. intros H. apply in_or_app.
    destruct (decide (r.1 = k)) as [<- | Hne].
    + rewrite lookup_insert_eq in H. injection H as <-.
      right. left. now destruct r.
    + rewrite lookup_insert_ne in H by assumption. left. now apply IH.
Qed.

Lemma roleMap_NoDup roles k v :
  List.NoDup (map fst roles) -> In (k, v) roles -> roleMap roles !! k = Some v.
Proof.
  induction roles as [|r roles IH] using rev_ind; intros Hnd Hin; [destruct Hin|].
  rewrite roleMap_snoc. rewrite map_app in Hnd. simpl in Hnd.
  apply in_app_or in Hin. destruct Hin as [Hin | [-> | []]].
  - assert (Hne : r.1 <> k).
    { intros <-. apply List.NoDup_remove_2 in Hnd. rewrite app_nil_r in Hnd.
      apply Hnd. apply in_map_iff. now exists (r.1, v). }
    rewrite lookup_insert_ne by assumption. apply IH; [|assumption].
    apply List.NoDup_remove_1 in Hnd. now rewrite app_nil_r in Hnd.
  - simpl. now rewrite lookup_insert_eq.
Qed.

Lemma truthy_str o : truthy o = true -> str o <> "".
Proof.
  destruct o as [x|]; simpl; [|discriminate].
  intros H Hx. apply negb_true_iff, bool_decide_eq_false in H. contradiction.
Qed.

Lemma memberOf_displayName roles p : m_displayName (memberOf roles p) <> "".
Proof.
  simpl. unfold orElse at 1.
  destruct (truthy (orElse (p_display_name p.2) (beforeAt <$> p_email p.2)))
    eqn:Ht.
  - now apply truthy_str.
  - discriminate.
Qed.
End RoleLemmas.

(** X25: the role answered by the Remote Store decides the permissions, and
    nothing else does.  After [fetchUserRole] the hook is no longer loading;
    the user may manage roles and delete tasks exactly when signed in and
    answered [manager], may create and assign tasks exactly when answered
    [manager] or [team_leader], and is a developer when answered [developer]
    or when the lookup fails.  So after a failed lookup, and for a user who is
    signed out, [assignRole] is denied: it sends nothing and changes no
    member. *)
Theorem role_lookup_decides_permissions
  (user : option string) (remote : Outcome AppRole) (s : Roles.State) :
  let s' := Roles.fetchUserRole user remote s in
  Roles.rolesLoading s' = false /\
  (Roles.canManageRoles s' = true <-> user <> None /\ saysManager remote) /\
  Roles.canDeleteTasks s' = Roles.canManageRoles s' /\
  (Roles.canCreateTasks s' = true
   <-> user <> None /\ (saysManager remote \/ saysLeader remote)) /\
  Roles.canAssignTasks s' = Roles.canCreateTasks s' /\
  (Roles.isDeveloper s' = true
   <-> user <> None /\
       (remote = Success developer \/ exists message, remote = Failure message)) /\
  (user = None \/ (exists message, remote = Failure message) ->
   forall userId role existing write profiles roles,
     let r := Roles.assignRole user userId role existing write profiles roles s' in
     r.1 = false /\
     Roles.roleRequests r.2 = Roles.roleRequests s' /\
     Roles.teamMembers r.2 = Roles.teamMembers s' /\
     Roles.roleToasts r.2 = (Roles.roleToasts s' ++ [deniedToast])%list).
Proof.
  intros s'.
  pose proof (fetchUserRole_role user remote s) as Hrole. fold s' in Hrole.
  unfold Roles.canManageRoles, Roles.canDeleteTasks, Roles.canCreateTasks,
    Roles.canAssignTasks, Roles.isDeveloper, saysManager, saysLeader.
  rewrite Hrole.
  split; [now destruct user|].
  split.
  { rewrite bool_decide_eq_true. split.
    - destruct user; [|discriminate]. destruct remote as [|role]; [discriminate|].
      intros H. injection H as ->. now split.
    - intros [Hu ->]. destruct user; [reflexivity | contradiction]. }
  split; [reflexivity|].
  split.
  { rewrite orb_true_iff, !bool_decide_eq_true. split.
    - destruct user; [|intros [H|H]; discriminate H].
      destruct remote as [|role]; [intros [H|H]; discriminate H|].
      intros [H|H]; injection H as ->; split; auto; discriminate.
    - intros [Hu H]. destruct user; [|contradiction].
      destruct H as [-> | ->]; auto. }
  split; [reflexivity|].
  split.
  { rewrite bool_decide_eq_true. split.
    - destruct user; [|discriminate].
      destruct remote as [message|role].
      + intros _. split; [discriminate|]. right. now exists message.
      + intros H. injection H as ->. split; [discriminate|]. now left.
    - intros [Hu H]. destruct user; [|contradiction].
      destruct H as [-> | [message ->]]; reflexivity. }
  intros H userId role existing write profiles roles.
  rewrite assignRole_denied; [repeat split|].
  destruct H as [-> | [message ->]]; [now left|]. right.
  rewrite Hrole. destruct user; discriminate.
Qed.

(** X26: only a manager writes a role, and then once.  Called by a user who
    is signed out or whose role is not [manager], [assignRole] returns false
    and sends no request at all.  Called by a signed-in manager, it sends
    exactly one write for the given user and role, an update when a role
    exists and an insert otherwise; it returns true exactly when the write
    succeeds, and a failed write leaves the team members as they are and
    shows the message of the failure.  The role of the caller never
    changes. *)
Theorem assignRole_writes_once_for_managers
  (user : option string) (userId : string) (role : AppRole) (existing : bool)
  (write : Outcome unit) (profiles : Outcome (list (string * Profile)))
  (roles : Outcome (list (string * AppRole))) (s : Roles.State) :
  let r := Roles.assignRole user userId role existing write profiles roles s in
  Roles.userRole r.2 = Roles.userRole s /\
  (user = None \/ Roles.userRole s <> Some manager ->
   r.1 = false /\ Roles.roleRequests r.2 = Roles.roleRequests s /\
   Roles.teamMembers r.2 = Roles.teamMembers s) /\
  (user <> None -> Roles.userRole s = Some manager ->
   roleWrites r.2
   = (roleWrites s ++ [if existing then ReqUpdateRole userId role
                       else ReqInsertRole userId role])%list /\
   (r.1 = true <-> exists x, write = Success x) /\
   (forall message,
       write = Failure message ->
       Roles.teamMembers r.2 = Roles.teamMembers s /\
       Roles.roleToasts r.2
       = (Roles.roleToasts s ++
          [mkToast "Error assigning role" (Some message) true None])%list)).
Proof.
  intros r. subst r. split; [|split].
  - unfold Roles.assignRole.
    destruct (negb (has user) || negb (Roles.canManageRoles s)); [reflexivity|].
    destruct write; [reflexivity|]. simpl.
    unfold Roles.fetchTeamMembers.
    destruct (negb (has user) || negb (Roles.canAssignTasks _)); [reflexivity|].
    destruct profiles; [reflexivity|]. destruct roles; reflexivity.
  - intros H. rewrite assignRole_denied by assumption. repeat split.
  - intros Hu Hm. destruct user as [u|]; [|contradiction].
    unfold Roles.assignRole, Roles.canManageRoles, Roles.fetchTeamMembers,
      Roles.canAssignTasks.
    rewrite bool_decide_eq_true_2 by assumption. simpl.
    destruct write as [message|x]; simpl.
    + split; [|split].
      * unfold roleWrites. simpl. rewrite !List.filter_app. simpl.
        rewrite app_nil_r. now destruct existing.
      * split; [discriminate | intros [x Hx]; discriminate Hx].
      * intros m Hmsg. injection Hmsg as <-. split; reflexivity.
    + rewrite bool_decide_eq_true_2 by assumption. simpl.
      split; [|split].
      * unfold roleWrites.
        destruct profiles as [|ps]; [|destruct roles]; simpl;
          rewrite !List.filter_app; simpl; rewrite ?app_nil_r;
          now destruct existing.
      * split; [now exists x | reflexivity].
      * intros m Hmsg. discriminate Hmsg.
Qed.

(** X27: the team members follow the profiles.  When a signed-in manager or
    team leader fetches the team and both selects succeed, there is one
    member per profile, in the order of the rows and with their identifiers;
    no member has an empty display name; a member's role is a role that the
    rows of [user_roles] give to that user, and when each user has at most one
    row it is exactly that one; the developers offered for assignment are the
    members whose row says [developer].  When a select fails the members stay
    as they were. *)
Theorem team_members_follow_profiles
  (u : string) (profiles : list (string * Profile))
  (roles : list (string * AppRole)) (s : Roles.State) :
  Roles.canAssignTasks s = true ->
  let s' := Roles.fetchTeamMembers (Some u) (Success profiles) (Success roles) s in
  map m_id (Roles.teamMembers s') = map fst profiles /\
  Forall (fun m => m_displayName m <> "") (Roles.teamMembers s') /\
  (forall m r, In m (Roles.teamMembers s') -> m_role m = Some r ->
               In (m_id m, r) roles) /\
  (List.NoDup (map fst roles) ->
   forall m r, In m (Roles.teamMembers s') ->
               (m_role m = Some r <-> In (m_id m, r) roles)) /\
  (List.NoDup (map fst roles) ->
   forall m, In m (Roles.getDevelopers s')
             <-> In m (Roles.teamMembers s') /\ In (m_id m, developer) roles) /\
  (forall message answer,
      Roles.teamMembers
        (Roles.fetchTeamMembers (Some u) (Failure message) answer s)
      = Roles.teamMembers s /\
      Roles.teamMembers
        (Roles.fetchTeamMembers (Some u) (Success profiles) (Failure message) s)
      = Roles.teamMembers s).
Proof.
  intros Hcan s'.
  assert (Hs' : Roles.teamMembers s'
                = map (Roles.memberOf (Roles.roleMap roles)) profiles).
  { subst s'. unfold Roles.fetchTeamMembers. rewrite Hcan. reflexivity. }
  assert (Hrole : forall m r, In m (Roles.teamMembers s') ->
                              m_role m = Some r -> In (m_id m, r) roles).
  { intros m r Hin Hr. rewrite Hs' in Hin. apply in_map_iff in Hin.
    destruct Hin as (p & <- & _). simpl in *. now apply roleMap_In. }
  assert (Hexact : List.NoDup (map fst roles) ->
                   forall m r, In m (Roles.teamMembers s') ->
                               (m_role m = Some r <-> In (m_id m, r) roles)).
  { intros Hnd m r Hin. split; [now apply Hrole|].
    rewrite Hs' in Hin. apply in_map_iff in Hin.
    destruct Hin as (p & <- & _). simpl. now apply roleMap_NoDup. }
  split; [|split; [|split; [|split; [|split]]]].
  - rewrite Hs', map_map. reflexivity.
  - rewrite Hs'. apply List.Forall_forall. intros m Hin.
    apply in_map_iff in Hin. destruct Hin as (p & <- & _).
    apply memberOf_displayName.
  - exact Hrole.
  - exact Hexact.
  - intros Hnd m. unfold Roles.getDevelopers. rewrite filter_In.
    rewrite bool_decide_eq_true. split.
    + intros [Hin Hr]. split; [assumption|]. now apply (Hexact Hnd m developer).
    + intros [Hin Hr]. split; [assumption|]. now apply (Hexact Hnd m developer).
  - intros message answer. unfold Roles.fetchTeamMembers. rewrite Hcan.
    split; reflexivity.
Qed.

Example team_members_follow_profiles_witness :
  let s' := Roles.fetchTeamMembers (Some "u1") (Success exampleProfiles)
              (Success exampleRoles) (rolesOf team_leader) in
  Roles.teamMembers s'
  = [mkMember "u1" "ann@x.org" "Ann" (Some team_leader);
     mkMember "u2" "bob@x.org" "bob" (Some developer);
     mkMember "u3" "" "Unknown" None] /\
  Roles.getDevelopers s' = [mkMember "u2" "bob@x.org" "bob" (Some developer)] /\
  map m_id (Roles.teamMembers s') = map fst exampleProfiles.
Proof.
  intros s'. do 2 (split; [reflexivity|]).
  exact (proj1 (team_members_follow_profiles "u1" exampleProfiles exampleRoles
                  (rolesOf team_leader) eq_refl)).
Defined.

(** ** The task form *)

Section FormLemmas.
Import Store Sync Notifications Form.
Variable addDays : Z -> Z -> Z.
Variable addHours : Z -> Z -> Z.
Variable atTime : Z -> string -> Z.
Variable formatTime : Z -> string.
Variable uuidv4 : nat -> string.






Lemma taskData_entry id f reminders ts t :
  In t (map (patchEntry (Some id) (taskData f reminders)) ts) ->
  t_id t = Some id ->
  t_dueDate t = Some (fl_finalDueDate f) /\
  t_reminders t = Some reminders /\
  exists t0, In t0 ts /\ t_status t = t_status t0.
Proof.
  intros Hin Hid. apply in_map_iff in Hin. destruct Hin as (t0 & <- & Hin0).
  unfold patchEntry in *. destruct (idIs (Some id) t0) eqn:Hb.
  - simpl. repeat split. now exists t0.
  - apply idIs_false in Hb. contradiction.
Qed.

Lemma taskData_haveReminders id f reminders ts :
  haveReminders ts ->
  haveReminders (map (patchEntry (Some id) (taskData f reminders)) ts).
Proof.
  unfold haveReminders. apply patch_Forall.
  - intros _ _. discriminate.
  - intros t _. discriminate.
Qed.

Lemma submitEdit_store u id f w entry :
  findTask id w = Some entry -> fl_title f <> "" ->
  store (submitEdit addDays addHours atTime uuidv4 (Some u) id f (Success tt) w)
  = updateTaskOptimistic (Some id)
      (taskData f (buildReminders addDays addHours atTime uuidv4 id
                     (fl_finalDueDate f) (fl_reminderConfigs f)))
      (store w).
Proof.
  intros Hfind Ht. unfold submitEdit.
  rewrite bool_decide_eq_false_2 by assumption.
  now apply updateTask_success with (original := entry).
Qed.
End FormLemmas.



(** X29: a task saved without a due date has no reminders.  Whatever
    reminders are configured in the form, custom ones with a date of their
    own included, a save without due date that the Remote Store accepts
    leaves every entry of the task with an empty list of reminders, and the
    next scan, at any time, runs to its end and fires nothing for such an
    entry. *)
Theorem saving_without_due_date_drops_reminders
  (addDays addHours : Z -> Z -> Z) (atTime : Z -> string -> Z)
  (uuidv4 : nat -> string)
  (u id : string) (f : Form.Fields) (entry : Task) (now : Z) (w : World) :
  Sync.findTask id w = Some entry ->
  haveReminders (Store.tasks (store w)) ->
  Form.fl_title f <> "" ->
  Form.fl_finalDueDate f = None ->
  let saved :=
    Form.submitEdit addDays addHours atTime uuidv4 (Some u) id f (Success tt) w in
  exists w',
    Notifications.scan now saved = Notifications.Done w' /\
    forall t, In t (Store.tasks (store saved)) -> t_id t = Some id ->
      t_dueDate t = Some None /\
      t_reminders t = Some [] /\
      forall r, In (t, r) (fired w') -> In (t, r) (fired w).
Proof.
  intros Hfind Hrem Htitle Hdue saved.
  assert (Hstore : Store.tasks (store saved)
                   = map (Store.patchEntry (Some id) (Form.taskData f []))
                         (Store.tasks (store w))).
  { subst saved.
    rewrite (submitEdit_store addDays addHours atTime uuidv4 u id f w entry
               Hfind Htitle).
    now rewrite Hdue. }
  assert (Hfired0 : fired saved = fired w).
  { subst saved. unfold Form.submitEdit.
    rewrite bool_decide_eq_false_2 by assumption.
    unfold Sync.updateTask. now rewrite Hfind. }
  destruct (checkReminders_done now (Store.tasks (store saved)) saved)
    as (w' & Hscan & Hfired).
  { rewrite Hstore. now apply taskData_haveReminders. }
  exists w'. split; [exact Hscan|].
  intros t Hin Hid. pose proof Hin as Hin'. rewrite Hstore in Hin'.
  destruct (taskData_entry id f _ _ t Hin' Hid) as (Hd & Hr & _).
  split; [now rewrite Hd, Hdue|]. split; [exact Hr|].
  intros r Hf. rewrite Hfired, Hfired0 in Hf. apply in_app_or in Hf.
  destruct Hf as [Hf | Hf]; [assumption|].
  apply dueCalls_spec in Hf. destruct Hf as (_ & Hf & _).
  unfold remindersOf in Hf. rewrite Hr in Hf. destruct Hf.
Qed.

Example saving_without_due_date_drops_reminders_witness :
  let w := worldWith [exampleTask "a" "A" pending None
                        [mkReminder "r" "a" 1000%Z custom false None]] in
  let f := exampleFields "A" None
             [mkConfig custom (Some 1000%Z) (Some "09:00")] in
  let saved := Form.submitEdit plusDays plusHours sameInstant numbered
                 (Some "u") "a" f (Success tt) w in
  fired (Notifications.worldOf (Notifications.scan 1500%Z w))
  = [(exampleTask "a" "A" pending None
        [mkReminder "r" "a" 1000%Z custom false None],
      mkReminder "r" "a" 1000%Z custom false None)] /\
  exists w',
    Notifications.scan 1500%Z saved = Notifications.Done w' /\
    forall t, In t (Store.tasks (store saved)) -> t_id t = Some "a" ->
      t_dueDate t = Some None /\
      t_reminders t = Some [] /\
      forall r, In (t, r) (fired w') -> In (t, r) (fired w).
Proof.
  intros w f saved. split; [reflexivity|].
  apply (saving_without_due_date_drops_reminders plusDays plusHours sameInstant
           numbered "u" "a" f
           (exampleTask "a" "A" pending None
              [mkReminder "r" "a" 1000%Z custom false None])
           1500%Z w).
  - reflexivity.
  - repeat constructor. discriminate.
  - discriminate.
  - reflexivity.
Defined.
